(** * odin-ai: the speech feature-extraction pipeline

    A shallow embedding of the signal-processing routines of
    [odin/preprocessing/signal.py] and [odin/preprocessing/speech.py]:
    frame segmentation, pre-emphasis, dB scaling, delta features, the
    energy-based voice-activity detector and the [speech_features]
    orchestrator; then the mel scale and its filter bank, the cosine
    basis, smoothing, padding, the short-time Fourier transform and its
    inverse, [spectra] and the TIMIT phoneme indices.

    Conventions.
    - A Python [int] is a [Z]; [//] and [%] with a positive divisor are
      [Z.div] and [Z.modulo] (both round towards minus infinity).
    - A one-dimensional [ndarray] is a [list]; a two-dimensional one is
      a [matrix], the [list] of its rows together with its column count.
      The time axis is the last one ([axis=-1]).
    - The libraries the code calls (scikit-learn, sidekit, librosa,
      resampy, the window functions of numpy and scipy, the transforms
      of [scipy.fftpack]) are parameters of the functions that call them.
    - The decorator [cache_memory] of [odin.utils] stores results: a
      decorated function is modelled by its body, and the marker
      ['__cache__'] that a caller hands to the cache is no argument of
      the body.
    - A Python exception is a value of [exn]; a function that can raise
      returns a [result].
    - Sample values are idealised: exact rationals ([Q]) where the code
      only adds, multiplies and divides, real numbers ([R]) where it takes
      logarithms or square roots.  Rounding, infinities and NaN of the
      IEEE formats are outside the model, but for the argument of
      [set_vad_mode], which may be an infinity or NaN. *)

From Stdlib Require Import ZArith List Bool Lia String DecimalString.
From Stdlib Require Import QArith Qabs.
From Stdlib Require Import Reals Lra.
Import ListNotations.

Set Implicit Arguments.

(** ** Python exceptions and results *)

Inductive exn : Type :=
| ValueError (msg : string)
| IndexError
| AttributeError (msg : string)
| AssertionError
| Exception (msg : string).

Inductive result (A : Type) : Type :=
| Ok (a : A)
| Raise (e : exn).

Arguments Ok {A} a.
Arguments Raise {A} e.

Definition bind {A B : Type} (r : result A) (k : A -> result B) : result B :=
  match r with
  | Ok a => k a
  | Raise e => Raise e
  end.

Declare Scope py_scope.
Delimit Scope py_scope with py.
Notation "x <- c ;; k" := (bind c (fun x => k))
  (at level 61, c at next level, right associativity) : py_scope.
Notation "' pat <- c ;; k" :=
  (bind c (fun x => match x with pat => k end))
  (at level 61, pat pattern, c at next level, right associativity) : py_scope.
Notation "'assert' b ;; k" := (if b then k else Raise AssertionError)
  (at level 61, b at next level, right associativity) : py_scope.

Definition is_ok {A : Type} (r : result A) : bool :=
  match r with Ok _ => true | Raise _ => false end.

(** [len a] as a Python integer. *)
Definition len {A : Type} (a : list A) : Z := Z.of_nat (List.length a).

(** ** Slicing

    [a[start:stop]] for a list, step 1, with Python's treatment of
    negative and out-of-range bounds ([None] is an absent bound). *)

Definition slice_bound (n : Z) (i : Z) : Z :=
  if (i <? 0)%Z then Z.max 0 (n + i) else Z.min n i.

Definition py_slice {A : Type} (a : list A) (start stop : option Z) : list A :=
  let n := len a in
  let lo := match start with None => 0%Z | Some i => slice_bound n i end in
  let hi := match stop with None => n | Some i => slice_bound n i end in
  firstn (Z.to_nat (hi - lo)) (skipn (Z.to_nat lo) a).

(** Assignment [b[slot] = src] into a slot of [k] cells under numpy's
    broadcasting: [src] must have [k] entries, or a single one that is
    repeated.  The result is the new content of the slot. *)
Definition np_broadcast_to {A : Type} (k : nat) (src : list A) : result (list A) :=
  if Nat.eqb (List.length src) k then Ok src
  else match src with
       | [x] => Ok (repeat x k)
       | _ => Raise (ValueError "could not broadcast input array")
       end.

(** [a[i]] with Python's negative indices; out of range raises. *)
Definition py_index {A : Type} (a : list A) (i : Z) : result A :=
  let n := len a in
  let j := if (i <? 0)%Z then (n + i)%Z else i in
  if ((j <? 0) || (n <=? j))%Z then Raise IndexError
  else match nth_error a (Z.to_nat j) with
       | Some x => Ok x
       | None => Raise IndexError
       end.

Fixpoint map2 {A B C : Type} (f : A -> B -> C) (u : list A) (v : list B)
  : list C :=
  match u, v with
  | x :: u', y :: v' => f x y :: map2 f u' v'
  | _, _ => []
  end.

(** ** Numbers

    The arithmetic the array code uses, as an interface with an exact
    rational and a real instance. *)

Class Num (T : Type) : Type := {
  num_of_Z : Z -> T;
  num_add : T -> T -> T;
  num_sub : T -> T -> T;
  num_mul : T -> T -> T;
  num_div : T -> T -> T;
  num_abs : T -> T }.

#[global] Instance Num_Q : Num Q := {
  num_of_Z := inject_Z;
  num_add := Qplus;
  num_sub := Qminus;
  num_mul := Qmult;
  num_div := Qdiv;
  num_abs := Qabs }.

#[global] Instance Num_R : Num R := {
  num_of_Z := IZR;
  num_add := Rplus;
  num_sub := Rminus;
  num_mul := Rmult;
  num_div := Rdiv;
  num_abs := Rabs }.

(** [np.sum] of a one-dimensional array. *)
Definition np_sum {T : Type} `{Num T} (v : list T) : T :=
  fold_left num_add v (num_of_Z 0).

(** ** Arrays

    A two-dimensional array keeps its column count next to its rows, so
    that the shape [(0, t)] is told apart from [(0, 0)]. *)

Record matrix (T : Type) : Type := Mat {
  mat_rows : list (list T);
  mat_ncols : nat }.

Arguments Mat {T} mat_rows mat_ncols.

Definition mat_shape {T : Type} (m : matrix T) : nat * nat :=
  (List.length (mat_rows m), mat_ncols m).

Definition mat_wf {T : Type} (m : matrix T) : Prop :=
  Forall (fun r => List.length r = mat_ncols m) (mat_rows m).

Definition mat_map_rows {T U : Type} (f : list T -> list U) (ncols : nat)
    (m : matrix T) : matrix U :=
  Mat (map f (mat_rows m)) ncols.

Inductive ndarray (T : Type) : Type :=
| Arr1 (v : list T)
| Arr2 (m : matrix T).

Arguments Arr1 {T} v.
Arguments Arr2 {T} m.

(** ** signal.py *)

Module Signal.

Local Open Scope Z_scope.
Local Open Scope py_scope.

(** *** segment_axis *)

(** The [end] argument: ['cut'], ['wrap'] or ['pad']. *)
Inductive end_policy : Type := Cut | Wrap | Pad.

(** The [endmode] argument: ['pre'] or ['post']. *)
Inductive end_mode : Type := Pre | Post.

(** The strided view built by [np.ndarray.__new__]: shape
    [(n, frame_length)], strides [(hop * s, s)], so that entry [(i, j)]
    is element [i * hop + j] of the buffer. *)
Definition strided_frames {A : Type} (a : list A) (n frame_length hop : Z)
  : list (list A) :=
  map (fun i => firstn (Z.to_nat frame_length)
                  (skipn (Z.to_nat (Z.of_nat i * hop)) a))
      (seq 0 (Z.to_nat n)).

(** The rounding step of [segment_axis]: the pair [(roundup, rounddown)]. *)
Definition round_lengths (length frame_length overlap : Z) : Z * Z :=
  if length >? frame_length then
    (frame_length
       + (1 + (length - frame_length) / (frame_length - overlap))
         * (frame_length - overlap),
     frame_length
       + ((length - frame_length) / (frame_length - overlap))
         * (frame_length - overlap))
  else (frame_length, 0).

(** [segment_axis(a, frame_length, hop_length, axis=0, end, endvalue,
    endmode)] on a one-dimensional array. *)
Definition segment_axis {A : Type} (a : list A) (frame_length hop_length : Z)
    (end_ : end_policy) (endvalue : A) (endmode : end_mode)
  : result (list (list A)) :=
  let length := len a in
  let overlap := frame_length - hop_length in
  if overlap >=? frame_length then
    Raise (ValueError "frames cannot overlap by more than 100%")
  else if (overlap <? 0) || (frame_length <=? 0) then
    Raise (ValueError "overlap must be nonnegative and length mustbe positive")
  else
    a' <- (if (length <? frame_length)
              || negb ((length - frame_length) mod (frame_length - overlap) =? 0)
           then
             let '(roundup, rounddown) :=
               round_lengths length frame_length overlap in
             assert ((rounddown <? length) && (length <? roundup)) ;;
             assert ((roundup =? rounddown + (frame_length - overlap))
                     || ((roundup =? frame_length) && (rounddown =? 0))) ;;
             match end_ with
             | Cut => Ok (py_slice a None (Some rounddown))
             | Pad =>
                 fill <- np_broadcast_to (Z.to_nat (roundup - length)) [endvalue] ;;
                 match endmode with
                 | Pre => Ok (a ++ fill)
                 | Post => Ok (fill ++ a)
                 end
             | Wrap =>
                 fill <- np_broadcast_to (Z.to_nat (roundup - length))
                           (py_slice a None (Some (roundup - length))) ;;
                 match endmode with
                 | Pre => Ok (a ++ fill)
                 | Post => Ok (fill ++ a)
                 end
             end
           else Ok a) ;;
    let length := len a' in
    if length =? 0 then
      Raise (ValueError "Not enough data points to segment array in 'cut' mode; try 'pad' or 'wrap'")
    else
      assert (length >=? frame_length) ;;
      assert ((length - frame_length) mod (frame_length - overlap) =? 0) ;;
      let n := 1 + (length - frame_length) / (frame_length - overlap) in
      Ok (strided_frames a' n frame_length (frame_length - overlap)).

(** The two parameter checks at the head of [segment_axis], as the
    exceptions they raise. *)
Definition is_parameter_error (e : exn) : bool :=
  match e with
  | ValueError msg =>
      String.eqb msg "frames cannot overlap by more than 100%"
      || String.eqb msg "overlap must be nonnegative and length mustbe positive"
  | _ => false
  end.


(** *** pre_emphasis *)

(** The branch [s.ndim == 1]: [np.append(s[0], s[1:] - coeff * s[:-1])]. *)
Definition pre_emphasis_vector {T : Type} `{Num T} (v : list T) (coeff : T)
  : result (list T) :=
  s0 <- py_index v 0 ;;
  Ok (s0 :: map2 num_sub (py_slice v (Some 1) None)
              (map (num_mul coeff) (py_slice v None (Some (-1))))).

(** The other branch: [s - np.c_[s[:, :1], s[:, :-1]] * coeff], row by
    row. *)
Definition pre_emphasis_matrix {T : Type} `{Num T} (m : matrix T) (coeff : T)
  : matrix T :=
  mat_map_rows
    (fun r => map2 num_sub r
                (map (fun x => num_mul x coeff)
                   (py_slice r None (Some 1) ++ py_slice r None (Some (-1)))))
    (mat_ncols m) m.

Definition pre_emphasis {T : Type} `{Num T} (s : ndarray T) (coeff : T)
  : result (ndarray T) :=
  match s with
  | Arr1 v => v' <- pre_emphasis_vector v coeff ;; Ok (Arr1 v')
  | Arr2 m => Ok (Arr2 (pre_emphasis_matrix m coeff))
  end.

(** *** compute_delta *)

(** [np.arange(start, stop, -1)]: [start, start - 1, ...] down to, and
    without, [stop]. *)
Definition np_arange_down (start stop : Z) : list Z :=
  map (fun i => start - Z.of_nat i) (seq 0 (Z.to_nat (start - stop))).

Definition half_length (width : Z) : Z := 1 + width / 2.

(** The regression kernel before normalisation. *)
Definition raw_window {T : Type} `{Num T} (width : Z) : list T :=
  map num_of_Z
    (np_arange_down (half_length width - 1) (- half_length width)).

Definition sum_squares {T : Type} `{Num T} (v : list T) : T :=
  np_sum (map (fun x => num_mul (num_abs x) (num_abs x)) v).

(** [window /= np.sum(np.abs(window)**2)]. *)
Definition delta_window {T : Type} `{Num T} (width : Z) : list T :=
  let window := raw_window width in
  let s := sum_squares window in
  map (fun x => num_div x s) window.

(** [scipy.signal.lfilter(b, 1, x)] on a vector, started at rest:
    [y[n] = b[0] x[n] + b[1] x[n-1] + ... + b[M] x[n-M]], where the
    samples before the start of [x] count as zero. *)
Definition lfilter {T : Type} `{Num T} (b x : list T) : list T :=
  map (fun n =>
         np_sum (map (fun k => num_mul (nth k b (num_of_Z 0))
                                 (nth (n - k) x (num_of_Z 0)))
                   (seq 0 (Nat.min (S n) (List.length b)))))
      (seq 0 (List.length x)).

(** [np.pad(row, (width, width), mode='edge')] on a non-empty vector. *)
Definition pad_edge {T : Type} (width : nat) (row : list T) : list T :=
  match row with
  | [] => []
  | x0 :: _ => repeat x0 width ++ row ++ repeat (last row x0) width
  end.

(** The loop [for _ in range(order)]: each pass filters the previous
    output. *)
Fixpoint delta_passes {T : Type} `{Num T} (order : nat) (window : list T)
    (delta_x : matrix T) : list (matrix T) :=
  match order with
  | O => []
  | S order' =>
      let delta_x' := mat_map_rows (lfilter window) (mat_ncols delta_x) delta_x in
      delta_x' :: delta_passes order' window delta_x'
  end.

(** [compute_delta(data, width, order, axis=-1, trim)] on a matrix of
    shape [(d, t)].  [np.pad] refuses to extend an axis without
    frames, and [scipy.signal.lfilter], which runs the kernel along the
    rows, refuses a matrix without rows. *)
Definition compute_delta {T : Type} `{Num T} (data : matrix T)
    (width order : Z) (trim : bool) : result (list (matrix T)) :=
  if (width <? 3) || negb (width mod 2 =? 1) then
    Raise (ValueError "width must be an odd integer >= 3")
  else if order <=? 0 then
    Raise (ValueError "order must be a positive integer")
  else
    let window := delta_window width in
    let t := mat_ncols data in
    if Nat.eqb t 0 then
      Raise (ValueError "can't extend empty axis 1 using modes other than 'constant' or 'empty'")
    else
      let delta_x :=
        mat_map_rows (pad_edge (Z.to_nat width)) (Z.to_nat width + t + Z.to_nat width)
          data in
      if Nat.eqb (List.length (mat_rows delta_x)) 0 then
        Raise (ValueError "Cannot apply_along_axis when any iteration dimensions are 0")
      else
      let all_deltas := delta_passes (Z.to_nat order) window delta_x in
      if trim then
        Ok (map (fun d =>
                   Mat (map (fun row =>
                               py_slice row
                                 (Some (- half_length width - Z.of_nat t))
                                 (Some (- half_length width)))
                          (mat_rows d))
                       (List.length
                          (py_slice (repeat tt (mat_ncols d))
                             (Some (- half_length width - Z.of_nat t))
                             (Some (- half_length width)))))
                all_deltas)
      else Ok all_deltas.

(** *** power2db *)

Definition log10 (x : R) : R := (ln x / ln 10)%R.

Definition Rgtb (x y : R) : bool := if Rgt_dec x y then true else false.

(** [v.max()]: raises on an empty array. *)
Definition np_max (v : list R) : result R :=
  match v with
  | [] => Raise (ValueError "zero-size array to reduction operation maximum which has no identity")
  | x :: v' => Ok (fold_left Rmax v' x)
  end.

(** [v.min()], used to state the dynamic range of an output. *)
Definition np_min (v : list R) : result R :=
  match v with
  | [] => Raise (ValueError "zero-size array to reduction operation minimum which has no identity")
  | x :: v' => Ok (fold_left Rmin v' x)
  end.

(** The [ref] argument: a scalar, or a function of the magnitudes that
    returns a number or raises, as [np.max] does on an empty array. *)
Inductive ref_arg : Type :=
| RefScalar (r : R)
| RefCallable (f : list R -> result R).

(** [power2db(S, ref, amin, top_db)].  Every step is elementwise or a
    reduction over the whole array, so [S] (here [S_]) is given by the list of its
    entries; [top_db = None] switches the clipping off. *)
Definition power2db (S_ : list R) (ref : ref_arg) (amin : R)
    (top_db : option R) : result (list R) :=
  if Rle_dec amin 0 then Raise (ValueError "amin must be strictly positive")
  else
    let magnitude := map Rabs S_ in
    ref_value <- match ref with
                 | RefCallable f => f magnitude
                 | RefScalar r => Ok (Rabs r)
                 end ;;
    let log_spec := map (fun m => 10 * log10 (Rmax amin m))%R magnitude in
    let log_spec :=
      map (fun x => x - 10 * log10 (Rmax amin ref_value))%R log_spec in
    match top_db with
    | None => Ok log_spec
    | Some top =>
        if Rlt_dec top 0 then Raise (ValueError "top_db must be non-negative")
        else
          peak <- np_max log_spec ;;
          Ok (map (fun x => Rmax x (peak - top)) log_spec)
    end.

(** *** vad_energy *)

Definition VAD_MODE_STRICT : R := 1.2%R.
Definition VAD_MODE_STANDARD : R := 2%R.
Definition VAD_MODE_SENSITIVE : R := 2.4%R.

(** A Python float as the detector holds it: a real number, or the
    IEEE not-a-number, which a caller can pass as [float('nan')]. *)
Inductive float_value : Type :=
| Finite (x : R)
| NaN.

(** The module-level variable [__current_vad_mode]. *)
Record module_state : Type := { current_vad_mode : float_value }.

Definition initial_state : module_state :=
  {| current_vad_mode := Finite VAD_MODE_STANDARD |}.

(** The [mode] argument of [set_vad_mode]: a number with a real value
    (an [int] or a finite [float]), an infinity, the not-a-number, a
    complex number, or anything that is not a [Number]. *)
Inductive mode_arg : Type :=
| ModeReal (x : R)
| ModePosInf
| ModeNegInf
| ModeNaN
| ModeComplex
| ModeOther.

(** [set_vad_mode(mode)]: a [Number] goes through
    [min(max(mode, 1.), 2.4)] and is stored; anything else leaves the
    state alone.  [max(a, b)] is [b] when [b > a] and [a] otherwise, and
    [min] alike, so a real number is clamped to [1.0, 2.4], an infinity
    ends on the nearer bound, the not-a-number, to which every
    comparison answers false, is stored as it is, and a complex number,
    which has no order, makes [max] raise [TypeError] (carried by
    [Exception] with the class name in front) before anything is
    stored. *)
Definition set_vad_mode (mode : mode_arg) (st : module_state)
  : result module_state :=
  match mode with
  | ModeReal m => Ok {| current_vad_mode := Finite (Rmin (Rmax m 1) 2.4) |}
  | ModePosInf => Ok {| current_vad_mode := Finite 2.4 |}
  | ModeNegInf => Ok {| current_vad_mode := Finite 1 |}
  | ModeNaN => Ok {| current_vad_mode := NaN |}
  | ModeComplex =>
      Raise (Exception "TypeError: '>' not supported between instances of 'float' and 'complex'")
  | ModeOther => Ok st
  end.

Definition np_mean (v : list R) : R := (np_sum v / INR (List.length v))%R.

Definition np_std (v : list R) : R :=
  let mu := np_mean v in
  sqrt (np_mean (map (fun x => Rabs (x - mu) * Rabs (x - mu))%R v)).

(** [(log_energy - np.mean(log_energy)) / np.std(log_energy)]. *)
Definition normalize (v : list R) : list R :=
  let mu := np_mean v in
  let sigma := np_std v in
  map (fun x => (x - mu) / sigma)%R v.

(** Index of the first maximum, [means_.argmax()]. *)
Fixpoint argmax_from (best : R) (besti i : nat) (v : list R) : nat :=
  match v with
  | [] => besti
  | x :: v' =>
      if Rgt_dec x best then argmax_from x i (S i) v'
      else argmax_from best besti (S i) v'
  end.

Definition np_argmax (v : list R) : result nat :=
  match v with
  | [] => Raise (ValueError "attempt to get argmax of an empty sequence")
  | x :: v' => Ok (argmax_from x 0 1 v')
  end.

(** What the caller reads off a fitted mixture of one-dimensional
    Gaussians: one mean and one precision per component. *)
Record mixture : Type := {
  means_ : list R;
  precisions_ : list R }.

(** [threshold = means_.max() - alpha * sqrt(1 / precisions_[argmax])]. *)
Definition vad_threshold (alpha : R) (world : mixture) : result R :=
  top <- np_max (means_ world) ;;
  k <- np_argmax (means_ world) ;;
  p <- py_index (precisions_ world) (Z.of_nat k) ;;
  Ok (top - alpha * sqrt (1 / p))%R.

(** The outcome of [world.fit(log_energy)]. *)
Inductive fit_outcome : Type :=
| Fitted (world : mixture)
| FitRaises (e : exn).

(** The handler [except (ValueError, IndexError)]. *)
Definition caught (e : exn) : bool :=
  match e with
  | ValueError _ | IndexError => true
  | _ => false
  end.

Section VadEnergy.

(** [GaussianMixture(n_components, max_iter, ...).fit(X)] of scikit-learn,
    with the initial weights, means and precisions that [vad_energy]
    derives from [n_components]. *)
Variable gaussian_mixture_fit : nat -> Z -> list R -> fit_outcome.

(** [vad_energy(log_energy, distrib_nb, nb_train_it)].  [np.ones]
    takes no negative count, so [distrib_nb] is a [nat].  The all-zero
    array of the fall-back is an array of [false] labels.  With the
    not-a-number as the sensitivity the threshold is the not-a-number
    too, after the same reads of the mixture, and no energy exceeds
    it. *)
Fixpoint vad_energy (st : module_state) (log_energy : list R)
    (distrib_nb : nat) (nb_train_it : Z) {struct distrib_nb}
  : result (list bool * float_value) :=
  let log_energy := normalize log_energy in
  match gaussian_mixture_fit distrib_nb nb_train_it log_energy with
  | FitRaises e =>
      if caught e then
        match distrib_nb with
        | S k =>
            if (2 <=? Z.of_nat k) then vad_energy st log_energy k nb_train_it
            else Ok (repeat false (List.length log_energy), Finite 0%R)
        | O => Ok (repeat false (List.length log_energy), Finite 0%R)
        end
      else Raise e
  | Fitted world =>
      match current_vad_mode st with
      | Finite alpha =>
          threshold <- vad_threshold alpha world ;;
          let label := map (fun x => Rgtb x threshold) log_energy in
          Ok (label, Finite threshold)
      | NaN =>
          _ <- vad_threshold 0%R world ;;
          let label := map (fun _ => false) log_energy in
          Ok (label, NaN)
      end
  end.

End VadEnergy.

(** *** hz2mel, mel2hz *)

Definition f_min : R := 0%R.
Definition f_sp : R := (200 / 3)%R.
Definition min_log_hz : R := 1000%R.
Definition min_log_mel : R := ((min_log_hz - f_min) / f_sp)%R.
Definition logstep : R := (ln 6.4 / 27)%R.

(** One entry of [hz2mel]: the linear value, overwritten by the
    logarithmic one where [frequencies >= min_log_hz]. *)
Definition hz2mel_entry (f : R) : R :=
  if Rge_dec f min_log_hz
  then (min_log_mel + ln (f / min_log_hz) / logstep)%R
  else ((f - f_min) / f_sp)%R.

Definition hz2mel (frequencies : list R) : list R :=
  map hz2mel_entry frequencies.

(** One entry of [mel2hz]. *)
Definition mel2hz_entry (m : R) : R :=
  if Rge_dec m min_log_mel
  then (min_log_hz * exp (logstep * (m - min_log_mel)))%R
  else (f_min + f_sp * m)%R.

Definition mel2hz (mels : list R) : list R :=
  map mel2hz_entry mels.

(** *** pad_center *)

(** [pad_center(data, size)] on a vector, with the default
    [mode='constant'] of [numpy.pad], which fills with zeros. *)
Definition pad_center {T : Type} `{Num T} (data : list T) (size : Z)
  : result (list T) :=
  let n := len data in
  let lpad := (size - n) / 2 in
  if lpad <? 0 then
    Raise (ValueError "Target size must be at least input size")
  else
    Ok (repeat (num_of_Z 0) (Z.to_nat lpad)
          ++ data
          ++ repeat (num_of_Z 0) (Z.to_nat (size - n - lpad))).

(** *** pad_sequences *)

(** The assignment [row[start:stop] = src] of numpy, with broadcasting
    of [src] to the cells of the slice. *)
Definition np_assign_slice {A : Type} (row : list A) (start stop : option Z)
    (src : list A) : result (list A) :=
  let n := len row in
  let lo := match start with None => 0 | Some i => slice_bound n i end in
  let hi := match stop with None => n | Some i => slice_bound n i end in
  let hi := Z.max lo hi in
  fill <- np_broadcast_to (Z.to_nat (hi - lo)) src ;;
  Ok (firstn (Z.to_nat lo) row ++ fill ++ skipn (Z.to_nat hi) row).

Definition is_pre_or_post (mode : string) : bool :=
  String.eqb mode "pre" || String.eqb mode "post".

(** The body of the loop of [pad_sequences], for one sequence [s] and
    its row of [X], which starts filled with [value]. *)
Definition pad_sequences_row {A : Type} (maxlen : Z)
    (padding truncating : string) (transformer : A -> A) (row s : list A)
  : result (list A) :=
  let s := map transformer s in
  if len s =? 0 then Ok row
  else if len s >=? maxlen then
    let s := if String.eqb truncating "pre"
             then py_slice s (Some (- maxlen)) None
             else py_slice s None (Some maxlen) in
    np_assign_slice row None None s
  else
    if String.eqb padding "pre"
    then np_assign_slice row (Some (- len s)) None s
    else np_assign_slice row None (Some (len s)) s.

Fixpoint pad_sequences_rows {A : Type} (maxlen : Z)
    (padding truncating : string) (transformer : A -> A) (value : A)
    (sequences : list (list A)) : result (list (list A)) :=
  match sequences with
  | [] => Ok []
  | s :: rest =>
      row <- pad_sequences_row maxlen padding truncating transformer
               (repeat value (Z.to_nat maxlen)) s ;;
      rows <- pad_sequences_rows maxlen padding truncating transformer value
                rest ;;
      Ok (row :: rows)
  end.

(** [max(len(s) for s in sequences)]. *)
Definition max_len {A : Type} (sequences : list (list A)) : result Z :=
  match sequences with
  | [] => Raise (ValueError "max() arg is an empty sequence")
  | s :: rest => Ok (fold_left (fun m s' => Z.max m (len s')) rest (len s))
  end.

(** [pad_sequences(sequences, maxlen, dtype, padding, truncating, value,
    transformer)]; the entries are taken to be of [dtype] already, and
    the double quotes of the messages are written as single ones. *)
Definition pad_sequences {A : Type} (sequences : list (list A))
    (maxlen : option Z) (padding truncating : string) (value : A)
    (transformer : option (A -> A)) : result (list (list A)) :=
  if negb (is_pre_or_post truncating) then
    Raise (ValueError "truncating must be 'pre' or 'post'")
  else if negb (is_pre_or_post padding) then
    Raise (ValueError "padding must be 'pre' or 'post'")
  else
    let transformer :=
      match transformer with None => fun x => x | Some f => f end in
    maxlen <- match maxlen with
              | None => max_len sequences
              | Some m => Ok m
              end ;;
    if maxlen <? 0 then Raise (ValueError "negative dimensions are not allowed")
    else pad_sequences_rows maxlen padding truncating transformer value
           sequences.

(** *** smooth *)

(** [a[start:stop:-1]]: the entries from [start] down to, and without,
    [stop], with Python's treatment of negative and out-of-range bounds
    under a negative step. *)
Definition rev_slice_bound (n : Z) (i : Z) : Z :=
  if (i <? 0)%Z then Z.max (-1) (n + i) else Z.min (n - 1) i.

Definition py_slice_rev {A : Type} (a : list A) (start stop : option Z)
  : list A :=
  let n := len a in
  let hi := match start with None => (n - 1)%Z | Some i => rev_slice_bound n i end in
  let lo := match stop with None => (-1)%Z | Some i => rev_slice_bound n i end in
  rev (firstn (Z.to_nat (hi - lo)) (skipn (Z.to_nat (lo + 1)) a)).

(** An entry of a vector that counts as zero outside of it. *)
Definition nth_or_zero {T : Type} `{Num T} (a : list T) (i : Z) : T :=
  if (i <? 0)%Z then num_of_Z 0 else nth (Z.to_nat i) a (num_of_Z 0).

(** [np.convolve(a, v, mode='same')]: the longer argument is taken as the
    signal, and the output has its length, cut from the middle of the
    full convolution. *)
Definition np_convolve_same {T : Type} `{Num T} (a v : list T)
  : result (list T) :=
  match a, v with
  | [], _ => Raise (ValueError "a cannot be empty")
  | _, [] => Raise (ValueError "v cannot be empty")
  | _, _ =>
      let '(a, v) := if (len a <? len v)%Z then (v, a) else (a, v) in
      let n := len v in
      Ok (map (fun j =>
                 np_sum (map (fun m =>
                                num_mul
                                  (nth_or_zero a
                                     (Z.of_nat j + (n - 1) / 2 - Z.of_nat m))
                                  (nth m v (num_of_Z 0)))
                           (seq 0 (List.length v))))
            (seq 0 (List.length a)))
  end.

Definition window_names : list string :=
  ["flat"; "hanning"; "hamming"; "bartlett"; "blackman"]%string.

Section Smooth.

Context {T : Type} `{Num T}.

(** [eval('np.' + window + '(win)')]: numpy's window functions. *)
Variable np_window : string -> Z -> list T.

(** [smooth(x, win, window)] on a vector. *)
Definition smooth (x : list T) (win : Z) (window : string)
  : result (list T) :=
  if (win <? 3)%Z then Ok x
  else if negb (existsb (String.eqb window) window_names) then
    Raise (ValueError "Window is on of 'flat', 'hanning', 'hamming', 'bartlett', 'blackman'")
  else
    x_first <- py_index x 0 ;;
    let head :=
      map (fun e => num_sub (num_mul (num_of_Z 2) x_first) e)
        (py_slice_rev x (Some (win - 1)%Z) None) in
    x_last <- py_index x (-1) ;;
    let tail :=
      map (fun e => num_sub (num_mul (num_of_Z 2) x_last) e)
        (py_slice_rev x (Some (-1)%Z) (Some (- win)%Z)) in
    let s := head ++ x ++ tail in
    let w :=
      if String.eqb window "flat" then repeat (num_of_Z 1) (Z.to_nat win)
      else np_window window win in
    let total := np_sum w in
    y <- np_convolve_same (map (fun e => num_div e total) w) s ;;
    Ok (py_slice y (Some win) (Some (- win + 1)%Z)).

End Smooth.

(** *** dct_filters *)

(** [np.arange(start, stop, step)] on integers, for a positive step. *)
Definition np_arange_step (start stop step : Z) : list Z :=
  map (fun k => (start + step * Z.of_nat k)%Z)
    (seq 0 (Z.to_nat ((stop - start + step - 1) / step))).

(** [range(start, stop)]. *)
Definition py_range (start stop : Z) : list Z :=
  map (fun k => (start + Z.of_nat k)%Z) (seq 0 (Z.to_nat (stop - start))).

(** [dct_filters(n_filters, n_input)].  [np.empty] refuses a negative
    dimension, [basis[0, :]] needs a first row, and [2.0 / n_input] in
    the loop divides Python numbers. *)
Definition dct_filters (n_filters n_input : Z) : result (matrix R) :=
  if ((n_filters <? 0) || (n_input <? 0))%Z then
    Raise (ValueError "negative dimensions are not allowed")
  else if (n_filters =? 0)%Z then Raise IndexError
  else
    let first := repeat (1 / sqrt (IZR n_input))%R (Z.to_nat n_input) in
    let samples :=
      map (fun k => (IZR k * PI / (2 * IZR n_input))%R)
        (np_arange_step 1 (2 * n_input) 2) in
    if ((n_input =? 0) && (1 <? n_filters))%Z then
      Raise (Exception "ZeroDivisionError: float division by zero")
    else
      Ok (Mat (first
               :: map (fun i =>
                         map (fun s =>
                                (cos (IZR i * s) * sqrt (2 / IZR n_input))%R)
                           samples)
                    (py_range 1 n_filters))
              (Z.to_nat n_input)).

(** *** mel_filters *)

(** [np.linspace(start, stop, num)] with the end point included. *)
Definition np_linspace (start stop : R) (num : Z) : result (list R) :=
  if (num <? 0)%Z then
    Raise (ValueError "Number of samples, num, must be non-negative.")
  else
    Ok (map (fun k => (start + INR k * ((stop - start) / IZR (num - 1)))%R)
          (seq 0 (Z.to_nat num))).

(** [np.diff] of a vector: [v[1:] - v[:-1]]. *)
Definition np_diff (v : list R) : list R := map2 Rminus (skipn 1 v) v.

(** [mel_filters(sr, n_fft, n_mels, fmin, fmax)].  The one-entry arrays
    that [hz2mel] returns for the two scalar bounds are the start and
    the stop of [np.linspace], which gives a vector of [n_mels + 2] mel
    values.  Where numpy divides by a zero it gives an infinity or a
    nan and goes on; the properties below are for [fmin < fmax], where
    no divisor is zero. *)
Definition mel_filters (sr : R) (n_fft n_mels : Z) (fmin : R)
    (fmax : option R) : result (matrix R) :=
  let fmax := match fmax with None => (sr / 2)%R | Some f => f end in
  let n_bins := (1 + n_fft / 2)%Z in
  if ((n_mels <? 0) || (n_bins <? 0))%Z then
    Raise (ValueError "negative dimensions are not allowed")
  else
    fftfreqs <- np_linspace 0 (sr / 2) n_bins ;;
    let min_mel := hz2mel_entry fmin in
    let max_mel := hz2mel_entry fmax in
    mels <- np_linspace min_mel max_mel (n_mels + 2) ;;
    let mel_f := mel2hz mels in
    let fdiff := np_diff mel_f in
    let ramps := map (fun m => map (fun f => (m - f)%R) fftfreqs) mel_f in
    let weights :=
      map (fun i =>
             let lower :=
               map (fun r => (- r / nth i fdiff 0)%R) (nth i ramps []) in
             let upper :=
               map (fun r => (r / nth (i + 1) fdiff 0)%R)
                 (nth (i + 2) ramps []) in
             map2 (fun l u => Rmax 0 (Rmin l u)) lower upper)
        (seq 0 (Z.to_nat n_mels)) in
    let enorm :=
      map2 (fun hi lo => (2 / (hi - lo))%R)
        (py_slice mel_f (Some 2%Z) (Some (n_mels + 2)%Z))
        (py_slice mel_f None (Some n_mels)) in
    Ok (Mat (map2 (fun row e => map (fun x => (x * e)%R) row) weights enorm)
          (Z.to_nat n_bins)).

(** *** get_window *)

(** The [window] argument, by the case of [get_window] it falls in: a
    callable, a specification for scipy (a string, a tuple or a scalar),
    an array or a list, or anything else (kept as the text [format]
    prints for it). *)
Inductive window_spec (Spec : Type) : Type :=
| WinCallable (f : Z -> list R)
| WinScipy (spec : Spec)
| WinArray (w : list R)
| WinOther (shown : string).

Arguments WinCallable {Spec} f.
Arguments WinScipy {Spec} spec.
Arguments WinArray {Spec} w.
Arguments WinOther {Spec} shown.

(** ['{:d}'.format(z)]. *)
Definition format_d (z : Z) : string := NilZero.string_of_int (Z.to_int z).

(** *** stft *)

(** The [energy] argument: false, ['log'] in any case of the letters,
    or anything else that counts as true. *)
Inductive energy_arg : Type := EnergyOff | EnergyOn | EnergyLog.

Definition MAX_MEM_BLOCK : Z := 2 ^ 8 * 2 ^ 11.

(** [np.finfo(np.float32).eps]. *)
Definition float32_eps : R := (/ 2 ^ 23)%R.

(** [range(start, stop, step)] for a step that is not negative. *)
Definition py_range_step (start stop step : Z) : result (list Z) :=
  if step =? 0 then Raise (ValueError "range() arg 3 must not be zero")
  else Ok (np_arange_step start stop step).

(** The product [fft_window * column] of a window reshaped to one
    column and one column of the frames, under numpy's broadcasting. *)
Definition np_multiply_column (w column : list R) : result (list R) :=
  if Nat.eqb (List.length w) (List.length column) then
    Ok (map2 Rmult w column)
  else match w, column with
       | [x], _ => Ok (map (fun c => (x * c)%R) column)
       | _, [c] => Ok (map (fun x => (x * c)%R) w)
       | _, _ => Raise (ValueError "operands could not be broadcast together")
       end.

Fixpoint map_result {A B : Type} (f : A -> result B) (l : list A)
  : result (list B) :=
  match l with
  | [] => Ok []
  | a :: l' => b <- f a ;; bs <- map_result f l' ;; Ok (b :: bs)
  end.

(** [(y_frames**2).sum(axis=0)] for one frame, with
    [np.where(log_energy == 0., eps, log_energy)]. *)
Definition frame_energy (frame : list R) : R :=
  let e := np_sum (map (fun x => (x * x)%R) frame) in
  if Req_dec_T e 0 then float32_eps else e.

Section Stft.

(** What scipy accepts as a window specification, and
    [scipy.signal.get_window]. *)
Variable Spec : Type.
Variable scipy_get_window : Spec -> Z -> bool -> result (list R).

(** Complex numbers, [fftpack.fft] of one column and [conj]. *)
Variable C : Type.
Variable fft : list R -> list C.
Variable conj : C -> C.

(** [np.pad(y, width, mode='reflect')]. *)
Variable np_pad_reflect : list R -> Z -> result (list R).

(** What [np.empty] finds in memory at a position of the new array. *)
Variable uninitialised : nat -> nat -> C.

Definition get_window (window : window_spec Spec) (Nx : Z) (fftbins : bool)
  : result (list R) :=
  match window with
  | WinCallable f => Ok (f Nx)
  | WinScipy spec => scipy_get_window spec Nx fftbins
  | WinArray w =>
      if len w =? Nx then Ok w
      else Raise (ValueError ("Window size mismatch: " ++ format_d (len w)
                              ++ " != " ++ format_d Nx))
  | WinOther shown =>
      Raise (ValueError ("Invalid window specification: " ++ shown))
  end.

(** The body of the loop over the blocks.  [stft_matrix] is stored in
    column-major order, one column for each frame:
    [stft_matrix[:, bl_s:bl_t] = fft(fft_window * y_frames[:, bl_s:bl_t],
    axis=0)[:stft_matrix.shape[0]].conj()]. *)
Definition stft_block (fft_window : list R) (y_frames : list (list R))
    (n_rows : nat) (n_columns : Z) (stft_matrix : list (list C)) (bl_s : Z)
  : result (list (list C)) :=
  let bl_t := Z.min (bl_s + n_columns) (len stft_matrix) in
  block <- map_result
             (fun column =>
                windowed <- np_multiply_column fft_window column ;;
                Ok (map conj (firstn n_rows (fft windowed))))
             (py_slice y_frames (Some bl_s) (Some bl_t)) ;;
  Ok (firstn (Z.to_nat bl_s) stft_matrix ++ block
      ++ skipn (Z.to_nat bl_t) stft_matrix).

(** [stft(y, n_fft, hop_length, window, center, preemphasis, energy)] on
    a vector.  The result is [stft_matrix.T], one row for each frame,
    with the frame energies when [energy] asks for them. *)
Definition stft (y : list R) (n_fft : Z) (hop_length : option Z)
    (window : window_spec Spec) (center : bool) (preemphasis : option R)
    (energy : energy_arg) : result (list (list C) * option (list R)) :=
  let hop_length :=
    match hop_length with None => n_fft / 4 | Some h => h end in
  fft_window <- get_window window n_fft true ;;
  y <- match preemphasis with
       | Some coeff =>
           if Rlt_dec 0 coeff then
             if Rlt_dec coeff 1 then pre_emphasis_vector y coeff else Ok y
           else Ok y
       | None => Ok y
       end ;;
  y <- (if center then np_pad_reflect y (n_fft / 2) else Ok y) ;;
  y_frames <- segment_axis y n_fft hop_length Cut 0%R Post ;;
  let log_energy :=
    match energy with
    | EnergyOff => None
    | EnergyOn => Some (map frame_energy y_frames)
    | EnergyLog => Some (map (fun frame => ln (frame_energy frame)) y_frames)
    end in
  let n_rows := Z.to_nat (1 + n_fft / 2) in
  let stft_matrix :=
    map (fun t => map (fun f => uninitialised f t) (seq 0 n_rows))
      (seq 0 (List.length y_frames)) in
  let n_columns := MAX_MEM_BLOCK / (Z.of_nat n_rows * 8) in
  starts <- py_range_step 0 (len stft_matrix) n_columns ;;
  stft_matrix <-
    fold_left
      (fun matrix bl_s =>
         m <- matrix ;; stft_block fft_window y_frames n_rows n_columns m bl_s)
      starts (Ok stft_matrix) ;;
  Ok (stft_matrix, log_energy).

End Stft.

(** *** istft *)

(** [np.finfo(np.float32).tiny]. *)
Definition float32_tiny : R := (/ 2 ^ 126)%R.

(** An elementwise operation on two vectors under numpy's
    broadcasting. *)
Definition np_broadcast2 (f : R -> R -> R) (u v : list R) : result (list R) :=
  if Nat.eqb (List.length u) (List.length v) then Ok (map2 f u v)
  else match u, v with
       | [x], _ => Ok (map (f x) v)
       | _, [y] => Ok (map (fun x => f x y) u)
       | _, _ => Raise (ValueError "operands could not be broadcast together")
       end.

(** The in-place addition [row[start:stop] += src]: [src] is broadcast
    to the cells of the slice. *)
Definition np_iadd_slice (row : list R) (start stop : option Z)
    (src : list R) : result (list R) :=
  let slice := py_slice row start stop in
  fill <- np_broadcast_to (List.length slice) src ;;
  np_assign_slice row start stop (map2 Rplus slice fill).

(** [np.concatenate((spec.conj(), spec[-2:0:-1]), 0)]: the spectrum of
    a real signal, rebuilt from the half that [stft] keeps. *)
Definition hermitian_extension {C : Type} (conj : C -> C) (spec : list C)
  : list C :=
  map conj spec ++ py_slice_rev spec (Some (-2)) (Some 0).

Section Istft.

Variable Spec : Type.
Variable scipy_get_window : Spec -> Z -> bool -> result (list R).

(** Complex numbers, [fftpack.ifft] of one spectrum, [conj] and the
    real part. *)
Variable C : Type.
Variable ifft : list C -> list C.
Variable conj : C -> C.
Variable real : C -> R.

(** The body of the loop over the frames, on the pair of the buffers
    [y] and [ifft_window_sum]. *)
Definition istft_frame (ifft_window ifft_window_square : list R)
    (n_fft hop_length : Z) (stft_matrix : matrix C)
    (buffers : list R * list R) (i : Z) : result (list R * list R) :=
  let '(y, ifft_window_sum) := buffers in
  let sample := i * hop_length in
  spec <- py_index (mat_rows stft_matrix) i ;;
  let spec := hermitian_extension conj spec in
  ytmp <- np_broadcast2 Rmult ifft_window (map real (ifft spec)) ;;
  total <- np_broadcast2 Rplus
             (py_slice y (Some sample) (Some (sample + n_fft))) ytmp ;;
  y <- np_assign_slice y (Some sample) (Some (sample + n_fft)) total ;;
  ifft_window_sum <-
    np_iadd_slice ifft_window_sum (Some sample) (Some (sample + n_fft))
      ifft_window_square ;;
  Ok (y, ifft_window_sum).

(** [istft(stft_matrix, hop_length, window, center)] on a matrix of one
    row for each frame.  The third argument of the call of [pad_center],
    ['__cache__'], is the marker that the cache around [pad_center]
    takes out of the arguments: the call is
    [pad_center(ifft_window, n_fft)].  [np.zeros] refuses a negative
    length. *)
Definition istft (stft_matrix : matrix C) (hop_length : option Z)
    (window : window_spec Spec) (center : bool) : result (list R) :=
  let n_fft := 2 * (Z.of_nat (mat_ncols stft_matrix) - 1) in
  let hop_length :=
    match hop_length with None => n_fft / 4 | Some h => h end in
  ifft_window <- get_window scipy_get_window window n_fft true ;;
  ifft_window <- pad_center ifft_window n_fft ;;
  let n_frames := len (mat_rows stft_matrix) in
  let expected_signal_len := n_fft + hop_length * (n_frames - 1) in
  if expected_signal_len <? 0 then
    Raise (ValueError "negative dimensions are not allowed")
  else
    let y := repeat 0%R (Z.to_nat expected_signal_len) in
    let ifft_window_sum := repeat 0%R (Z.to_nat expected_signal_len) in
    let ifft_window_square := map2 Rmult ifft_window ifft_window in
    buffers <-
      fold_left
        (fun buffers i =>
           b <- buffers ;;
           istft_frame ifft_window ifft_window_square n_fft hop_length
             stft_matrix b i)
        (py_range 0 n_frames) (Ok (y, ifft_window_sum)) ;;
    let y :=
      map2 (fun v s => if Rgt_dec s float32_tiny then (v / s)%R else v)
        (fst buffers) (snd buffers) in
    if center then Ok (py_slice y (Some (n_fft / 2)) (Some (- (n_fft / 2))))
    else Ok y.

End Istft.

(** *** spectra *)

(** The [S] argument by its [dtype]: complex, as [stft] returns it, or
    real. *)
Inductive spectrogram (C : Type) : Type :=
| SComplex (m : matrix C)
| SReal (m : matrix R).

Arguments SComplex {C} m.
Arguments SReal {C} m.

(** [m.T]. *)
Definition np_transpose (m : matrix R) : matrix R :=
  Mat (map (fun j => map (fun r => nth j r 0%R) (mat_rows m))
         (seq 0 (mat_ncols m)))
      (List.length (mat_rows m)).

(** [np.dot(a, b)] on two matrices. *)
Definition np_dot (a b : matrix R) : result (matrix R) :=
  if Nat.eqb (mat_ncols a) (List.length (mat_rows b)) then
    Ok (Mat (map (fun r =>
                    map (fun c => np_sum (map2 Rmult r c))
                      (mat_rows (np_transpose b)))
               (mat_rows a))
          (mat_ncols b))
  else Raise (ValueError "shapes not aligned").

(** [power2db] on a matrix: the entries in row-major order, and the
    result in the shape of the argument. *)
Definition power2db_matrix (m : matrix R) (ref : ref_arg) (amin : R)
    (top_db : option R) : result (matrix R) :=
  flat <- power2db (List.concat (mat_rows m)) ref amin top_db ;;
  Ok (Mat (map (fun i =>
                  firstn (mat_ncols m) (skipn (i * mat_ncols m) flat))
             (seq 0 (List.length (mat_rows m))))
        (mat_ncols m)).

Section Spectra.

Variable Spec : Type.
Variable scipy_get_window : Spec -> Z -> bool -> result (list R).
Variable C : Type.
Variable fft : list R -> list C.
Variable conj : C -> C.
Variable np_pad_reflect : list R -> Z -> result (list R).
Variable uninitialised : nat -> nat -> C.

(** [np.abs] of a complex number. *)
Variable np_abs : C -> R.

(** [spectra(sr, y, S, n_fft, hop_length, window, nb_melfilters, nb_ceps,
    fmin, fmax, top_db, power, log)] for an integer sampling rate and
    integer [fmin], [fmax] and [power].  The local [spec] is bound only
    for a complex [S]; reading it unbound raises [UnboundLocalError],
    carried by [Exception] with the class name in front, as is the
    [TypeError] of [float(None)] in [mel_filters]. *)
Definition spectra (sr : option Z) (y : option (list R))
    (S_ : option (spectrogram C)) (n_fft : Z) (hop_length : option Z)
    (window : window_spec Spec) (nb_melfilters nb_ceps : option Z)
    (fmin : Z) (fmax : option Z) (top_db : option R) (power : Z)
    (log : bool) : result (list (string * matrix R)) :=
  S_ <- match S_ with
        | Some s => Ok s
        | None =>
            match y with
            | Some y =>
                r <- stft scipy_get_window fft conj np_pad_reflect
                       uninitialised y n_fft hop_length window false
                       (Some 0.97%R) EnergyOff ;;
                Ok (SComplex (Mat (fst r) (Z.to_nat (1 + n_fft / 2))))
            | None =>
                fft_window <- get_window scipy_get_window window n_fft true ;;
                Raise (AttributeError "'NoneType' object has no attribute 'ndim'")
            end
        end ;;
  let n_bins :=
    match S_ with SComplex m => mat_ncols m | SReal m => mat_ncols m end in
  let n_fft := 2 * (Z.of_nat n_bins - 1) in
  let fmax :=
    match fmax with
    | Some f => f
    | None => match sr with None => 4000 | Some sr => sr / 2 end
    end in
  if fmin >=? fmax then Raise (ValueError "fmin must < fmax.")
  else
    spec <- match S_ with
            | SComplex m => Ok (mat_map_rows (map np_abs) (mat_ncols m) m)
            | SReal _ =>
                Raise (Exception "UnboundLocalError: local variable 'spec' referenced before assignment")
            end ;;
    let spec :=
      if power >? 1 then
        mat_map_rows (map (fun x => (x ^ Z.to_nat power)%R)) (mat_ncols spec)
          spec
      else spec in
    mel_spec <-
      match nb_melfilters, nb_ceps with
      | None, None => Ok None
      | _, _ =>
          let n_mels := match nb_melfilters with None => 24 | Some n => n end in
          mel_basis <-
            match sr with
            | Some sr =>
                mel_filters (IZR sr) n_fft n_mels (IZR fmin) (Some (IZR fmax))
            | None =>
                if (n_mels <? 0) || (1 + n_fft / 2 <? 0) then
                  Raise (ValueError "negative dimensions are not allowed")
                else
                  Raise (Exception "TypeError: float() argument must be a string or a number, not 'NoneType'")
            end ;;
          mel_spec <- np_dot mel_basis (np_transpose spec) ;;
          mel_spec <- power2db_matrix mel_spec (RefScalar 1%R) 1e-10%R top_db ;;
          Ok (Some mel_spec)
      end ;;
    mfcc <-
      match nb_ceps, mel_spec with
      | Some nb_ceps, Some mel_spec =>
          dct_basis <- dct_filters (nb_ceps + 1)
                         (Z.of_nat (List.length (mat_rows mel_spec))) ;;
          mfcc <- np_dot dct_basis mel_spec ;;
          Ok (Some (Mat (py_slice (mat_rows mfcc) (Some 1) None)
                      (mat_ncols mfcc)))
      | Some _, None =>
          Raise (AttributeError "'NoneType' object has no attribute 'shape'")
      | None, _ => Ok None
      end ;;
    spec_entry <-
      (if log then power2db_matrix spec (RefScalar 1%R) 1e-10%R (Some 80%R)
       else Ok spec) ;;
    mspec_entry <-
      match nb_melfilters, mel_spec with
      | Some _, Some mel_spec => Ok [("mspec"%string, np_transpose mel_spec)]
      | Some _, None =>
          Raise (AttributeError "'NoneType' object has no attribute 'T'")
      | None, _ => Ok []
      end ;;
    mfcc_entry <-
      match nb_ceps, mfcc with
      | Some _, Some mfcc => Ok [("mfcc"%string, np_transpose mfcc)]
      | Some _, None =>
          Raise (AttributeError "'NoneType' object has no attribute 'T'")
      | None, _ => Ok []
      end ;;
    Ok ([("spec"%string, spec_entry)] ++ mspec_entry ++ mfcc_entry).

End Spectra.

End Signal.
(** ** speech.py *)

Module Speech.

Local Open Scope Z_scope.
Local Open Scope py_scope.

(** [pre_emphasis] and [compute_delta] of speech.py repeat the text of
    their namesakes in signal.py. *)
Definition pre_emphasis_vector {T : Type} `{Num T} :=
  @Signal.pre_emphasis_vector T _.
Definition pre_emphasis {T : Type} `{Num T} := @Signal.pre_emphasis T _.
Definition compute_delta {T : Type} `{Num T} := @Signal.compute_delta T _.

(** *** vad_energy *)

(** The fields of a [sidekit.mixture.Mixture] that [vad_energy] sets
    and reads, for one-dimensional features. *)
Record Mixture : Type := {
  cst : list R;
  det : list R;
  mu : list R;
  invcov : list R;
  w : list R;
  cov_var_ctl : list R }.

(** [np.arange(n)] as reals. *)
Definition np_arange (n : nat) : list R := map INR (seq 0 n).

Definition initial_world (distrib_nb : nat) : Mixture :=
  let ones := repeat 1%R distrib_nb in
  {| cst := map (fun x => x / (PI / 2))%R ones;
     det := ones;
     mu := map (fun i => -2 + 4 * i / (INR distrib_nb - 1))%R
             (np_arange distrib_nb);
     invcov := ones;
     w := map (fun x => x / INR distrib_nb)%R ones;
     cov_var_ctl := ones |}.

Section VadEnergy.

(** The three methods of sidekit's [Mixture] that the training loop
    calls: [accum._reset()], [world._expectation(accum, data)], which
    fills [accum], and [world._maximization(accum, ceiling, flooring)],
    which updates [world]. *)
Variable reset : Mixture -> Mixture.
Variable expectation : Mixture -> Mixture -> list R -> Mixture.
Variable maximization : Mixture -> Mixture -> R -> R -> Mixture.

(** [for it in range(nb_train_it)]: the pair [(world, accum)] after the
    loop. *)
Fixpoint em_loop (nb_train_it : nat) (data : list R) (ceiling flooring : R)
    (world accum : Mixture) : Mixture * Mixture :=
  match nb_train_it with
  | O => (world, accum)
  | S it =>
      let accum := reset accum in
      let accum := expectation world accum data in
      let world := maximization world accum ceiling flooring in
      em_loop it data ceiling flooring world accum
  end.

(** [vad_energy(log_energy, distrib_nb, nb_train_it, flooring, ceiling,
    alpha)]. *)
Definition vad_energy (log_energy : list R) (distrib_nb : nat)
    (nb_train_it : Z) (flooring ceiling alpha : R)
  : result (list bool * R) :=
  let log_energy := Signal.normalize log_energy in
  let world := initial_world distrib_nb in
  let accum := world in
  let '(world, _) :=
    em_loop (Z.to_nat nb_train_it) log_energy ceiling flooring world accum in
  threshold <-
    Signal.vad_threshold alpha
      {| Signal.means_ := mu world; Signal.precisions_ := invcov world |} ;;
  let label := map (fun x => Signal.Rgtb x threshold) log_energy in
  Ok (label, threshold).

End VadEnergy.

(** *** timit_phonemes *)

Local Open Scope string_scope.

Definition timit_61 : list string :=
  ["aa"; "ae"; "ah"; "ao"; "aw"; "ax"; "ax-h"; "axr"; "ay";
   "b"; "bcl"; "ch"; "d"; "dcl"; "dh"; "dx"; "eh"; "el"; "em"; "en";
   "eng"; "epi"; "er"; "ey"; "f"; "g"; "gcl"; "h#"; "hh"; "hv"; "ih";
   "ix"; "iy"; "jh"; "k"; "kcl"; "l"; "m"; "n"; "ng"; "nx"; "ow";
   "oy"; "p"; "pau"; "pcl"; "q"; "r"; "s"; "sh"; "t"; "tcl"; "th";
   "uh"; "uw"; "ux"; "v"; "w"; "y"; "z"; "zh"].

Definition timit_39 : list string :=
  ["aa"; "ae"; "ah"; "aw"; "ay"; "b"; "ch"; "d";
   "dh"; "dx"; "eh"; "er"; "ey"; "f"; "g"; "hh"; "ih"; "iy"; "jh"; "k";
   "l"; "m"; "n"; "ng"; "ow"; "oy"; "p"; "r"; "s"; "sh"; "sil"; "t";
   "th"; "uh"; "uw"; "v"; "w"; "y"; "z"].

(** The module-level dictionary [timit_map]. *)
Definition timit_map : list (string * string) :=
  [("ao", "aa"); ("ax", "ah"); ("ax-h", "ah"); ("axr", "er");
   ("hv", "hh"); ("ix", "ih"); ("el", "l"); ("em", "m");
   ("en", "n"); ("nx", "n");
   ("eng", "ng"); ("zh", "sh"); ("ux", "uw");
   ("pcl", "sil"); ("tcl", "sil"); ("kcl", "sil"); ("bcl", "sil");
   ("dcl", "sil"); ("gcl", "sil"); ("h#", "sil"); ("pau", "sil");
   ("epi", "sil")].

Local Close Scope string_scope.

(** [x in l] for a list of strings. *)
Definition str_in (x : string) (l : list string) : bool :=
  existsb (String.eqb x) l.

(** [l.index(x)]: the first position of [x], or [ValueError]. *)
Fixpoint list_index (x : string) (l : list string) : result Z :=
  match l with
  | [] => Raise (ValueError "x is not in list")
  | y :: l' =>
      if String.eqb y x then Ok 0
      else k <- list_index x l' ;; Ok (1 + k)
  end.

(** [d[key]] for a dictionary given by its items; a missing key is not
    looked up by [timit_phonemes], which tests [key in d] first. *)
Fixpoint dict_lookup (key : string) (d : list (string * string))
  : option string :=
  match d with
  | [] => None
  | (k, v) :: d' => if String.eqb k key then Some v else dict_lookup key d'
  end.

(** The [phn] argument: one phoneme, or a list of them. *)
Inductive phn_arg : Type :=
| OnePhoneme (p : string)
| Phonemes (ps : list string).

(** The loop of [timit_phonemes] over the phonemes, for the local
    values of [timit], [timit_map] and [l]. *)
Fixpoint timit_loop (timit : list string) (local_map : list (string * string))
    (l : Z) (blank : bool) (phn : list string) : result (list Z) :=
  match phn with
  | [] => Ok []
  | p :: phn' =>
      match dict_lookup p local_map with
      | Some q =>
          k <- list_index q timit ;;
          rest <- timit_loop timit local_map l blank phn' ;;
          Ok (k :: rest)
      | None =>
          if str_in p timit then
            k <- list_index p timit ;;
            rest <- timit_loop timit local_map l blank phn' ;;
            Ok (k :: rest)
          else
            rest <- timit_loop timit local_map l blank phn' ;;
            Ok (if blank then l :: rest else rest)
      end
  end.

(** [timit_phonemes(phn, map39, blank)].  In the branch [map39] the
    statement [timit_map = timit_map] makes the name local to the
    function, and its right-hand side reads the local name before it is
    bound: Python raises [UnboundLocalError], carried here by
    [Exception] with the class name in front. *)
Definition timit_phonemes (phn : phn_arg) (map39 blank : bool)
  : result (list Z) :=
  let phn := match phn with OnePhoneme p => [p] | Phonemes ps => ps end in
  if map39 then
    Raise (Exception "UnboundLocalError: local variable 'timit_map' referenced before assignment")
  else
    timit_loop timit_61 [] 61 blank phn.

(** *** speech_features *)

(** The values stored under the keys of the returned dictionary. *)
Inductive pyval : Type :=
| PNone
| PMat (m : matrix R)
| PInt8 (v : list Z).

Definition transpose (m : matrix R) : matrix R :=
  Mat (map (fun j => map (fun r => nth j r 0%R) (mat_rows m))
         (seq 0 (mat_ncols m)))
      (List.length (mat_rows m)).

(** The attribute access [x.T]. *)
Definition attr_T (x : pyval) : result pyval :=
  match x with
  | PNone => Raise (AttributeError "'NoneType' object has no attribute 'T'")
  | PMat m => Ok (PMat (transpose m))
  | PInt8 v => Ok (PInt8 v)
  end.

(** The [get_vad] argument: a boolean, or a pair
    [(distribNb, nbTrainIt)]. *)
Inductive vad_request : Type :=
| VadBool (b : bool)
| VadPair (distrib_nb : nat) (nb_train_it : Z).

Definition truthy (v : vad_request) : bool :=
  match v with
  | VadBool b => b
  | VadPair _ _ => true
  end.

(** [int(x)] of a number: truncation towards zero. *)
Definition py_int (x : Q) : Z := Z.quot (Qnum x) (Zpos (Qden x)).

(** [np.concatenate(ms, axis=0)]. *)
Fixpoint np_concatenate_rows (first : matrix R) (others : list (matrix R))
  : result (matrix R) :=
  match others with
  | [] => Ok first
  | m :: others' =>
      if Nat.eqb (mat_ncols m) (mat_ncols first) then
        np_concatenate_rows
          (Mat (mat_rows first ++ mat_rows m) (mat_ncols first)) others'
      else Raise (ValueError "all the input array dimensions except for the concatenation axis must match exactly")
  end.

(** [None] for a stream that was not asked for. *)
Definition keep_if (flag : bool) (x : pyval) : pyval :=
  if flag then x else PNone.

Section SpeechFeatures.

Variable reset : Mixture -> Mixture.
Variable expectation : Mixture -> Mixture -> list R -> Mixture.
Variable maximization : Mixture -> Mixture -> R -> R -> Mixture.

(** The library calls of [speech_features]: [resampy.resample] and, from
    librosa, [util.frame], [stft] with [center=False], [magphase],
    [piptrack], [logamplitude] with [ref_power=1.0, amin=1e-10,
    top_db=80.0], [feature.melspectrogram] and [feature.mfcc].  Complex
    matrices are the values of [CMat]. *)
Variable CMat : Type.
Variable resampy_resample : list R -> Z -> Z -> string -> result (list R).
Variable librosa_util_frame : list R -> Z -> Z -> result (matrix R).
Variable librosa_stft : list R -> Z -> Z -> result CMat.
Variable librosa_magphase : CMat -> matrix R * CMat.
Variable librosa_piptrack :
  Z -> matrix R -> Z -> Z -> Z -> Z -> Q -> result (matrix R * matrix R).
Variable librosa_logamplitude : matrix R -> result (matrix R).
Variable librosa_melspectrogram :
  Z -> matrix R -> Z -> Z -> Z -> Z -> Z -> result (matrix R).
Variable librosa_mfcc : Z -> matrix R -> Z -> result (matrix R).

(** [resample(s, fs_orig, fs_new, axis=0, best_algorithm)]. *)
Definition resample (s : list R) (fs_orig fs_new : Z) (best_algorithm : bool)
  : result (list R) :=
  if negb (fs_orig =? fs_new) then
    resampy_resample s fs_orig fs_new
      (if best_algorithm then "kaiser_best" else "kaiser_fast")%string
  else Ok s.

(** The first lines of [speech_features]: a signal with one long axis is
    flattened, any other matrix is refused. *)
Definition ravel_signal (s : ndarray R) : result (list R) :=
  match s with
  | Arr1 v => Ok v
  | Arr2 m =>
      let '(d, c) := mat_shape m in
      if Nat.eqb (d * c) (Nat.max d c) then Ok (List.concat (mat_rows m))
      else Raise (Exception "Speech Feature Extraction only accept 1-D signal")
  end.

(** [np.log((frames**2).sum(axis=0))[None, :]]: one row, one entry per
    frame (a column of [frames]). *)
Definition frame_log_energy (frames : matrix R) : matrix R :=
  Mat [map (fun col => ln (np_sum (map (fun x => x * x)%R col)))
         (mat_rows (transpose frames))]
      (mat_ncols frames).

(** [np.concatenate([x] + compute_delta(x, order=nb_delta), axis=0)] for
    a stream that is not [None]. *)
Definition with_deltas (nb_delta : Z) (x : pyval) : result pyval :=
  match x with
  | PMat m =>
      deltas <- compute_delta m 9 nb_delta true ;;
      stacked <- np_concatenate_rows m deltas ;;
      Ok (PMat stacked)
  | _ => Ok x
  end.

(** Stage 5 of [speech_features], [if nb_delta and nb_delta > 0]: the
    deltas of every stream that is not [None] are stacked under it. *)
Definition delta_stage (nb_delta : option Z)
    (streams : pyval * pyval * pyval * pyval * pyval)
  : result (pyval * pyval * pyval * pyval * pyval) :=
  let '(pitch_freq, powerspectrogram, melspectrogram, mfcc, log_energy) :=
    streams in
  match nb_delta with
  | Some order =>
      if order >? 0 then
        pitch_freq <- with_deltas order pitch_freq ;;
        powerspectrogram <- with_deltas order powerspectrogram ;;
        melspectrogram <- with_deltas order melspectrogram ;;
        mfcc <- with_deltas order mfcc ;;
        log_energy <- with_deltas order log_energy ;;
        Ok (pitch_freq, powerspectrogram, melspectrogram, mfcc, log_energy)
      else Ok streams
  | None => Ok streams
  end.

(** The [return] statement: the entries of the dictionary are evaluated
    in the order they are written. *)
Definition feature_dictionary
    (powerspectrogram melspectrogram mfcc vad pitch_freq log_energy : pyval)
  : result (list (string * pyval)) :=
  spec_T <- attr_T powerspectrogram ;;
  mspec_T <- attr_T melspectrogram ;;
  mfcc_T <- attr_T mfcc ;;
  pitch_T <- attr_T pitch_freq ;;
  energy_T <- attr_T log_energy ;;
  Ok [("spec", spec_T); ("mspec", mspec_T); ("mfcc", mfcc_T);
      ("vad", vad); ("pitch", pitch_T); ("energy", energy_T)]%string.

Definition speech_features (s : ndarray R) (sr : Z) (win shift : Q)
    (nb_melfilters nb_ceps : Z) (nb_delta : option Z)
    (get_spec get_mspec get_mfcc get_pitch : bool) (get_vad : vad_request)
    (get_energy : bool) (pitch_threshold : Q) (fmin fmax : option Z)
    (sr_new : option Z) (preemphasis : R)
  : result (list (string * pyval)) :=
  s <- ravel_signal s ;;
  (* resample if necessary *)
  '(s, sr) <- match sr_new with
              | Some sr_new =>
                  if negb (sr_new =? sr) then
                    s <- resample s sr sr_new false ;; Ok (s, sr_new)
                  else Ok (s, sr)
              | None => Ok (s, sr)
              end ;;
  let fmax := match fmax with None => sr / 2 | Some f => f end in
  let fmin := match fmin with
              | None => 0
              | Some f => if (f <? 0) || (f >=? fmax) then 0 else f
              end in
  let n_fft := py_int (win * inject_Z sr) in
  let hop_length := py_int (shift * inject_Z sr) in
  (* preemphasis: [s] is one-dimensional here *)
  s <- pre_emphasis_vector s preemphasis ;;
  (* 0: VAD and energy *)
  '(log_energy, vad) <-
     (if get_energy || truthy get_vad then
        frames <- librosa_util_frame s n_fft hop_length ;;
        let log_energy := frame_log_energy frames in
        if truthy get_vad then
          let '(distribNb, nbTrainIt) :=
            match get_vad with
            | VadPair k it => (k, it)
            | VadBool _ => (8%nat, 12)
            end in
          r <- vad_energy reset expectation maximization
                 (List.concat (mat_rows log_energy)) distribNb nbTrainIt
                 0.0001%R 1%R 2%R ;;
          Ok (PMat log_energy, PInt8 (map Z.b2z (fst r)))
        else Ok (PMat log_energy, PNone)
      else Ok (PNone, PNone)) ;;
  let log_energy := keep_if get_energy log_energy in
  let vad := keep_if (truthy get_vad) vad in
  (* 1: STFT and spectrogram *)
  stft <- librosa_stft s n_fft hop_length ;;
  let '(S_, D) := librosa_magphase stft in
  (* 2: pitch *)
  pitch_freq <-
    (if get_pitch then
       r <- librosa_piptrack sr S_ n_fft hop_length fmin fmax pitch_threshold ;;
       Ok (PMat (fst r))
     else Ok PNone) ;;
  (* 3: power spectrogram *)
  let S_ := mat_map_rows (map (fun x => x * x)%R) (mat_ncols S_) S_ in
  powerspectrogram <-
    (if get_spec then m <- librosa_logamplitude S_ ;; Ok (PMat m)
     else Ok PNone) ;;
  (* 4: log-mel filter bank *)
  '(melspectrogram, mfcc) <-
     (if get_mspec || get_mfcc then
        mel <- librosa_melspectrogram sr S_ n_fft hop_length nb_melfilters
                 fmin fmax ;;
        mel <- librosa_logamplitude mel ;;
        if get_mfcc then
          c <- librosa_mfcc sr mel nb_ceps ;; Ok (PMat mel, PMat c)
        else Ok (PMat mel, PNone)
      else Ok (PNone, PNone)) ;;
  let melspectrogram := keep_if get_mspec melspectrogram in
  let mfcc := keep_if get_mfcc mfcc in
  (* 5: delta *)
  '(pitch_freq, powerspectrogram, melspectrogram, mfcc, log_energy) <-
     delta_stage nb_delta
       (pitch_freq, powerspectrogram, melspectrogram, mfcc, log_energy) ;;
  feature_dictionary powerspectrogram melspectrogram mfcc vad pitch_freq
    log_energy.

End SpeechFeatures.

End Speech.

(** ** Reference quantities of the properties *)

(** The value [power2db] computes before clipping. *)
Definition unclipped_db (amin ref x : R) : R :=
  (10 * Signal.log10 (Rmax amin (Rabs x))
   - 10 * Signal.log10 (Rmax amin (Rabs ref)))%R.

(** The number of frames labelled speech, [label.sum()]. *)
Definition count_speech (label : list bool) : nat :=
  List.length (filter (fun b => b) label).

(** Two runs of the detector on one input end alike, the second with at
    least as many speech frames as the first: both return labels, or both
    raise the same exception. *)
Definition speech_not_fewer {T : Type} (r1 r2 : result (list bool * T))
  : Prop :=
  match r1, r2 with
  | Ok (label1, _), Ok (label2, _) =>
      (count_speech label1 <= count_speech label2)%nat
  | Raise e1, Raise e2 => e1 = e2
  | _, _ => False
  end.

(** What [vad_energy] of signal.py returns from a fitted mixture for
    the sensitivity [alpha]: a frame is speech when its energy exceeds
    the threshold. *)
Definition threshold_labels (alpha : R) (world : Signal.mixture)
    (log_energy : list R) : result (list bool * Signal.float_value) :=
  bind (Signal.vad_threshold alpha world)
    (fun threshold =>
       Ok (map (fun x => Signal.Rgtb x threshold) log_energy,
           Signal.Finite threshold)).

(** A fitted mixture has at least one component and as many precisions
    as means. *)
Definition fit_well_formed (fit : nat -> Z -> list R -> Signal.fit_outcome)
  : Prop :=
  forall k it data world,
    fit k it data = Signal.Fitted world ->
    Signal.means_ world <> []
    /\ List.length (Signal.precisions_ world)
       = List.length (Signal.means_ world).

(** The fit fails with numerical errors only: the exceptions that
    [vad_energy] handles. *)
Definition fit_errors_numerical (fit : nat -> Z -> list R -> Signal.fit_outcome)
  : Prop :=
  forall k it data e,
    fit k it data = Signal.FitRaises e -> Signal.caught e = true.

(** A fit that always returns the same two components. *)
Definition two_component_fit : nat -> Z -> list R -> Signal.fit_outcome :=
  fun _ _ _ =>
    Signal.Fitted {| Signal.means_ := [-1; 1]%R;
                     Signal.precisions_ := [1; 1]%R |}.

(** A fit that fails on every call. *)
Definition failing_fit : nat -> Z -> list R -> Signal.fit_outcome :=
  fun _ _ _ => Signal.FitRaises (ValueError "ill-defined empirical covariance").

(** A fit that fails with three components or more and succeeds below. *)
Definition fit_failing_above_two : nat -> Z -> list R -> Signal.fit_outcome :=
  fun k it data =>
    if (3 <=? Z.of_nat k)%Z then Signal.FitRaises IndexError
    else two_component_fit k it data.

(** Sum of the squares of a list of integers. *)
Fixpoint sum_sq_Z (zs : list Z) : Z :=
  match zs with
  | [] => 0
  | z :: zs' => z * z + sum_sq_Z zs'
  end.

(** The input of [compute_delta] continued past both ends by its border
    values: sample [j] of a row, for any integer [j]. *)
Definition edge_value {T : Type} `{Num T} (row : list T) (j : Z) : T :=
  nth (Z.to_nat (Z.max 0 (Z.min (len row - 1) j))) row (num_of_Z 0).

(** The regression estimate centred at frame [i]: the kernel laid over
    the frames [i - h .. i + h], for a kernel of [2 h + 1] entries.  An
    output stream is aligned with its input when its entry [i] is this
    estimate at [i]. *)
Definition centred_delta {T : Type} `{Num T} (window row : list T) (i : Z) : T :=
  np_sum
    (map (fun k => num_mul (nth k window (num_of_Z 0))
                     (edge_value row
                        (i + (len window - 1) / 2 - Z.of_nat k)%Z))
       (seq 0 (List.length window))).

(** Two test signals for the delta features: six equal frames, and the
    squares [0, 1, 4, ..., 28^2]. *)
Definition constant_signal : matrix Q :=
  Mat [[1; 1; 1; 1; 1; 1]%Q] 6.

Definition squares_signal : matrix Q :=
  Mat [map (fun i => inject_Z (Z.of_nat i * Z.of_nat i)) (seq 0 29)] 29.

(** The only row of a one-row matrix. *)
Definition only_row (m : matrix Q) : list Q :=
  match mat_rows m with
  | [row] => row
  | _ => []
  end.

(** The first and the second array of a result of [compute_delta],
    reduced to their only rows, every entry in lowest terms. *)
Definition delta_rows (r : result (list (matrix Q))) : list Q * list Q :=
  match r with
  | Ok [d1; d2] => (map Qred (only_row d1), map Qred (only_row d2))
  | _ => ([], [])
  end.

(** What [pad_sequences] is to write in the row of a sequence [s] for a
    row length [m]: the sequence cut to [m] entries at the side
    [truncating] names, or filled up with [value] at the side [padding]
    names. *)
Definition pad_or_truncate {A : Type} (m : Z) (padding truncating : string)
    (value : A) (s : list A) : list A :=
  if (len s >=? m)%Z then
    if String.eqb truncating "pre"
    then skipn (Z.to_nat (len s - m)) s
    else firstn (Z.to_nat m) s
  else
    if String.eqb padding "pre"
    then repeat value (Z.to_nat (m - len s)) ++ s
    else s ++ repeat value (Z.to_nat (m - len s)).

(** The transformer of [pad_sequences], [None] standing for the
    identity. *)
Definition transformer_of {A : Type} (transformer : option (A -> A)) : A -> A :=
  match transformer with None => fun x => x | Some f => f end.

(** The module state after a series of calls of [set_vad_mode]; a call
    that raises ends the series. *)
Fixpoint set_vad_modes (modes : list Signal.mode_arg)
    (st : Signal.module_state) : result Signal.module_state :=
  match modes with
  | [] => Ok st
  | mode :: modes' => bind (Signal.set_vad_mode mode st) (set_vad_modes modes')
  end.

(** A sensitivity inside the documented range. *)
Definition mode_in_range (v : Signal.float_value) : Prop :=
  match v with
  | Signal.Finite x => (1 <= x <= 2.4)%R
  | Signal.NaN => False
  end.

(** The array [segment_axis] frames under ['pad'] and ['wrap']: the
    signal with [fill] behind it for [endmode='pre'], in front of it for
    [endmode='post']. *)
Definition extended {A : Type} (endmode : Signal.end_mode) (a fill : list A)
  : list A :=
  match endmode with
  | Signal.Pre => a ++ fill
  | Signal.Post => fill ++ a
  end.

(** The number of cells [segment_axis] adds to a signal of [L] samples:
    up to [frame_length] for a short signal, else up to the next length
    [frame_length + j * hop]. *)
Definition missing_samples (L frame_length hop : Z) : Z :=
  if (L <? frame_length)%Z then (frame_length - L)%Z
  else ((frame_length - L) mod hop)%Z.

(** What ['pad'] and ['wrap'] put into the added cells. *)
Definition fill_source {A : Type} (end_ : Signal.end_policy) (endvalue : A)
    (a : list A) (k : Z) : list A :=
  match end_ with
  | Signal.Pad => [endvalue]
  | _ => py_slice a None (Some k)
  end.

(** Sum of a list of integers. *)
Fixpoint sum_Z (zs : list Z) : Z :=
  match zs with
  | [] => 0
  | z :: zs' => z + sum_Z zs'
  end.

(** A row that rises by [b] from frame to frame, starting at [a]. *)
Definition ramp (a b : Q) (t : nat) : list Q :=
  map (fun j => a + b * inject_Z (Z.of_nat j))%Q (seq 0 t).

(** The phoneme an index of [timit_phonemes] stands for; the blank index
    61 stands for none. *)
Definition timit_decode (k : Z) : option string :=
  if (k <? 0)%Z then None else nth_error Speech.timit_61 (Z.to_nat k).

(** The value stored under a key of a dictionary given by its items. *)
Fixpoint dict_get (key : string) (d : list (string * Speech.pyval))
  : option Speech.pyval :=
  match d with
  | [] => None
  | (k, v) :: d' => if String.eqb k key then Some v else dict_get key d'
  end.

(** The signal continued past both ends the way [smooth] continues it:
    mirrored through the end sample, which is itself counted twice. *)
Definition odd_extension (x : list R) (j : Z) : R :=
  let n := len x in
  if (j <? 0)%Z then
    (2 * nth 0 x 0 - nth (Z.to_nat (- j - 1)) x 0)%R
  else if (j <? n)%Z then nth (Z.to_nat j) x 0%R
  else
    (2 * nth (Z.to_nat (n - 1)) x 0
     - nth (Z.to_nat (2 * n - 1 - j)) x 0)%R.

(** Entry [i] of the smoothed signal: the weighted mean, with the
    weights [w] scaled to sum 1, of the continued signal around [i]. *)
Definition smoothed (w x : list R) (i : nat) : R :=
  np_sum
    (map (fun m =>
            (nth m w 0 / np_sum w
             * odd_extension x
                 (Z.of_nat i + (len w - 1) / 2 - Z.of_nat m))%R)
       (seq 0 (List.length w))).

(** The weights [smooth] uses for a window name. *)
Definition smoothing_weights (np_window : string -> Z -> list R)
    (window : string) (win : Z) : list R :=
  if String.eqb window "flat" then repeat 1%R (Z.to_nat win)
  else np_window window win.

(** The inner product of two vectors. *)
Definition dot (u v : list R) : R := np_sum (map2 Rmult u v).

(** The angle of sample [k] in row [m] of a cosine basis of [n]
    columns: [(2 k + 1) m pi / (2 n)]. *)
Definition dct_angle (n m k : nat) : R :=
  (INR (2 * k + 1) * (INR m * PI / (2 * INR n)))%R.

(** Row [m >= 1] of the cosine basis of [n] columns. *)
Definition cosine_row (n m : nat) : list R :=
  map (fun k => (cos (dct_angle n m k) * sqrt (2 / INR n))%R) (seq 0 n).

(** Edge [i] of the mel bands: [n_mels + 2] frequencies, evenly spaced
    on the mel scale from [fmin] to [fmax]. *)
Definition mel_edge (fmin fmax : R) (n_mels : Z) (i : nat) : R :=
  Signal.mel2hz_entry
    (Signal.hz2mel_entry fmin
     + INR i * ((Signal.hz2mel_entry fmax - Signal.hz2mel_entry fmin)
                / IZR (n_mels + 1)))%R.

(** The frequency of FFT bin [j]. *)
Definition fft_frequency (sr : R) (n_fft : Z) (j : nat) : R :=
  (INR j * (sr / 2 / IZR (n_fft / 2)))%R.

(** The triangle over the band from [lo] to [hi] with its top at [mid],
    scaled to the area 1. *)
Definition triangle (lo mid hi f : R) : R :=
  (Rmax 0 (Rmin ((f - lo) / (mid - lo)) ((hi - f) / (hi - mid)))
   * (2 / (hi - lo)))%R.

(** The upper frequency bound [mel_filters] works with. *)
Definition resolved_fmax (sr : R) (fmax : option R) : R :=
  match fmax with None => (sr / 2)%R | Some f => f end.

(** The spectrum [stft] stores for one frame: the conjugate of the
    first [1 + n_fft // 2] entries of the transform of the windowed
    frame. *)
Definition frame_spectrum {C : Type} (fft : list R -> list C)
    (conj : C -> C) (fft_window : list R) (n_fft : Z) (frame : list R)
  : list C :=
  map conj
    (firstn (Z.to_nat (1 + n_fft / 2)%Z) (fft (map2 Rmult fft_window frame))).

(** The signal [stft] cuts into frames: pre-emphasised for a
    coefficient strictly between 0 and 1, then padded when [center] is
    set. *)
Definition stft_signal (np_pad_reflect : list R -> Z -> result (list R))
    (y : list R) (n_fft : Z) (center : bool) (preemphasis : option R)
  : result (list R) :=
  bind
    (match preemphasis with
     | Some coeff =>
         if Rlt_dec 0 coeff then
           if Rlt_dec coeff 1 then Signal.pre_emphasis_vector y coeff
           else Ok y
         else Ok y
     | None => Ok y
     end)
    (fun y' => if center then np_pad_reflect y' (n_fft / 2)%Z else Ok y').

(** The frame energies [stft] returns next to the spectra. *)
Definition stft_energy (energy : Signal.energy_arg) (frames : list (list R))
  : option (list R) :=
  match energy with
  | Signal.EnergyOff => None
  | Signal.EnergyOn => Some (map Signal.frame_energy frames)
  | Signal.EnergyLog =>
      Some (map (fun frame => ln (Signal.frame_energy frame)) frames)
  end.

(** The hop [stft] uses when none is given. *)
Definition stft_hop (n_fft : Z) (hop_length : option Z) : Z :=
  match hop_length with None => (n_fft / 4)%Z | Some h => h end.

(** The upper frequency bound [spectra] works with. *)
Definition spectra_fmax (sr fmax : option Z) : Z :=
  match fmax with
  | Some f => f
  | None => match sr with None => 4000%Z | Some sr => (sr / 2)%Z end
  end.

(** The keys of the dictionary [spectra] returns. *)
Definition spectra_keys (nb_melfilters nb_ceps : option Z) : list string :=
  ("spec" :: match nb_melfilters with Some _ => ["mspec"] | None => [] end
   ++ match nb_ceps with Some _ => ["mfcc"] | None => [] end)%string.

(** Whether a callable [ref] raises on the magnitudes of [S]. *)
Definition ref_raises (ref : Signal.ref_arg) (S_ : list R) : bool :=
  match ref with
  | Signal.RefScalar _ => false
  | Signal.RefCallable f => negb (is_ok (f (map Rabs S_)))
  end.

(** The squared weight that the window of frame [i] puts on sample [t];
    0 where the frame does not cover the sample. *)
Definition window_term (w : list R) (hop : Z) (t i : nat) : R :=
  let k := (Z.of_nat t - Z.of_nat i * hop)%Z in
  if ((0 <=? k) && (k <? len w))%Z
  then (nth (Z.to_nat k) w 0 * nth (Z.to_nat k) w 0)%R
  else 0%R.

(** The squared window weights on sample [t], summed over the first
    [n_frames] frames. *)
Definition window_energy (w : list R) (hop : Z) (n_frames t : nat) : R :=
  np_sum (map (window_term w hop t) (seq 0 n_frames)).

(** The periodic Hann window of [n] weights, which scipy returns for
    ['hann'] with [fftbins=True]. *)
Definition hann (n : nat) : list R :=
  map (fun k => (1 / 2 - 1 / 2 * cos (2 * PI * INR k / INR n))%R) (seq 0 n).

(** The discrete Fourier transform of four real samples and its
    inverse, on complex numbers as pairs, for an example. *)
Definition pair_conj (c : R * R) : R * R := (fst c, (- snd c)%R).

Definition dft4 (v : list R) : list (R * R) :=
  match v with
  | [a; b; c; d] =>
      [(a + b + c + d, 0); (a - c, d - b); (a - b + c - d, 0);
       (a - c, b - d)]%R
  | _ => []
  end.

Definition idft4 (s : list (R * R)) : list (R * R) :=
  match s with
  | [(p1, p2); (q1, q2); (r1, r2); (s1, s2)] =>
      [((p1 + q1 + r1 + s1) / 4, (p2 + q2 + r2 + s2) / 4);
       ((p1 - q2 - r1 + s2) / 4, (p2 + q1 - r2 - s1) / 4);
       ((p1 - q1 + r1 - s1) / 4, (p2 - q2 + r2 - s2) / 4);
       ((p1 + q2 - r1 - s2) / 4, (p2 - q1 - r2 + s1) / 4)]%R
  | _ => []
  end.

(** * Properties *)

(** ** Results of calls *)

Lemma bind_ok_inv {B C : Type} (r : result B) (k : B -> result C) (c : C) :
  bind r k = Ok c -> exists b, r = Ok b /\ k b = Ok c.
Proof.
  destruct r as [b | e]; cbn [bind]; intros H; [| discriminate].
  exists b. split; [reflexivity | exact H].
Qed.

Lemma ok_injective {A : Type} (x y : A) : Ok x = Ok y -> x = y.
Proof.
  intros H. congruence.
Qed.

Local Open Scope Z_scope.

(** ** Slices and frames *)

Lemma len_nonneg {A : Type} (a : list A) : 0 <= len a.
Proof. unfold len. lia. Qed.

Lemma py_slice_prefix {A : Type} (a : list A) (k : Z) :
  0 <= k <= len a -> py_slice a None (Some k) = firstn (Z.to_nat k) a.
Proof.
  intros Hk. unfold py_slice, slice_bound.
  destruct (Z.ltb_spec k 0) as [Hneg | _]; [lia |].
  rewrite Z.min_r by lia. rewrite Z.sub_0_r. reflexivity.
Qed.

Lemma len_firstn {A : Type} (a : list A) (k : Z) :
  0 <= k <= len a -> len (firstn (Z.to_nat k) a) = k.
Proof.
  intros Hk. unfold len in *. rewrite length_firstn. lia.
Qed.

Lemma strided_frames_count {A : Type} (a : list A) (n fl hop : Z) :
  0 <= n -> len (Signal.strided_frames a n fl hop) = n.
Proof.
  intros Hn. unfold Signal.strided_frames, len.
  rewrite length_map, length_seq. lia.
Qed.

Lemma strided_frames_in_bounds {A : Type} (a : list A) (n fl hop : Z) :
  0 <= fl -> 0 <= hop -> (n - 1) * hop + fl <= len a ->
  Forall (fun f => len f = fl) (Signal.strided_frames a n fl hop).
Proof.
  intros Hfl Hhop Hfit. unfold Signal.strided_frames.
  apply Forall_forall. intros f Hin.
  apply in_map_iff in Hin. destruct Hin as [i [Hf Hi]].
  apply in_seq in Hi. subst f. unfold len in *.
  rewrite length_firstn, length_skipn.
  assert (Z.of_nat i * hop <= (n - 1) * hop) by nia.
  lia.
Qed.

(** The frame at row [i] starts at sample [i * hop]. *)
Lemma strided_frames_nth {A : Type} (a : list A) (n fl hop : Z) (i : nat) :
  (Z.of_nat i < n) ->
  nth i (Signal.strided_frames a n fl hop) []
  = firstn (Z.to_nat fl) (skipn (Z.to_nat (Z.of_nat i * hop)) a).
Proof.
  intros Hi. unfold Signal.strided_frames.
  rewrite nth_indep with (d' := firstn (Z.to_nat fl) (skipn (Z.to_nat (Z.of_nat 0 * hop)) a))
    by (rewrite length_map, length_seq; lia).
  rewrite (map_nth (fun i0 : nat =>
             firstn (Z.to_nat fl) (skipn (Z.to_nat (Z.of_nat i0 * hop)) a))).
  rewrite seq_nth by lia. reflexivity.
Qed.

(** The head of [segment_axis]: with [0 < hop_length <= frame_length]
    neither parameter check fires. *)
Lemma parameter_checks_pass (fl hop : Z) :
  0 < hop <= fl ->
  (fl - hop >=? fl) = false /\ ((fl - hop <? 0) || (fl <=? 0)) = false.
Proof.
  intros H. split.
  - destruct (Z.geb_spec (fl - hop) fl); [lia | reflexivity].
  - apply orb_false_iff. split.
    + apply Z.ltb_ge. lia.
    + apply Z.leb_gt. lia.
Qed.

(** C1. Under ['cut'], a signal of length [L >= frame_length] is cut into
    [1 + floor((L - frame_length) / hop_length)] frames of [frame_length]
    samples each, frame [i] starting at sample [i * hop_length]; the
    parameters are those the function accepts,
    [0 < hop_length <= frame_length]. *)
Theorem segment_axis_cut_frame_count :
  forall (A : Type) (a : list A) (frame_length hop_length : Z)
         (endvalue : A) (endmode : Signal.end_mode),
    0 < hop_length <= frame_length ->
    frame_length <= len a ->
    exists frames,
      Signal.segment_axis a frame_length hop_length Signal.Cut endvalue endmode
      = Ok frames
      /\ len frames = 1 + (len a - frame_length) / hop_length
      /\ Forall (fun f => len f = frame_length) frames
      /\ forall i, (Z.of_nat i < len frames) ->
           nth i frames []
           = firstn (Z.to_nat frame_length)
               (skipn (Z.to_nat (Z.of_nat i * hop_length)) a).
Proof.
  intros A a fl hop endvalue endmode Hhop Hlen.
  unfold Signal.segment_axis.
  destruct (parameter_checks_pass Hhop) as [Hc1 Hc2].
  rewrite Hc1, Hc2.
  replace (fl - (fl - hop)) with hop by lia.
  set (L := len a) in *.
  assert (Hq : 0 <= (L - fl) / hop) by (apply Z.div_pos; lia).
  assert (Hdm : L - fl = hop * ((L - fl) / hop) + (L - fl) mod hop)
    by (apply Z.div_mod; lia).
  assert (Hm : 0 <= (L - fl) mod hop < hop) by (apply Z.mod_pos_bound; lia).
  destruct (Z.ltb_spec L fl) as [Hlt | _]; [lia |].
  destruct (Z.eqb_spec ((L - fl) mod hop) 0) as [Hz | Hnz]; cbn [negb orb].
  - (* the length fits: no rounding *)
    cbn [bind]. fold L.
    destruct (Z.eqb_spec L 0) as [H0 | _]; [lia |].
    destruct (Z.geb_spec L fl) as [_ | Hbad]; [| lia].
    rewrite Hz. cbn [Z.eqb].
    eexists. split; [reflexivity |].
    rewrite strided_frames_count by lia.
    split; [reflexivity |]. split.
    + apply strided_frames_in_bounds; fold L; nia.
    + intros i Hi. apply strided_frames_nth. exact Hi.
  - (* trailing samples are dropped *)
    unfold Signal.round_lengths.
    replace (fl - (fl - hop)) with hop by lia.
    destruct (Z.gtb_spec L fl) as [Hgt | Hle].
    2:{ assert (L = fl) by lia. subst L. rewrite H in Hnz.
        rewrite Z.sub_diag, Z.mod_0_l in Hnz by lia. contradiction. }
    set (q := (L - fl) / hop) in *.
    assert (Hrd : fl + q * hop < L) by nia.
    assert (Hru : L < fl + (1 + q) * hop) by nia.
    destruct (Z.ltb_spec (fl + q * hop) L) as [_ | Hbad]; [| lia].
    destruct (Z.ltb_spec L (fl + (1 + q) * hop)) as [_ | Hbad]; [| lia].
    cbn [andb].
    destruct (Z.eqb_spec (fl + (1 + q) * hop) (fl + q * hop + hop))
      as [_ | Hbad]; [| lia].
    cbn [orb bind].
    rewrite py_slice_prefix by (fold L; nia).
    rewrite len_firstn by (fold L; nia).
    destruct (Z.eqb_spec (fl + q * hop) 0) as [H0 | _]; [nia |].
    destruct (Z.geb_spec (fl + q * hop) fl) as [_ | Hbad]; [| nia].
    replace (fl + q * hop - fl) with (q * hop) by lia.
    rewrite Z.mod_mul by lia. cbn [Z.eqb].
    rewrite Z.div_mul by lia.
    eexists. split; [reflexivity |].
    rewrite strided_frames_count by lia.
    split; [reflexivity |]. split.
    + apply strided_frames_in_bounds; try lia.
      rewrite len_firstn by (fold L; nia). nia.
    + intros i Hi. rewrite strided_frames_nth by exact Hi.
      (* the frame lies inside the kept prefix *)
      rewrite skipn_firstn_comm, firstn_firstn.
      f_equal. nia.
Qed.

(** The instance of the specification: 2000 samples, frames of 400 every
    160, give 11 frames. *)
Lemma segment_axis_cut_frame_count_witness :
  exists frames,
    Signal.segment_axis (repeat 0 2000) 400 160 Signal.Cut 0 Signal.Post
    = Ok frames
    /\ len frames = 11
    /\ Forall (fun f => len f = 400) frames.
Proof.
  destruct (@segment_axis_cut_frame_count Z (repeat 0 2000) 400 160 0 Signal.Post)
    as [frames [Hrun [Hcount [Hsize _]]]].
  - lia.
  - unfold len. rewrite repeat_length. lia.
  - exists frames. split; [exact Hrun |]. split; [| exact Hsize].
    rewrite Hcount. unfold len. rewrite repeat_length. reflexivity.
Defined.

(** ** The parameter checks of [segment_axis] *)

Lemma bind_raise_inv {A B : Type} (r : result A) (k : A -> result B) (e : exn) :
  bind r k = Raise e ->
  r = Raise e \/ exists a, r = Ok a /\ k a = Raise e.
Proof.
  destruct r as [a | e']; cbn; intros H.
  - right. exists a. split; [reflexivity | exact H].
  - left. injection H as ->. reflexivity.
Qed.

Lemma np_broadcast_to_error {A : Type} (k : nat) (src : list A) (e : exn) :
  np_broadcast_to k src = Raise e ->
  e = ValueError "could not broadcast input array".
Proof.
  unfold np_broadcast_to.
  destruct (Nat.eqb (List.length src) k); [discriminate |].
  destruct src as [| x [| y src]]; intros H; try discriminate;
    injection H as <-; reflexivity.
Qed.

(** C4 (amended). [segment_axis] accepts exactly [frame_length > 0] and
    [0 < hop_length <= frame_length]: outside these bounds the call
    raises one of the two parameter errors, whatever the array and the
    edge policy are; inside them no parameter error is raised. *)
Theorem segment_axis_parameter_validation :
  forall (A : Type) (a : list A) (frame_length hop_length : Z)
         (end_ : Signal.end_policy) (endvalue : A) (endmode : Signal.end_mode),
    (0 < frame_length /\ 0 < hop_length <= frame_length ->
     forall e,
       Signal.segment_axis a frame_length hop_length end_ endvalue endmode
       = Raise e ->
       Signal.is_parameter_error e = false)
    /\ (frame_length <= 0 \/ hop_length <= 0 \/ frame_length < hop_length ->
        exists e,
          Signal.segment_axis a frame_length hop_length end_ endvalue endmode
          = Raise e
          /\ Signal.is_parameter_error e = true).
Proof.
  intros A a fl hop end_ endvalue endmode. split.
  - intros [Hfl Hhop] e. unfold Signal.segment_axis.
    destruct (parameter_checks_pass Hhop) as [Hc1 Hc2].
    rewrite Hc1, Hc2.
    intros Hrun. apply bind_raise_inv in Hrun.
    destruct Hrun as [Hround | [a' [_ Hframe]]].
    + (* the rounding step *)
      destruct (_ || _) in Hround; [| discriminate].
      destruct (Signal.round_lengths _ _ _) as [roundup rounddown].
      destruct (_ && _) in Hround; [| injection Hround as <-; reflexivity].
      destruct (_ || _) in Hround; [| injection Hround as <-; reflexivity].
      destruct end_; try discriminate;
        apply bind_raise_inv in Hround;
        (destruct Hround as [Hb | [fill [_ Hmode]]];
         [ apply np_broadcast_to_error in Hb; subst e; reflexivity
         | destruct endmode; discriminate ]).
    + (* the framing step *)
      destruct (_ =? 0) in Hframe; [injection Hframe as <-; reflexivity |].
      destruct (_ >=? _) in Hframe; [| injection Hframe as <-; reflexivity].
      destruct (_ =? 0) in Hframe; [discriminate |].
      injection Hframe as <-. reflexivity.
  - intros Hbad. unfold Signal.segment_axis.
    destruct (Z.geb_spec (fl - hop) fl) as [Hge | Hlt].
    + eexists. split; reflexivity.
    + assert (Hc : ((fl - hop <? 0) || (fl <=? 0)) = true).
      { apply orb_true_iff.
        destruct (Z.ltb_spec (fl - hop) 0); [left; reflexivity |].
        right. apply Z.leb_le. lia. }
      rewrite Hc. eexists. split; reflexivity.
Qed.

Lemma segment_axis_parameter_validation_witness :
  (forall e,
     Signal.segment_axis [1; 2; 3; 4; 5] 4 4 Signal.Cut 0 Signal.Post = Raise e ->
     Signal.is_parameter_error e = false)
  /\ (exists e,
        Signal.segment_axis [1; 2; 3; 4; 5] 4 0 Signal.Cut 0 Signal.Post = Raise e
        /\ Signal.is_parameter_error e = true).
Proof.
  split.
  - apply (proj1 (@segment_axis_parameter_validation Z [1; 2; 3; 4; 5] 4 4
                    Signal.Cut 0 Signal.Post)).
    lia.
  - apply (proj2 (@segment_axis_parameter_validation Z [1; 2; 3; 4; 5] 4 0
                    Signal.Cut 0 Signal.Post)).
    lia.
Defined.

(** C4 as first stated fails on both sides of its bounds:
    [hop_length = 0] lies inside [0 <= hop_length < frame_length] and is
    refused, [hop_length = frame_length] lies outside and is framed. *)
Lemma segment_axis_claimed_bounds_counterexample :
  (0 < 4 /\ 0 <= 0 < 4
   /\ Signal.segment_axis [1; 2; 3; 4] 4 0 Signal.Cut 0 Signal.Post
      = Raise (ValueError "frames cannot overlap by more than 100%"))
  /\ (4 >= 4
      /\ Signal.segment_axis [1; 2; 3; 4; 5; 6; 7; 8] 4 4 Signal.Cut 0 Signal.Post
         = Ok [[1; 2; 3; 4]; [5; 6; 7; 8]]).
Proof.
  split.
  - split; [lia |]. split; [lia | reflexivity].
  - split; [lia | reflexivity].
Qed.

(** ** Pre-emphasis *)

Lemma map2_length {A B C : Type} (f : A -> B -> C) (u : list A) (v : list B) :
  List.length (map2 f u v) = Nat.min (List.length u) (List.length v).
Proof.
  revert v. induction u as [| x u IH]; intros [| y v]; cbn; auto.
Qed.

Lemma map2_nth {A B C : Type} (f : A -> B -> C) (u : list A) (v : list B)
    (i : nat) (da : A) (db : B) (dc : C) :
  (i < List.length u)%nat -> (i < List.length v)%nat ->
  nth i (map2 f u v) dc = f (nth i u da) (nth i v db).
Proof.
  revert v i. induction u as [| x u IH]; intros [| y v] [| i]; cbn;
    intros Hu Hv; try lia; [reflexivity |].
  apply IH; lia.
Qed.

Lemma py_slice_tail {A : Type} (x : A) (a : list A) :
  py_slice (x :: a) (Some 1) None = a.
Proof.
  unfold py_slice, slice_bound, len. cbn [Z.ltb Z.compare List.length].
  rewrite Z.min_r by lia.
  replace (Z.to_nat 1) with 1%nat by reflexivity. cbn [skipn].
  apply firstn_all2. lia.
Qed.

Lemma py_slice_init {A : Type} (a : list A) :
  py_slice a None (Some (-1)) = firstn (List.length a - 1) a.
Proof.
  unfold py_slice, slice_bound, len. cbn [Z.ltb Z.compare skipn Z.to_nat].
  f_equal. lia.
Qed.

(** C10. On a one-dimensional signal of [n >= 1] samples [pre_emphasis]
    returns [n] samples, the first one unchanged and sample [t >= 1]
    equal to [s[t] - coeff * s[t-1]], in whatever arithmetic the samples
    live. *)
Theorem pre_emphasis_vector_spec :
  forall (T : Type) (N : Num T) (s : list T) (coeff d : T),
    1 <= len s ->
    exists out,
      Signal.pre_emphasis (Arr1 s) coeff = Ok (Arr1 out)
      /\ len out = len s
      /\ nth 0 out d = nth 0 s d
      /\ forall t, (1 <= t)%nat -> Z.of_nat t < len s ->
           nth t out d
           = num_sub (nth t s d) (num_mul coeff (nth (t - 1) s d)).
Proof.
  intros T N s coeff d Hlen.
  destruct s as [| s0 rest]; [cbn in Hlen; lia |].
  unfold Signal.pre_emphasis, Signal.pre_emphasis_vector.
  rewrite py_slice_tail, py_slice_init.
  set (init := firstn (List.length (s0 :: rest) - 1) (s0 :: rest)).
  assert (Hcut : List.length init = List.length rest).
  { unfold init. rewrite length_firstn. cbn [List.length]. lia. }
  assert (Hinit : forall t, (t < List.length rest)%nat ->
                    nth t init d = nth t (s0 :: rest) d).
  { intros t Ht. unfold init. rewrite nth_firstn.
    destruct (Nat.ltb_spec t (List.length (s0 :: rest) - 1)) as [_ | Hbad];
      [reflexivity | cbn [List.length] in Hbad; lia]. }
  clearbody init.
  eexists. split; [reflexivity |].
  split; [| split].
  - unfold len. cbn [List.length].
    rewrite map2_length, length_map, Hcut. lia.
  - reflexivity.
  - intros t Ht1 Htn. unfold len in Htn. cbn [List.length] in Htn.
    destruct t as [| t]; [lia |]. cbn [nth].
    rewrite (map2_nth _ _ _ d (num_mul coeff d))
      by (rewrite ?length_map, ?Hcut; lia).
    f_equal.
    rewrite (map_nth (num_mul coeff)).
    f_equal.
    replace (S t - 1)%nat with t by lia.
    apply Hinit. lia.
Qed.

Lemma pre_emphasis_vector_spec_witness :
  exists out,
    Signal.pre_emphasis (Arr1 [4; 6; 5]%Q) (1 # 2)%Q = Ok (Arr1 out)
    /\ len out = 3
    /\ nth 0 out 0%Q = 4%Q
    /\ nth 1 out 0%Q = (6 - (1 # 2) * 4)%Q
    /\ nth 2 out 0%Q = (5 - (1 # 2) * 6)%Q.
Proof.
  destruct (@pre_emphasis_vector_spec Q Num_Q [4; 6; 5]%Q (1 # 2)%Q 0%Q)
    as [out [Hrun [Hlen [H0 Ht]]]].
  - unfold len. cbn. lia.
  - exists out. split; [exact Hrun |]. split; [exact Hlen |].
    split; [exact H0 |]. split.
    + apply (Ht 1%nat); [lia | unfold len; cbn; lia].
    + apply (Ht 2%nat); [lia | unfold len; cbn; lia].
Defined.

(** ** Decibel scaling *)

Section PowerToDb.

Local Open Scope R_scope.

Lemma fold_left_Rmax_clip (c : R) (v : list R) (x : R) :
  fold_left Rmax (map (fun u => Rmax u c) v) (Rmax x c)
  = Rmax (fold_left Rmax v x) c.
Proof.
  revert x. induction v as [| y v IH]; intros x; cbn; [reflexivity |].
  rewrite <- IH. f_equal.
  unfold Rmax. repeat destruct (Rle_dec _ _); lra.
Qed.

Lemma fold_left_Rmax_ge_init (v : list R) (x : R) :
  x <= fold_left Rmax v x.
Proof.
  revert x. induction v as [| y v IH]; intros x; cbn; [lra |].
  apply Rle_trans with (Rmax x y); [apply Rmax_l | apply IH].
Qed.

Lemma fold_left_Rmax_upper (v : list R) (x y : R) :
  In y (x :: v) -> y <= fold_left Rmax v x.
Proof.
  revert x. induction v as [| z v IH]; intros x Hin.
  - destruct Hin as [Heq | []]. subst y. cbn. lra.
  - cbn [fold_left]. destruct Hin as [Heq | [Heq | Hin]].
    + subst y. apply Rle_trans with (Rmax x z); [apply Rmax_l |].
      apply fold_left_Rmax_ge_init.
    + subst y. apply Rle_trans with (Rmax x z); [apply Rmax_r |].
      apply fold_left_Rmax_ge_init.
    + apply IH. right. exact Hin.
Qed.

Lemma fold_left_Rmin_lower (c : R) (v : list R) (x : R) :
  (forall y, In y (x :: v) -> c <= y) -> c <= fold_left Rmin v x.
Proof.
  revert x. induction v as [| z v IH]; intros x Hall; cbn.
  - apply Hall. left. reflexivity.
  - apply IH. intros y [<- | Hin].
    + apply Rmin_glb; apply Hall; [left | right; left]; reflexivity.
    + apply Hall. right. right. exact Hin.
Qed.

(** C7. For a non-empty [S], a scalar [ref], [amin > 0] and
    [top_db >= 0], [power2db] returns
    [10*log10(max(amin,|S|)) - 10*log10(max(amin,|ref|))] clipped below
    at [peak - top_db], where [peak] is the largest unclipped value; the
    largest output is [peak] and the outputs span at most [top_db]. *)
Theorem power2db_clipped_range :
  forall (S_ : list R) (ref amin top_db : R),
    S_ <> [] -> 0 < amin -> 0 <= top_db ->
    exists peak out lowest,
      Signal.np_max (map (unclipped_db amin ref) S_) = Ok peak
      /\ Signal.power2db S_ (Signal.RefScalar ref) amin (Some top_db) = Ok out
      /\ out = map (fun x => Rmax (unclipped_db amin ref x) (peak - top_db)) S_
      /\ Signal.np_max out = Ok peak
      /\ Signal.np_min out = Ok lowest
      /\ peak - lowest <= top_db.
Proof.
  intros S_ ref amin top_db Hne Hamin Htop.
  destruct S_ as [| x0 rest]; [contradiction |].
  unfold Signal.power2db.
  destruct (Rle_dec amin 0) as [Hbad | _]; [lra |].
  cbn [bind].
  destruct (Rlt_dec top_db 0) as [Hbad | _]; [lra |].
  rewrite !map_map.
  change (fun x => 10 * Signal.log10 (Rmax amin (Rabs x))
                   - 10 * Signal.log10 (Rmax amin (Rabs ref)))
    with (unclipped_db amin ref).
  cbn [map Signal.np_max bind].
  set (u0 := unclipped_db amin ref x0).
  set (us := map (unclipped_db amin ref) rest).
  set (peak := fold_left Rmax us u0).
  set (floor := peak - top_db).
  assert (Hclip : Rmax peak floor = peak)
    by (apply Rmax_left; unfold floor; lra).
  assert (Hout : map (fun x => Rmax (unclipped_db amin ref x) floor) rest
                 = map (fun u => Rmax u floor) us)
    by (unfold us; rewrite map_map; reflexivity).
  exists peak, (Rmax u0 floor :: map (fun u => Rmax u floor) us).
  eexists.
  split; [reflexivity |]. split; [reflexivity |].
  split; [cbn [map]; fold u0 floor; rewrite Hout; reflexivity |].
  cbn [Signal.np_max Signal.np_min].
  split; [| split; [reflexivity |]].
  - f_equal. rewrite fold_left_Rmax_clip. exact Hclip.
  - assert (Hlow : floor <= fold_left Rmin (map (fun u => Rmax u floor) us)
                              (Rmax u0 floor)).
    { apply fold_left_Rmin_lower. intros y [<- | Hin].
      - apply Rmax_r.
      - apply in_map_iff in Hin. destruct Hin as [u [<- _]]. apply Rmax_r. }
    unfold floor in Hlow at 1. lra.
Qed.

End PowerToDb.

Lemma power2db_clipped_range_witness :
  exists peak out lowest,
    Signal.power2db [1; 100]%R (Signal.RefScalar 1%R) 1%R (Some 80%R) = Ok out
    /\ Signal.np_max out = Ok peak
    /\ Signal.np_min out = Ok lowest
    /\ (peak - lowest <= 80)%R.
Proof.
  destruct (@power2db_clipped_range [1; 100]%R 1%R 1%R 80%R)
    as [peak [out [lowest [_ [Hrun [_ [Hmax [Hmin Hrange]]]]]]]].
  - discriminate.
  - lra.
  - lra.
  - exists peak, out, lowest. repeat split; assumption.
Defined.

(** ** Voice-activity detection *)

Section Vad.

Local Open Scope R_scope.

Lemma normalize_length (v : list R) :
  List.length (Signal.normalize v) = List.length v.
Proof. unfold Signal.normalize. apply length_map. Qed.

Lemma argmax_from_bound (v : list R) (best : R) (besti i : nat) :
  (besti < i)%nat ->
  (Signal.argmax_from best besti i v < i + List.length v)%nat.
Proof.
  revert best besti i. induction v as [| x v IH]; intros best besti i Hi; cbn.
  - lia.
  - destruct (Rgt_dec x best).
    + specialize (IH x i (S i)). lia.
    + specialize (IH best besti (S i)). lia.
Qed.

Lemma py_index_in_range {A : Type} (a : list A) (k : nat) :
  (k < List.length a)%nat -> exists x, py_index a (Z.of_nat k) = Ok x.
Proof.
  intros Hk. unfold py_index, len.
  destruct (Z.ltb_spec (Z.of_nat k) 0) as [Hneg | _]; [lia |].
  destruct (Z.ltb_spec (Z.of_nat k) 0) as [Hneg | _]; [lia |].
  destruct (Z.leb_spec (Z.of_nat (List.length a)) (Z.of_nat k)) as [Hbad | _];
    [lia |].
  cbn [orb]. rewrite Nat2Z.id.
  destruct (nth_error a k) as [x |] eqn:Hnth.
  - exists x. reflexivity.
  - apply nth_error_None in Hnth. lia.
Qed.

(** The threshold exists for a well-formed mixture and lies
    [alpha * sqrt(1/precision)] below the largest mean. *)
Lemma vad_threshold_defined (world : Signal.mixture) :
  Signal.means_ world <> [] ->
  List.length (Signal.precisions_ world) = List.length (Signal.means_ world) ->
  exists top p,
    forall alpha,
      Signal.vad_threshold alpha world = Ok (top - alpha * sqrt (1 / p)).
Proof.
  intros Hne Hlen. unfold Signal.vad_threshold.
  destruct (Signal.means_ world) as [| m ms] eqn:Hm; [contradiction |].
  cbn [Signal.np_max Signal.np_argmax bind].
  destruct (@py_index_in_range R (Signal.precisions_ world)
              (Signal.argmax_from m 0 1 ms)) as [p Hp].
  { rewrite Hlen. cbn [List.length].
    pose proof (@argmax_from_bound ms m 0%nat 1%nat). lia. }
  exists (fold_left Rmax ms m), p. intros alpha. rewrite Hp. reflexivity.
Qed.

(** The threshold either raises for every [alpha], or falls as [alpha]
    grows. *)
Lemma vad_threshold_antitone (world : Signal.mixture) (alpha1 alpha2 : R) :
  alpha1 <= alpha2 ->
  match Signal.vad_threshold alpha1 world, Signal.vad_threshold alpha2 world with
  | Ok t1, Ok t2 => t2 <= t1
  | Raise e1, Raise e2 => e1 = e2
  | _, _ => False
  end.
Proof.
  intros Hle. unfold Signal.vad_threshold.
  destruct (Signal.np_max (Signal.means_ world)) as [top | e]; cbn [bind];
    [| reflexivity].
  destruct (Signal.np_argmax (Signal.means_ world)) as [k | e]; cbn [bind];
    [| reflexivity].
  destruct (py_index (Signal.precisions_ world) (Z.of_nat k)) as [p | e];
    cbn [bind]; [| reflexivity].
  pose proof (sqrt_pos (1 / p)) as Hs.
  assert (alpha1 * sqrt (1 / p) <= alpha2 * sqrt (1 / p))
    by (apply Rmult_le_compat_r; assumption).
  lra.
Qed.

Lemma count_speech_monotone (f g : R -> bool) (v : list R) :
  (forall x, f x = true -> g x = true) ->
  (count_speech (map f v) <= count_speech (map g v))%nat.
Proof.
  intros Himp. unfold count_speech.
  induction v as [| x v IH]; cbn; [lia |].
  destruct (f x) eqn:Hf.
  - rewrite (Himp x Hf). cbn. lia.
  - destruct (g x); cbn; lia.
Qed.

Lemma Rgtb_lower_threshold (t1 t2 x : R) :
  t2 <= t1 -> Signal.Rgtb x t1 = true -> Signal.Rgtb x t2 = true.
Proof.
  unfold Signal.Rgtb. intros Hle.
  destruct (Rgt_dec x t1) as [H1 | H1]; [| discriminate].
  destruct (Rgt_dec x t2) as [H2 | H2]; [reflexivity |]. lra.
Qed.

(** The labelling step, shared by both versions of [vad_energy]. *)
Lemma labelling_monotone {T : Type} (wrap : R -> T) (world : Signal.mixture)
    (alpha1 alpha2 : R) (data : list R) :
  alpha1 <= alpha2 ->
  speech_not_fewer
    (bind (Signal.vad_threshold alpha1 world)
       (fun t => Ok (map (fun x => Signal.Rgtb x t) data, wrap t)))
    (bind (Signal.vad_threshold alpha2 world)
       (fun t => Ok (map (fun x => Signal.Rgtb x t) data, wrap t))).
Proof.
  intros Hle. pose proof (@vad_threshold_antitone world alpha1 alpha2 Hle) as Ht.
  destruct (Signal.vad_threshold alpha1 world) as [t1 | e1];
    destruct (Signal.vad_threshold alpha2 world) as [t2 | e2];
    cbn [bind speech_not_fewer]; try contradiction; [| exact Ht].
  apply count_speech_monotone. intros x. apply Rgtb_lower_threshold. exact Ht.
Qed.

Lemma speech_not_fewer_refl {T : Type} (r : result (list bool * T)) :
  speech_not_fewer r r.
Proof.
  destruct r as [[label t] | e]; cbn; [lia | reflexivity].
Qed.

Lemma signal_vad_monotone
    (fit : nat -> Z -> list R -> Signal.fit_outcome)
    (st1 st2 : Signal.module_state) (alpha1 alpha2 : R) (nb_train_it : Z)
    (distrib_nb : nat) :
  Signal.current_vad_mode st1 = Signal.Finite alpha1 ->
  Signal.current_vad_mode st2 = Signal.Finite alpha2 ->
  alpha1 <= alpha2 ->
  forall log_energy,
    speech_not_fewer
      (Signal.vad_energy fit st1 log_energy distrib_nb nb_train_it)
      (Signal.vad_energy fit st2 log_energy distrib_nb nb_train_it).
Proof.
  intros H1 H2 Hmode. induction distrib_nb as [| k IH]; intros log_energy;
    cbn [Signal.vad_energy];
    destruct (fit _ nb_train_it (Signal.normalize log_energy)) as [world | e].
  - rewrite H1, H2. apply (labelling_monotone Signal.Finite). exact Hmode.
  - destruct (Signal.caught e); apply speech_not_fewer_refl.
  - rewrite H1, H2. apply (labelling_monotone Signal.Finite). exact Hmode.
  - destruct (Signal.caught e); [| apply speech_not_fewer_refl].
    destruct (2 <=? Z.of_nat k)%Z; [apply IH | apply speech_not_fewer_refl].
Qed.

Lemma strict_mode_value (st : Signal.module_state) :
  Signal.set_vad_mode (Signal.ModeReal Signal.VAD_MODE_STRICT) st
  = Ok {| Signal.current_vad_mode := Signal.Finite 1.2 |}.
Proof.
  unfold Signal.set_vad_mode, Signal.VAD_MODE_STRICT.
  rewrite Rmax_left by lra. rewrite Rmin_left by lra. reflexivity.
Qed.

Lemma sensitive_mode_value (st : Signal.module_state) :
  Signal.set_vad_mode (Signal.ModeReal Signal.VAD_MODE_SENSITIVE) st
  = Ok {| Signal.current_vad_mode := Signal.Finite 2.4 |}.
Proof.
  unfold Signal.set_vad_mode, Signal.VAD_MODE_SENSITIVE.
  rewrite Rmax_left by lra. rewrite Rmin_left by lra. reflexivity.
Qed.

(** C3 (amended). On a fixed log-energy input and a fixed fit, raising
    the sensitivity [alpha] from 1.2 to 2.4 never decreases the number
    of frames labelled speech: the threshold
    [mean - alpha * sqrt(1/precision)] of the highest-energy component
    falls, and a frame is speech when its log-energy exceeds it.  This
    holds for [vad_energy] of signal.py, where [alpha] is the mode set by
    [set_vad_mode], and for [vad_energy] of speech.py, where it is an
    argument. *)
Theorem vad_sensitivity_monotone :
  forall (fit : nat -> Z -> list R -> Signal.fit_outcome)
         (reset : Speech.Mixture -> Speech.Mixture)
         (expectation : Speech.Mixture -> Speech.Mixture -> list R -> Speech.Mixture)
         (maximization : Speech.Mixture -> Speech.Mixture -> R -> R -> Speech.Mixture)
         (st : Signal.module_state) (log_energy : list R)
         (distrib_nb : nat) (nb_train_it : Z) (flooring ceiling : R),
    (exists strict sensitive,
       Signal.set_vad_mode (Signal.ModeReal Signal.VAD_MODE_STRICT) st
       = Ok strict
       /\ Signal.set_vad_mode (Signal.ModeReal Signal.VAD_MODE_SENSITIVE) st
          = Ok sensitive
       /\ speech_not_fewer
            (Signal.vad_energy fit strict log_energy distrib_nb nb_train_it)
            (Signal.vad_energy fit sensitive log_energy distrib_nb
               nb_train_it))
    /\ speech_not_fewer
         (Speech.vad_energy reset expectation maximization log_energy
            distrib_nb nb_train_it flooring ceiling 1.2)
         (Speech.vad_energy reset expectation maximization log_energy
            distrib_nb nb_train_it flooring ceiling 2.4).
Proof.
  intros. split.
  - eexists. eexists.
    split; [apply strict_mode_value |].
    split; [apply sensitive_mode_value |].
    apply (@signal_vad_monotone fit _ _ 1.2 2.4);
      [reflexivity | reflexivity | lra].
  - unfold Speech.vad_energy.
    destruct (Speech.em_loop _ _ _ _ _ _ _ _ _) as [world accum].
    apply (labelling_monotone (fun t => t)). lra.
Qed.

End Vad.

Section VadExamples.

Local Open Scope R_scope.

Lemma Rabs_square (x : R) : Rabs x * Rabs x = x * x.
Proof.
  unfold Rabs. destruct (Rcase_abs x); ring.
Qed.

Lemma normalize_pair : Signal.normalize [-1; 1] = [-1; 1].
Proof.
  assert (Hmu : Signal.np_mean [-1; 1] = 0)
    by (unfold Signal.np_mean, np_sum; cbn; lra).
  assert (Hsd : Signal.np_std [-1; 1] = 1).
  { unfold Signal.np_std. rewrite Hmu.
    unfold Signal.np_mean, np_sum. cbn. rewrite !Rabs_square.
    replace ((0 + (-1 - 0) * (-1 - 0) + (1 - 0) * (1 - 0)) / (1 + 1))
      with 1 by lra.
    apply sqrt_1. }
  unfold Signal.normalize. rewrite Hmu, Hsd. cbn.
  f_equal; [lra | f_equal; lra].
Qed.

Lemma two_component_threshold (alpha : R) :
  Signal.vad_threshold alpha
    {| Signal.means_ := [-1; 1]; Signal.precisions_ := [1; 1] |}
  = Ok (1 - alpha).
Proof.
  unfold Signal.vad_threshold. cbn [Signal.means_ Signal.precisions_].
  cbn [Signal.np_max Signal.np_argmax fold_left bind Signal.argmax_from].
  destruct (Rgt_dec 1 (-1)) as [_ | Hbad]; [| lra].
  change (py_index [1; 1] (Z.of_nat 1)) with (@Ok R 1). cbn [bind].
  rewrite Rmax_right by lra.
  replace (1 / 1) with 1 by lra. rewrite sqrt_1.
  f_equal. lra.
Qed.

(** C3 as first stated fails: with the largest mean at 1 and unit
    precision, the frame at -1 is not speech for [alpha = 1.2]
    (threshold -0.2) and is speech for [alpha = 2.4] (threshold -1.4),
    so the count of speech frames grows from 1 to 2. *)
Lemma vad_sensitivity_counterexample :
  exists strict sensitive t1 t2,
    Signal.set_vad_mode (Signal.ModeReal Signal.VAD_MODE_STRICT)
      Signal.initial_state = Ok strict
    /\ Signal.set_vad_mode (Signal.ModeReal Signal.VAD_MODE_SENSITIVE)
         Signal.initial_state = Ok sensitive
    /\ Signal.vad_energy two_component_fit strict [-1; 1] 2 24
       = Ok ([false; true], t1)
    /\ Signal.vad_energy two_component_fit sensitive [-1; 1] 2 24
       = Ok ([true; true], t2)
    /\ (count_speech [false; true] < count_speech [true; true])%nat.
Proof.
  eexists. eexists. exists (Signal.Finite (1 - 1.2)), (Signal.Finite (1 - 2.4)).
  split; [apply strict_mode_value |].
  split; [apply sensitive_mode_value |].
  cbn [Signal.vad_energy two_component_fit Signal.current_vad_mode].
  rewrite normalize_pair.
  rewrite !two_component_threshold. cbn [bind map].
  unfold Signal.Rgtb.
  destruct (Rgt_dec (-1) (1 - 1.2)) as [Hbad | _]; [lra |].
  destruct (Rgt_dec 1 (1 - 1.2)) as [_ | Hbad]; [| lra].
  destruct (Rgt_dec (-1) (1 - 2.4)) as [_ | Hbad]; [| lra].
  destruct (Rgt_dec 1 (1 - 2.4)) as [_ | Hbad]; [| lra].
  split; [reflexivity |]. split; [reflexivity |].
  cbn. lia.
Qed.

End VadExamples.

(** ** Recovery from a failed fit *)

Lemma vad_energy_fitted (fit : nat -> Z -> list R -> Signal.fit_outcome)
    (st : Signal.module_state) (alpha : R) (world : Signal.mixture)
    (log_energy : list R) (distrib_nb : nat) (nb_train_it : Z) :
  fit distrib_nb nb_train_it (Signal.normalize log_energy)
  = Signal.Fitted world ->
  Signal.current_vad_mode st = Signal.Finite alpha ->
  Signal.vad_energy fit st log_energy distrib_nb nb_train_it
  = threshold_labels alpha world (Signal.normalize log_energy).
Proof.
  intros Hfit Hmode.
  destruct distrib_nb as [| k]; cbn [Signal.vad_energy];
    rewrite Hfit, Hmode; reflexivity.
Qed.

Lemma vad_energy_retries (fit : nat -> Z -> list R -> Signal.fit_outcome)
    (st : Signal.module_state) (e : exn) (log_energy : list R)
    (distrib_nb : nat) (nb_train_it : Z) :
  fit distrib_nb nb_train_it (Signal.normalize log_energy)
  = Signal.FitRaises e ->
  Signal.caught e = true ->
  (2 <= Z.of_nat distrib_nb - 1)%Z ->
  Signal.vad_energy fit st log_energy distrib_nb nb_train_it
  = Signal.vad_energy fit st (Signal.normalize log_energy) (distrib_nb - 1)
      nb_train_it.
Proof.
  intros Hfit Hcaught Hk.
  destruct distrib_nb as [| k]; [lia |].
  cbn [Signal.vad_energy]. rewrite Hfit, Hcaught.
  destruct (Z.leb_spec 2 (Z.of_nat k)) as [_ | Hbad]; [| lia].
  replace (S k - 1)%nat with k by lia. reflexivity.
Qed.

Lemma vad_energy_returns (fit : nat -> Z -> list R -> Signal.fit_outcome)
    (st : Signal.module_state) (nb_train_it : Z) (distrib_nb : nat) :
  fit_errors_numerical fit -> fit_well_formed fit ->
  forall log_energy,
  exists label threshold,
    Signal.vad_energy fit st log_energy distrib_nb nb_train_it
    = Ok (label, threshold)
    /\ List.length label = List.length log_energy.
Proof.
  intros Hnum Hwf.
  assert (Hfitted : forall k data world,
            fit k nb_train_it (Signal.normalize data) = Signal.Fitted world ->
            exists label threshold,
              match Signal.current_vad_mode st with
              | Signal.Finite alpha =>
                  bind (Signal.vad_threshold alpha world)
                    (fun t => Ok (map (fun x => Signal.Rgtb x t)
                                    (Signal.normalize data), Signal.Finite t))
              | Signal.NaN =>
                  bind (Signal.vad_threshold 0 world)
                    (fun _ => Ok (map (fun _ => false)
                                    (Signal.normalize data), Signal.NaN))
              end
              = Ok (label, threshold)
              /\ List.length label = List.length data).
  { intros k data world Hfit.
    destruct (Hwf _ _ _ _ Hfit) as [Hne Hlen].
    destruct (vad_threshold_defined world Hne Hlen) as [top [p Hthr]].
    destruct (Signal.current_vad_mode st) as [alpha |];
      rewrite Hthr; cbn [bind]; eexists; eexists;
      (split; [reflexivity |]); rewrite length_map; apply normalize_length. }
  induction distrib_nb as [| k IH]; intros log_energy;
    cbn [Signal.vad_energy];
    destruct (fit _ nb_train_it (Signal.normalize log_energy))
      as [world | e] eqn:Hfit.
  - eapply Hfitted. exact Hfit.
  - rewrite (Hnum _ _ _ _ Hfit). eexists. eexists.
    split; [reflexivity |]. rewrite repeat_length. apply normalize_length.
  - eapply Hfitted. exact Hfit.
  - rewrite (Hnum _ _ _ _ Hfit).
    destruct (2 <=? Z.of_nat k).
    + destruct (IH (Signal.normalize log_energy))
        as [label [threshold [Hrun Hlabel]]].
      exists label, threshold. split; [exact Hrun |].
      rewrite Hlabel. apply normalize_length.
    + eexists. eexists.
      split; [reflexivity |]. rewrite repeat_length. apply normalize_length.
Qed.

(** C6. When the fit raises an error that [vad_energy] handles (a
    [ValueError] or an [IndexError]), the call is retried on the
    normalised energies with one component fewer, and what it returns
    is what the fit with one component fewer gives: when that fit
    succeeds, the labels of its mixture.  Once a retry would leave
    fewer than two components the call returns an all-zero label array,
    one entry per frame, and the threshold 0.  A fit that succeeds is
    used as it is, and an exception of another class is passed on.  So
    with a fit whose failures are such errors, [vad_energy] returns
    labels for every frame and never raises. *)
Theorem vad_energy_recovers_from_fit_errors :
  forall (fit : nat -> Z -> list R -> Signal.fit_outcome)
         (st : Signal.module_state) (log_energy : list R)
         (distrib_nb : nat) (nb_train_it : Z),
    (forall world alpha,
       fit distrib_nb nb_train_it (Signal.normalize log_energy)
       = Signal.Fitted world ->
       Signal.current_vad_mode st = Signal.Finite alpha ->
       Signal.vad_energy fit st log_energy distrib_nb nb_train_it
       = threshold_labels alpha world (Signal.normalize log_energy))
    /\ (forall e,
          fit distrib_nb nb_train_it (Signal.normalize log_energy)
          = Signal.FitRaises e ->
          Signal.caught e = true ->
          (2 <= Z.of_nat distrib_nb - 1 ->
           Signal.vad_energy fit st log_energy distrib_nb nb_train_it
           = Signal.vad_energy fit st (Signal.normalize log_energy)
               (distrib_nb - 1) nb_train_it
           /\ forall world alpha,
                fit (distrib_nb - 1)%nat nb_train_it
                  (Signal.normalize (Signal.normalize log_energy))
                = Signal.Fitted world ->
                Signal.current_vad_mode st = Signal.Finite alpha ->
                Signal.vad_energy fit st log_energy distrib_nb nb_train_it
                = threshold_labels alpha world
                    (Signal.normalize (Signal.normalize log_energy)))
          /\ (Z.of_nat distrib_nb - 1 < 2 ->
              Signal.vad_energy fit st log_energy distrib_nb nb_train_it
              = Ok (repeat false (List.length log_energy),
                    Signal.Finite 0%R)))
    /\ (forall e,
          fit distrib_nb nb_train_it (Signal.normalize log_energy)
          = Signal.FitRaises e ->
          Signal.caught e = false ->
          Signal.vad_energy fit st log_energy distrib_nb nb_train_it
          = Raise e)
    /\ (fit_errors_numerical fit -> fit_well_formed fit ->
        exists label threshold,
          Signal.vad_energy fit st log_energy distrib_nb nb_train_it
          = Ok (label, threshold)
          /\ List.length label = List.length log_energy).
Proof.
  intros fit st log_energy distrib_nb nb_train_it.
  split; [| split; [| split]].
  - intros world alpha Hfit Hmode. apply vad_energy_fitted; assumption.
  - intros e Hfit Hcaught. split; intros Hk.
    + pose proof (@vad_energy_retries fit st e log_energy distrib_nb
                    nb_train_it Hfit Hcaught Hk) as Hretry.
      split; [exact Hretry |].
      intros world alpha Hfit' Hmode. rewrite Hretry.
      apply vad_energy_fitted; assumption.
    + destruct distrib_nb as [| k]; cbn [Signal.vad_energy];
        rewrite Hfit, Hcaught, ?normalize_length; [reflexivity |].
      destruct (Z.leb_spec 2 (Z.of_nat k)) as [Hbad | _]; [lia |].
      reflexivity.
  - intros e Hfit Hcaught.
    destruct distrib_nb as [| k]; cbn [Signal.vad_energy];
      rewrite Hfit, Hcaught; reflexivity.
  - intros Hnum Hwf. apply vad_energy_returns; assumption.
Qed.

Lemma fit_failing_above_two_numerical :
  fit_errors_numerical fit_failing_above_two.
Proof.
  intros k it data e. unfold fit_failing_above_two, two_component_fit.
  destruct (3 <=? Z.of_nat k); intros H; [| discriminate].
  injection H as <-. reflexivity.
Qed.

Lemma fit_failing_above_two_well_formed :
  fit_well_formed fit_failing_above_two.
Proof.
  intros k it data world. unfold fit_failing_above_two, two_component_fit.
  destruct (3 <=? Z.of_nat k); intros H; [discriminate |].
  injection H as <-. cbn. split; [discriminate | reflexivity].
Qed.

Lemma two_component_labels :
  threshold_labels 2
    {| Signal.means_ := [-1; 1]%R; Signal.precisions_ := [1; 1]%R |}
    [-1; 1]%R
  = Ok ([false; true], Signal.Finite (1 - 2)%R).
Proof.
  unfold threshold_labels. rewrite two_component_threshold.
  cbn [bind map]. unfold Signal.Rgtb.
  destruct (Rgt_dec (-1) (1 - 2)) as [Hbad | _]; [lra |].
  destruct (Rgt_dec 1 (1 - 2)) as [_ | Hbad]; [| lra].
  reflexivity.
Qed.

Lemma vad_energy_recovers_from_fit_errors_witness :
  (* three components fail, two are tried *)
  Signal.vad_energy fit_failing_above_two Signal.initial_state [-1; 1]%R 3 24
  = Signal.vad_energy fit_failing_above_two Signal.initial_state
      (Signal.normalize [-1; 1]%R) 2 24
  (* and the labels are those of the fit with two components *)
  /\ Signal.vad_energy fit_failing_above_two Signal.initial_state
       [-1; 1]%R 3 24
     = Ok ([false; true], Signal.Finite (1 - 2)%R)
  (* one label per frame *)
  /\ (exists label threshold,
        Signal.vad_energy fit_failing_above_two Signal.initial_state
          [-1; 1]%R 3 24
        = Ok (label, threshold)
        /\ List.length label = 2%nat)
  (* two components fail: the fall-back *)
  /\ Signal.vad_energy failing_fit Signal.initial_state [-1; 1]%R 2 24
     = Ok ([false; false], Signal.Finite 0%R).
Proof.
  pose proof (@vad_energy_recovers_from_fit_errors fit_failing_above_two
                Signal.initial_state [-1; 1]%R 3%nat 24)
    as [_ [Hretry [_ Hreturns]]].
  pose proof (@vad_energy_recovers_from_fit_errors failing_fit
                Signal.initial_state [-1; 1]%R 2%nat 24)
    as [_ [Hfallback _]].
  destruct (Hretry IndexError eq_refl eq_refl) as [Hstep _].
  destruct (Hstep ltac:(lia)) as [Hsame Hfit].
  split; [exact Hsame |]. split; [| split].
  - rewrite (Hfit {| Signal.means_ := [-1; 1]%R;
                     Signal.precisions_ := [1; 1]%R |} 2%R eq_refl eq_refl).
    rewrite !normalize_pair. apply two_component_labels.
  - apply Hreturns.
    + exact fit_failing_above_two_numerical.
    + exact fit_failing_above_two_well_formed.
  - apply (Hfallback (ValueError "ill-defined empirical covariance"));
      [reflexivity | reflexivity | lia].
Defined.

(** ** The orchestrator *)

Section Orchestrator.

Variable reset : Speech.Mixture -> Speech.Mixture.
Variable expectation :
  Speech.Mixture -> Speech.Mixture -> list R -> Speech.Mixture.
Variable maximization :
  Speech.Mixture -> Speech.Mixture -> R -> R -> Speech.Mixture.
Variable CMat : Type.
Variable resampy_resample : list R -> Z -> Z -> string -> result (list R).
Variable librosa_util_frame : list R -> Z -> Z -> result (matrix R).
Variable librosa_stft : list R -> Z -> Z -> result CMat.
Variable librosa_magphase : CMat -> matrix R * CMat.
Variable librosa_piptrack :
  Z -> matrix R -> Z -> Z -> Z -> Z -> Q -> result (matrix R * matrix R).
Variable librosa_logamplitude : matrix R -> result (matrix R).
Variable librosa_melspectrogram :
  Z -> matrix R -> Z -> Z -> Z -> Z -> Z -> result (matrix R).
Variable librosa_mfcc : Z -> matrix R -> Z -> result (matrix R).

Local Abbreviation speech_features :=
  (Speech.speech_features reset expectation maximization resampy_resample
     librosa_util_frame librosa_stft librosa_magphase librosa_piptrack
     librosa_logamplitude librosa_melspectrogram librosa_mfcc).

Lemma bind_not_ok {A B : Type} (r : result A) (k : A -> result B) :
  (forall a, r = Ok a -> is_ok (k a) = false) -> is_ok (bind r k) = false.
Proof.
  intros Hk. destruct r as [a | e]; cbn; [apply Hk |]; reflexivity.
Qed.

Lemma with_deltas_none (order : Z) (x y : Speech.pyval) :
  Speech.with_deltas order x = Ok y -> x = Speech.PNone -> y = Speech.PNone.
Proof.
  intros Hrun ->. cbn in Hrun. injection Hrun as <-. reflexivity.
Qed.

(** The delta stage leaves a [None] stream at [None]. *)
Lemma delta_stage_none (nb_delta : option Z)
    (p s m c e p' s' m' c' e' : Speech.pyval) :
  Speech.delta_stage nb_delta (p, s, m, c, e) = Ok (p', s', m', c', e') ->
  (p = Speech.PNone -> p' = Speech.PNone)
  /\ (s = Speech.PNone -> s' = Speech.PNone)
  /\ (m = Speech.PNone -> m' = Speech.PNone)
  /\ (c = Speech.PNone -> c' = Speech.PNone)
  /\ (e = Speech.PNone -> e' = Speech.PNone).
Proof.
  unfold Speech.delta_stage.
  destruct nb_delta as [order |];
    [destruct (order >? 0)%Z |];
    try (intros H; injection H as <- <- <- <- <-; tauto).
  destruct (Speech.with_deltas order p) as [p1 |] eqn:Hp; [| discriminate].
  destruct (Speech.with_deltas order s) as [s1 |] eqn:Hs; [| discriminate].
  destruct (Speech.with_deltas order m) as [m1 |] eqn:Hm; [| discriminate].
  destruct (Speech.with_deltas order c) as [c1 |] eqn:Hc; [| discriminate].
  destruct (Speech.with_deltas order e) as [e1 |] eqn:He; [| discriminate].
  cbn [bind]. intros H. injection H as <- <- <- <- <-.
  repeat split; eapply with_deltas_none; eassumption.
Qed.

(** The [return] statement raises as soon as one of the five transposed
    streams is [None]. *)
Lemma feature_dictionary_none (s m c v p e : Speech.pyval) :
  s = Speech.PNone \/ m = Speech.PNone \/ c = Speech.PNone
  \/ p = Speech.PNone \/ e = Speech.PNone ->
  exists stream,
    Speech.feature_dictionary s m c v p e
    = Raise (AttributeError "'NoneType' object has no attribute 'T'")
    /\ In stream [s; m; c; p; e] /\ stream = Speech.PNone.
Proof.
  intros Hnone. exists Speech.PNone.
  unfold Speech.feature_dictionary.
  assert (Hraise : forall x : Speech.pyval,
            Speech.attr_T x
            = Raise (AttributeError "'NoneType' object has no attribute 'T'")
            \/ exists y, Speech.attr_T x = Ok y /\ x <> Speech.PNone).
  { intros [| mat | lab]; [left; reflexivity | right | right];
      eexists; (split; [reflexivity | discriminate]). }
  split; [| split; [| reflexivity]].
  - destruct (Hraise s) as [-> | [s1 [-> Hs]]]; [reflexivity |].
    destruct (Hraise m) as [-> | [m1 [-> Hm]]]; [reflexivity |].
    destruct (Hraise c) as [-> | [c1 [-> Hc]]]; [reflexivity |].
    destruct (Hraise p) as [-> | [p1 [-> Hp]]]; [reflexivity |].
    destruct (Hraise e) as [-> | [e1 [-> He]]]; [reflexivity |].
    tauto.
  - cbn [In]. intuition auto.
Qed.

Lemma speech_features_needs_all_streams
    (s : ndarray R) (sr : Z) (win shift : Q) (nb_melfilters nb_ceps : Z)
    (nb_delta : option Z) (get_spec get_mspec get_mfcc get_pitch : bool)
    (get_vad : Speech.vad_request) (get_energy : bool) (pitch_threshold : Q)
    (fmin fmax sr_new : option Z) (preemphasis : R) :
  get_spec && get_mspec && get_mfcc && get_pitch && get_energy = false ->
  is_ok (speech_features s sr win shift nb_melfilters nb_ceps nb_delta
           get_spec get_mspec get_mfcc get_pitch get_vad get_energy
           pitch_threshold fmin fmax sr_new preemphasis) = false.
Proof.
  intros Hflags. unfold Speech.speech_features.
  apply bind_not_ok; intros s1 _.
  apply bind_not_ok; intros [s2 sr2] _.
  apply bind_not_ok; intros s3 _.
  apply bind_not_ok; intros [log_energy vad] Henergy.
  apply bind_not_ok; intros stft _.
  destruct (librosa_magphase stft) as [S_ D].
  apply bind_not_ok; intros pitch_freq Hpitch.
  apply bind_not_ok; intros powerspectrogram Hspec.
  apply bind_not_ok; intros [melspectrogram mfcc] Hmel.
  apply bind_not_ok; intros [[[[p' s'] m'] c'] e'] Hdelta.
  apply delta_stage_none in Hdelta.
  destruct Hdelta as [Hp [Hs [Hm [Hc He]]]].
  destruct (@feature_dictionary_none s' m' c'
              (Speech.keep_if (Speech.truthy get_vad) vad) p' e')
    as [stream [Hraise _]]; [| rewrite Hraise; reflexivity].
  destruct get_spec.
  2:{ left. apply Hs. cbn in Hspec. congruence. }
  destruct get_mspec; [| right; left; apply Hm; reflexivity].
  destruct get_mfcc; [| right; right; left; apply Hc; reflexivity].
  destruct get_pitch.
  2:{ right; right; right; left. apply Hp. cbn in Hpitch. congruence. }
  destruct get_energy; [discriminate |].
  right; right; right; right. apply He. reflexivity.
Qed.

(** C5, on the code.  A call that leaves out any of the streams [spec],
    [mspec], [mfcc], [pitch] or [energy] does not return a dictionary
    with [None] under that key: the [return] statement takes [.T] of the
    [None] value and the call raises, whatever the library functions
    compute. *)
Theorem speech_features_unrequested_stream_raises :
  forall (s : ndarray R) (sr : Z) (win shift : Q) (nb_melfilters nb_ceps : Z)
         (nb_delta : option Z) (a b c d : bool)
         (get_vad : Speech.vad_request) (pitch_threshold : Q)
         (fmin fmax sr_new : option Z) (preemphasis : R),
    (* get_spec = False *)
    is_ok (speech_features s sr win shift nb_melfilters nb_ceps nb_delta
             false a b c get_vad d
             pitch_threshold fmin fmax sr_new preemphasis) = false
    (* get_mspec = False *)
    /\ is_ok (speech_features s sr win shift nb_melfilters nb_ceps nb_delta
                a false b c get_vad d
                pitch_threshold fmin fmax sr_new preemphasis) = false
    (* get_mfcc = False *)
    /\ is_ok (speech_features s sr win shift nb_melfilters nb_ceps nb_delta
                a b false c get_vad d
                pitch_threshold fmin fmax sr_new preemphasis) = false
    (* get_pitch = False *)
    /\ is_ok (speech_features s sr win shift nb_melfilters nb_ceps nb_delta
                a b c false get_vad d
                pitch_threshold fmin fmax sr_new preemphasis) = false
    (* get_energy = False *)
    /\ is_ok (speech_features s sr win shift nb_melfilters nb_ceps nb_delta
                a b c d get_vad false
                pitch_threshold fmin fmax sr_new preemphasis) = false.
Proof.
  intros. repeat split; apply speech_features_needs_all_streams;
    destruct a, b, c, d; reflexivity.
Qed.

End Orchestrator.

(** With every stream but the labels asked for, and library functions
    that succeed, the dictionary is returned and holds [None] under
    ['vad']; with the spectrogram left out as well, the same call raises
    the [AttributeError] of [None.T]. *)
Example speech_features_stub_runs :
  let run get_spec :=
    Speech.speech_features (fun m => m) (fun w _ _ => w) (fun w _ _ _ => w)
      (fun s _ _ _ => Ok s)
      (fun _ _ _ => Ok (Mat [[1; 1]; [1; 1]] 2))%R
      (fun _ _ _ => Ok tt)
      (fun _ => (Mat [[1; 1]] 2, tt))%R
      (fun _ S_ _ _ _ _ _ => Ok (S_, S_))
      (fun m => Ok m)
      (fun _ S_ _ _ _ _ _ => Ok S_)
      (fun _ S_ _ => Ok S_)
      (Arr1 [1; 2; 3; 4]%R) 2 1 (1 # 2) 40 13 None
      get_spec true true true (Speech.VadBool false) true
      (4 # 5) (Some 0%Z) None None 0.97%R in
  (exists d, run true = Ok d /\ In ("vad"%string, Speech.PNone) d
             /\ map fst d = ["spec"; "mspec"; "mfcc"; "vad"; "pitch"; "energy"]%string)
  /\ run false = Raise (AttributeError "'NoneType' object has no attribute 'T'").
Proof.
  cbv zeta. split.
  - eexists. split; [reflexivity |]. split; [| reflexivity].
    cbn [In]. right; right; right; left. reflexivity.
  - reflexivity.
Qed.

(** ** The regression kernel of [compute_delta] *)

Section DeltaKernel.

Local Open Scope Z_scope.

Lemma sum_sq_Z_app (u v : list Z) :
  sum_sq_Z (u ++ v) = sum_sq_Z u + sum_sq_Z v.
Proof.
  induction u as [| z u IH]; cbn [app sum_sq_Z]; [reflexivity | lia].
Qed.

(** Six times the sum of [(a - i)^2] for [i < n]. *)
Lemma arange_down_sum_sq (a : Z) (n : nat) :
  6 * sum_sq_Z (map (fun i => a - Z.of_nat i) (seq 0 n))
  = 6 * Z.of_nat n * a * a
    - 6 * a * Z.of_nat n * (Z.of_nat n - 1)
    + (Z.of_nat n - 1) * Z.of_nat n * (2 * Z.of_nat n - 1).
Proof.
  induction n as [| n IH].
  - cbn. lia.
  - rewrite seq_S, map_app, sum_sq_Z_app. cbn [map sum_sq_Z Nat.add].
    rewrite Z.mul_add_distr_l, IH. rewrite Nat2Z.inj_succ. nia.
Qed.

Lemma raw_window_sum_sq (width : Z) :
  3 <= width -> width mod 2 = 1 ->
  12 * sum_sq_Z (Signal.np_arange_down (Signal.half_length width - 1)
                   (- Signal.half_length width))
  = width * (width * width - 1).
Proof.
  intros Hw Hodd. unfold Signal.np_arange_down, Signal.half_length.
  pose proof (Z.div_mod width 2 ltac:(lia)) as Hdm. rewrite Hodd in Hdm.
  set (h := width / 2) in *.
  replace (1 + h - 1 - - (1 + h)) with (2 * h + 1) by lia.
  replace (1 + h - 1) with h by lia.
  pose proof (arange_down_sum_sq h (Z.to_nat (2 * h + 1))) as Hsum.
  rewrite Z2Nat.id in Hsum by lia.
  nia.
Qed.

Local Open Scope Q_scope.

Lemma Qabs_square (y : Q) : Qabs y * Qabs y == y * y.
Proof.
  apply Qabs_case; intros _; ring.
Qed.

Lemma sum_squares_of_integers (zs : list Z) (acc : Q) :
  fold_left Qplus
    (map (fun x => Qabs x * Qabs x) (map inject_Z zs)) acc
  == acc + inject_Z (sum_sq_Z zs).
Proof.
  revert acc. induction zs as [| z zs IH]; intros acc; cbn [map fold_left sum_sq_Z].
  - unfold inject_Z. ring.
  - rewrite IH, Qabs_square, inject_Z_plus, inject_Z_mult. ring.
Qed.

Lemma sum_squares_of_scaled_integers (s : Q) (zs : list Z) (acc : Q) :
  ~ s == 0 ->
  fold_left Qplus
    (map (fun x => Qabs x * Qabs x)
       (map (fun x => x / s) (map inject_Z zs))) acc
  == acc + inject_Z (sum_sq_Z zs) / (s * s).
Proof.
  intros Hs. revert acc.
  induction zs as [| z zs IH]; intros acc; cbn [map fold_left sum_sq_Z].
  - unfold inject_Z. field. exact Hs.
  - rewrite IH, Qabs_square, inject_Z_plus, inject_Z_mult. field. exact Hs.
Qed.

(** C8 (amended). For every odd [width >= 3] the kernel of
    [compute_delta] has half-length [(width+1)/2] and [width] entries,
    and after the division by the sum of its squares its own sum of
    squares is [12 / (width * (width^2 - 1))], the inverse of the sum of
    squares of the integer kernel. *)
Theorem delta_window_sum_of_squares :
  forall width : Z,
    (3 <= width)%Z -> (width mod 2 = 1)%Z ->
    Signal.half_length width = ((width + 1) / 2)%Z
    /\ len (Signal.delta_window (T := Q) width) = width
    /\ Signal.sum_squares (Signal.delta_window (T := Q) width)
       == 12 / inject_Z (width * (width * width - 1)).
Proof.
  intros width Hw Hodd.
  pose proof (raw_window_sum_sq Hw Hodd) as Hsum.
  set (zs := Signal.np_arange_down (Signal.half_length width - 1)
               (- Signal.half_length width)) in *.
  split; [| split].
  - unfold Signal.half_length.
    pose proof (Z.div_mod width 2 ltac:(lia)) as Hdm. rewrite Hodd in Hdm.
    apply Z.div_unique with (r := 0%Z); lia.
  - unfold Signal.delta_window, Signal.raw_window, len.
    rewrite !length_map. unfold Signal.np_arange_down.
    rewrite length_map, length_seq. unfold Signal.half_length.
    pose proof (Z.div_mod width 2 ltac:(lia)) as Hdm. rewrite Hodd in Hdm.
    lia.
  - unfold Signal.delta_window, Signal.sum_squares, Signal.raw_window, np_sum.
    cbn [num_of_Z num_add num_mul num_div num_abs Num_Q]. fold zs.
    set (s := fold_left Qplus
                (map (fun x => Qabs x * Qabs x) (map inject_Z zs))
                (inject_Z 0)).
    assert (Hs : s == inject_Z (sum_sq_Z zs)).
    { unfold s. rewrite sum_squares_of_integers. unfold inject_Z at 1. ring. }
    assert (Hpos : (0 < sum_sq_Z zs)%Z).
    { assert (0 < width * (width * width - 1))%Z
        by (apply Z.mul_pos_pos; nia).
      lia. }
    assert (Hnz : ~ inject_Z (sum_sq_Z zs) == 0).
    { intros H0. unfold Qeq in H0. cbn in H0. lia. }
    assert (Hsnz : ~ s == 0) by (rewrite Hs; exact Hnz).
    rewrite (sum_squares_of_scaled_integers zs (inject_Z 0) Hsnz).
    rewrite Hs, <- Hsum, inject_Z_mult.
    unfold inject_Z at 1. field. exact Hnz.
Qed.

End DeltaKernel.

Lemma delta_window_sum_of_squares_witness :
  Signal.half_length 9 = 5%Z
  /\ len (Signal.delta_window (T := Q) 9) = 9%Z
  /\ (Signal.sum_squares (Signal.delta_window (T := Q) 9) == 1 # 60)%Q.
Proof.
  destruct (@delta_window_sum_of_squares 9) as [Hhalf [Hlen Hsq]];
    [lia | reflexivity |].
  split; [exact Hhalf |]. split; [exact Hlen |].
  rewrite Hsq. reflexivity.
Defined.

(** C8 as first stated fails for the smallest kernel: for [width = 3]
    the normalised kernel is [1/2, 0, -1/2], whose squares add up to
    [1/2], not to 1. *)
Lemma delta_window_unit_norm_counterexample :
  (3 <= 3)%Z /\ (3 mod 2 = 1)%Z
  /\ (Signal.sum_squares (Signal.delta_window (T := Q) 3) == 1 # 2)%Q
  /\ ~ (Signal.sum_squares (Signal.delta_window (T := Q) 3) == 1)%Q.
Proof.
  split; [lia |]. split; [reflexivity |]. split; [reflexivity |].
  intros H. vm_compute in H. discriminate H.
Qed.

(** ** Delta features: shapes *)

Section DeltaShape.

Context {T : Type} {N : Num T}.

Local Open Scope Z_scope.

Lemma lfilter_length (b x : list T) :
  List.length (Signal.lfilter b x) = List.length x.
Proof.
  unfold Signal.lfilter. rewrite length_map, length_seq. reflexivity.
Qed.

Lemma pad_edge_length (width : nat) (row : list T) :
  row <> [] ->
  List.length (Signal.pad_edge width row)
  = (width + List.length row + width)%nat.
Proof.
  intros Hne. destruct row as [| x0 rest]; [contradiction |].
  unfold Signal.pad_edge. rewrite !length_app, !repeat_length. lia.
Qed.

(** The slice [[-half_length - t : -half_length]] of an axis of
    [t + 2 width] entries keeps [t] of them, from position
    [2 width - half_length] on. *)
Lemma trim_slice {A : Type} (row : list A) (hl t w : Z) :
  len row = t + 2 * w -> 1 <= hl <= 2 * w -> 0 <= t ->
  py_slice row (Some (- hl - t)) (Some (- hl))
  = firstn (Z.to_nat t) (skipn (Z.to_nat (2 * w - hl)) row).
Proof.
  intros Hlen Hhl Ht. unfold py_slice, slice_bound. rewrite Hlen.
  destruct (Z.ltb_spec (- hl - t) 0) as [_ | Hbad]; [| lia].
  destruct (Z.ltb_spec (- hl) 0) as [_ | Hbad]; [| lia].
  rewrite !Z.max_r by lia. f_equal; f_equal; lia.
Qed.

Lemma trim_slice_length {A : Type} (row : list A) (hl t w : Z) :
  len row = t + 2 * w -> 1 <= hl <= 2 * w -> 0 <= t ->
  List.length (py_slice row (Some (- hl - t)) (Some (- hl))) = Z.to_nat t.
Proof.
  intros Hlen Hhl Ht. rewrite (@trim_slice A row hl t w Hlen Hhl Ht).
  rewrite length_firstn, length_skipn. unfold len in Hlen. lia.
Qed.

Lemma delta_passes_shape (order : nat) (window : list T) (m : matrix T) :
  mat_wf m ->
  List.length (Signal.delta_passes order window m) = order
  /\ Forall (fun d => mat_ncols d = mat_ncols m
                      /\ List.length (mat_rows d) = List.length (mat_rows m)
                      /\ mat_wf d)
       (Signal.delta_passes order window m).
Proof.
  revert m. induction order as [| order IH]; intros m Hwf;
    cbn [Signal.delta_passes].
  - split; [reflexivity | constructor].
  - set (m' := mat_map_rows (Signal.lfilter window) (mat_ncols m) m).
    assert (Hwf' : mat_wf m').
    { unfold mat_wf, m', mat_map_rows. cbn [mat_rows mat_ncols].
      apply Forall_forall. intros r Hin.
      apply in_map_iff in Hin. destruct Hin as [r0 [<- Hin0]].
      rewrite lfilter_length.
      unfold mat_wf in Hwf. rewrite Forall_forall in Hwf. apply Hwf. exact Hin0. }
    assert (Hrows : List.length (mat_rows m') = List.length (mat_rows m))
      by (unfold m', mat_map_rows; cbn [mat_rows]; apply length_map).
    destruct (IH m' Hwf') as [Hlen Hall]. split.
    + cbn [List.length]. rewrite Hlen. reflexivity.
    + constructor.
      * split; [reflexivity |]. split; assumption.
      * eapply Forall_impl; [| exact Hall].
        intros d [Hc [Hr Hw]]. cbn [mat_ncols] in Hc.
        split; [exact Hc |]. split; [lia | exact Hw].
Qed.

Lemma mapped_rows_present {U V : Type} (f : list U -> list V) (c : nat)
    (m : matrix U) :
  (1 <= List.length (mat_rows m))%nat ->
  Nat.eqb (List.length (mat_rows (mat_map_rows f c m))) 0 = false.
Proof.
  intros Hrows. apply Nat.eqb_neq. unfold mat_map_rows. cbn [mat_rows].
  rewrite length_map. lia.
Qed.

(** For a well-formed matrix of shape [(d, t)] with [d >= 1] and
    [t >= 1], an odd [width >= 3] and [order >= 1], [compute_delta] with
    [trim=True] returns [order] matrices of shape [(d, t)]. *)
Lemma compute_delta_shape (data : matrix T) (width order : Z) :
  mat_wf data -> (1 <= List.length (mat_rows data))%nat ->
  (1 <= mat_ncols data)%nat ->
  3 <= width -> width mod 2 = 1 -> 1 <= order ->
  exists deltas,
    Signal.compute_delta data width order true = Ok deltas
    /\ len deltas = order
    /\ Forall (fun d => mat_shape d = mat_shape data /\ mat_wf d) deltas.
Proof.
  intros Hwf Hd Ht Hw Hodd Horder. unfold Signal.compute_delta.
  destruct (Z.ltb_spec width 3) as [Hbad | _]; [lia |].
  rewrite Hodd. cbn [Z.eqb Pos.eqb negb orb].
  destruct (Z.leb_spec order 0) as [Hbad | _]; [lia |].
  destruct (Nat.eqb_spec (mat_ncols data) 0) as [Hbad | _]; [lia |].
  rewrite mapped_rows_present by exact Hd.
  set (t := mat_ncols data) in *.
  set (w := Z.to_nat width).
  set (padded := mat_map_rows (Signal.pad_edge w) (w + t + w) data).
  assert (Hpwf : mat_wf padded).
  { unfold mat_wf, padded, mat_map_rows. cbn [mat_rows mat_ncols].
    apply Forall_forall. intros r Hin.
    apply in_map_iff in Hin. destruct Hin as [r0 [<- Hin0]].
    unfold mat_wf in Hwf. rewrite Forall_forall in Hwf.
    specialize (Hwf r0 Hin0). fold t in Hwf.
    rewrite pad_edge_length; [lia |].
    intros ->. cbn in Hwf. lia. }
  destruct (@delta_passes_shape (Z.to_nat order) (Signal.delta_window width)
              padded Hpwf) as [Hcount Hall].
  pose proof (Z.div_mod width 2 ltac:(lia)) as Hdm. rewrite Hodd in Hdm.
  assert (Hhl : 1 <= Signal.half_length width <= 2 * width)
    by (unfold Signal.half_length; lia).
  eexists. split; [reflexivity |]. split.
  - unfold len. rewrite length_map, Hcount. lia.
  - apply Forall_forall. intros d Hin.
    apply in_map_iff in Hin. destruct Hin as [d0 [<- Hin0]].
    rewrite Forall_forall in Hall.
    destruct (Hall d0 Hin0) as [Hc [Hr Hw0]].
    unfold padded, mat_map_rows in Hc, Hr. cbn [mat_ncols mat_rows] in Hc, Hr.
    rewrite length_map in Hr.
    assert (Hcols : List.length
                      (py_slice (repeat tt (mat_ncols d0))
                         (Some (- Signal.half_length width - Z.of_nat t))
                         (Some (- Signal.half_length width))) = t).
    { rewrite (@trim_slice_length unit _ (Signal.half_length width) (Z.of_nat t) width); try lia.
      unfold len. rewrite repeat_length, Hc. unfold w. lia. }
    split.
    + unfold mat_shape. cbn [mat_rows mat_ncols].
      rewrite length_map, Hr, Hcols. reflexivity.
    + unfold mat_wf. cbn [mat_rows mat_ncols]. rewrite Hcols.
      apply Forall_forall. intros r Hinr.
      apply in_map_iff in Hinr. destruct Hinr as [r0 [<- Hinr0]].
      rewrite (@trim_slice_length T _ (Signal.half_length width) (Z.of_nat t) width); try lia.
      unfold mat_wf in Hw0. rewrite Forall_forall in Hw0.
      unfold len. rewrite (Hw0 r0 Hinr0), Hc. unfold w. lia.
Qed.

End DeltaShape.

(** ** Delta features: alignment of the first order *)

Section DeltaAlignment.

Context {T : Type} {N : Num T}.

Local Open Scope Z_scope.

Lemma last_is_nth (row : list T) (d e : T) :
  row <> [] -> last row d = nth (List.length row - 1) row e.
Proof.
  induction row as [| x row IH]; intros Hne; [contradiction |].
  destruct row as [| y row]; [reflexivity |].
  change (last (x :: y :: row) d) with (last (y :: row) d).
  rewrite IH by discriminate. cbn [List.length].
  replace (S (S (List.length row)) - 1)%nat with (S (List.length row)) by lia.
  cbn [nth]. replace (S (List.length row) - 1)%nat with (List.length row) by lia.
  reflexivity.
Qed.

(** Entry [width + j] of the padded row is the input continued by its
    border values, at [j]. *)
Lemma pad_edge_nth (width : nat) (row : list T) (j : Z) :
  row <> [] ->
  - Z.of_nat width <= j < len row + Z.of_nat width ->
  nth (Z.to_nat (Z.of_nat width + j)) (Signal.pad_edge width row) (num_of_Z 0)
  = edge_value row j.
Proof.
  intros Hne Hj. unfold edge_value.
  destruct row as [| x0 rest]; [contradiction |].
  assert (Hhead : forall d, nth 0 (x0 :: rest) d = x0) by reflexivity.
  change (Signal.pad_edge width (x0 :: rest))
    with (repeat x0 width ++ (x0 :: rest)
            ++ repeat (last (x0 :: rest) x0) width).
  set (row := x0 :: rest) in *. unfold len in *.
  assert (Hlen : (0 < List.length row)%nat) by (unfold row; cbn; lia).
  destruct (Z_lt_dec j 0) as [Hneg | Hpos].
  - (* in the left margin *)
    rewrite app_nth1 by (rewrite repeat_length; lia).
    rewrite nth_repeat_lt by lia.
    rewrite Z.max_l by lia. symmetry. apply Hhead.
  - rewrite app_nth2 by (rewrite repeat_length; lia).
    rewrite repeat_length.
    replace (Z.to_nat (Z.of_nat width + j) - width)%nat with (Z.to_nat j) by lia.
    destruct (Z_lt_dec j (Z.of_nat (List.length row))) as [Hin | Hout].
    + (* inside the row *)
      rewrite app_nth1 by lia.
      rewrite Z.min_r by lia. rewrite Z.max_r by lia. reflexivity.
    + (* in the right margin *)
      rewrite app_nth2 by lia.
      rewrite nth_repeat_lt by lia.
      rewrite Z.min_l by lia. rewrite Z.max_r by lia.
      rewrite (@last_is_nth row x0 (num_of_Z 0) Hne).
      f_equal. lia.
Qed.

Lemma lfilter_nth (b x : list T) (n : nat) :
  (n < List.length x)%nat -> (List.length b <= S n)%nat ->
  nth n (Signal.lfilter b x) (num_of_Z 0)
  = np_sum (map (fun k => num_mul (nth k b (num_of_Z 0))
                            (nth (n - k) x (num_of_Z 0)))
              (seq 0 (List.length b))).
Proof.
  intros Hn Hb. unfold Signal.lfilter.
  set (F := fun n0 : nat =>
              np_sum (map (fun k => num_mul (nth k b (num_of_Z 0))
                                      (nth (n0 - k) x (num_of_Z 0)))
                        (seq 0 (Nat.min (S n0) (List.length b))))).
  rewrite nth_indep with (d' := F 0%nat)
    by (rewrite length_map, length_seq; exact Hn).
  rewrite (map_nth F), seq_nth by exact Hn.
  unfold F. cbn [Nat.add]. rewrite Nat.min_r by exact Hb. reflexivity.
Qed.

Lemma delta_window_length (width : Z) :
  3 <= width -> width mod 2 = 1 ->
  List.length (Signal.delta_window (T := T) width) = Z.to_nat width.
Proof.
  intros Hw Hodd. unfold Signal.delta_window, Signal.raw_window.
  rewrite !length_map. unfold Signal.np_arange_down.
  rewrite length_map, length_seq. unfold Signal.half_length.
  pose proof (Z.div_mod width 2 ltac:(lia)) as Hdm. rewrite Hodd in Hdm.
  f_equal. lia.
Qed.

(** The trimmed output of one filter pass, entry by entry: entry [i] is
    the regression estimate centred at input frame [i]. *)
Lemma first_pass_row_aligned (row : list T) (width : Z) :
  row <> [] -> 3 <= width -> width mod 2 = 1 ->
  py_slice (Signal.lfilter (Signal.delta_window width)
              (Signal.pad_edge (Z.to_nat width) row))
    (Some (- Signal.half_length width - len row))
    (Some (- Signal.half_length width))
  = map (fun i => centred_delta (Signal.delta_window width) row (Z.of_nat i))
      (seq 0 (List.length row)).
Proof.
  intros Hne Hw Hodd.
  pose proof (Z.div_mod width 2 ltac:(lia)) as Hdm. rewrite Hodd in Hdm.
  pose proof (@delta_window_length width Hw Hodd) as Hwin.
  set (window := Signal.delta_window width) in *.
  set (padded := Signal.pad_edge (Z.to_nat width) row).
  assert (Hpad : List.length padded
                 = (Z.to_nat width + List.length row + Z.to_nat width)%nat)
    by (apply pad_edge_length; exact Hne).
  assert (Hhl : Signal.half_length width = 1 + width / 2) by reflexivity.
  assert (Hhalf : (len window - 1) / 2 = width / 2).
  { unfold len. rewrite Hwin. symmetry.
    apply Z.div_unique with (r := 0); lia. }
  rewrite (@trim_slice T (Signal.lfilter window padded)
             (Signal.half_length width) (len row) width);
    [| unfold len; rewrite lfilter_length, Hpad; lia | lia | apply len_nonneg].
  apply nth_ext with (d := num_of_Z 0) (d' := num_of_Z 0).
  - rewrite length_firstn, length_skipn, lfilter_length, Hpad.
    rewrite length_map, length_seq. unfold len. lia.
  - intros i Hi.
    rewrite length_firstn, length_skipn, lfilter_length, Hpad in Hi.
    unfold len in Hi.
    assert (Hit : (i < List.length row)%nat) by lia.
    rewrite nth_firstn.
    destruct (Nat.ltb_spec i (Z.to_nat (len row))) as [_ | Hbad];
      [| unfold len in Hbad; lia].
    rewrite nth_skipn.
    rewrite lfilter_nth by (rewrite ?Hpad, ?Hwin; lia).
    rewrite nth_indep with (d' := centred_delta window row (Z.of_nat 0))
      by (rewrite length_map, length_seq; exact Hit).
    rewrite (map_nth (fun i0 => centred_delta window row (Z.of_nat i0))).
    rewrite seq_nth by exact Hit. cbn [Nat.add].
    unfold centred_delta. f_equal.
    apply map_ext_in. intros k Hk. apply in_seq in Hk. f_equal.
    rewrite <- (@pad_edge_nth (Z.to_nat width) row
                  (Z.of_nat i + (len window - 1) / 2 - Z.of_nat k) Hne).
    + fold padded. f_equal. rewrite Hhalf. lia.
    + rewrite Hhalf. unfold len. lia.
Qed.

(** The first array [compute_delta] returns is aligned with its input:
    row by row, its entry [i] is the regression estimate centred at
    frame [i] of the input. *)
Lemma compute_delta_first_order_aligned (data : matrix T) (width order : Z) :
  mat_wf data -> (1 <= List.length (mat_rows data))%nat ->
  (1 <= mat_ncols data)%nat ->
  3 <= width -> width mod 2 = 1 -> 1 <= order ->
  exists first rest,
    Signal.compute_delta data width order true = Ok (first :: rest)
    /\ mat_rows first
       = map (fun row =>
                map (fun i => centred_delta (Signal.delta_window width) row
                                (Z.of_nat i))
                  (seq 0 (mat_ncols data)))
           (mat_rows data).
Proof.
  intros Hwf Hd Ht Hw Hodd Horder. unfold Signal.compute_delta.
  destruct (Z.ltb_spec width 3) as [Hbad | _]; [lia |].
  rewrite Hodd. cbn [Z.eqb Pos.eqb negb orb].
  destruct (Z.leb_spec order 0) as [Hbad | _]; [lia |].
  destruct (Nat.eqb_spec (mat_ncols data) 0) as [Hbad | _]; [lia |].
  rewrite mapped_rows_present by exact Hd.
  destruct (Z.to_nat order) as [| order'] eqn:Horder'; [lia |].
  cbn [Signal.delta_passes map].
  eexists. eexists. split; [reflexivity |].
  cbn [mat_rows mat_map_rows]. rewrite !map_map.
  apply map_ext_in. intros row Hin.
  unfold mat_wf in Hwf. rewrite Forall_forall in Hwf.
  specialize (Hwf row Hin).
  rewrite <- Hwf.
  replace (Z.of_nat (List.length row)) with (len row) by reflexivity.
  apply first_pass_row_aligned; try assumption.
  intros ->. cbn in Hwf. lia.
Qed.

End DeltaAlignment.

(** ** Delta features: the second order *)

Section DeltaSecondOrder.

Local Open Scope Q_scope.

Ltac by_evaluation := apply Qeq_bool_iff; vm_compute; reflexivity.

(** C9, on the code.  [compute_delta(data, width=9, order=2, trim=True)]
    returns two arrays of the shape of [data], and the first is aligned
    with the input; the second is not.  On six equal frames the first
    array is zero, so the estimate of its slope centred at frame 0 is
    zero, and the second array holds [-13/720] there: the second pass
    reads the start-up values of the first one, four frames to the left
    of where the trimmed window begins. *)
Theorem compute_delta_second_order_misaligned :
  exists d1 d2,
    Signal.compute_delta constant_signal 9 2 true = Ok [d1; d2]
    /\ mat_shape d1 = mat_shape constant_signal
    /\ mat_shape d2 = mat_shape constant_signal
    /\ Forall (fun x => x == 0) (only_row d1)
    /\ centred_delta (Signal.delta_window 9) (only_row d1) 0 == 0
    /\ nth 0 (only_row d2) 0 == - (13 # 720)
    /\ ~ nth 0 (only_row d2) 0
         == centred_delta (Signal.delta_window 9) (only_row d1) 0.
Proof.
  remember (Signal.compute_delta constant_signal 9 2 true) as r eqn:Hr.
  vm_compute in Hr. subst r.
  eexists. eexists. split; [reflexivity |].
  split; [reflexivity |]. split; [reflexivity |].
  cbn [only_row mat_rows]. split; [| split; [| split]].
  - repeat constructor; by_evaluation.
  - by_evaluation.
  - by_evaluation.
  - intros H. apply Qeq_bool_iff in H. vm_compute in H. discriminate H.
Qed.

(** On the squares the first array is [2 i] away from the borders, and
    entry [i] of the second array is the slope of the first centred at
    frame [i - 4], not at [i]. *)
Example second_order_reads_four_frames_back :
  let '(first, second) :=
    delta_rows (Signal.compute_delta squares_signal 9 2 true) in
  nth 10 first 0 == 20
  /\ Forall (fun i => nth i second 0
                      == centred_delta (Signal.delta_window 9) first
                           (Z.of_nat i - 4))
       (seq 8 21)
  /\ ~ nth 8 second 0 == centred_delta (Signal.delta_window 9) first 8.
Proof.
  remember (delta_rows (Signal.compute_delta squares_signal 9 2 true))
    as rows eqn:Hrows.
  vm_compute in Hrows. subst rows. cbv iota beta.
  split; [by_evaluation |]. split.
  - cbn [seq]. repeat constructor; by_evaluation.
  - intros H. apply Qeq_bool_iff in H. vm_compute in H. discriminate H.
Qed.

End DeltaSecondOrder.

(** The shape half of C9 for every input with a row and a frame: two
    arrays of shape [(d, t)]. *)
Example compute_delta_width9_order2_shape (data : matrix Q) :
  mat_wf data -> (1 <= List.length (mat_rows data))%nat ->
  (1 <= mat_ncols data)%nat ->
  exists d1 d2,
    Signal.compute_delta data 9 2 true = Ok [d1; d2]
    /\ mat_shape d1 = mat_shape data
    /\ mat_shape d2 = mat_shape data.
Proof.
  intros Hwf Hd Ht.
  destruct (@compute_delta_shape Q Num_Q data 9 2 Hwf Hd Ht)
    as [deltas [Hrun [Hcount Hall]]]; try lia; [reflexivity |].
  destruct deltas as [| d1 [| d2 [| d3 rest]]];
    try (unfold len in Hcount; cbn in Hcount; lia).
  exists d1, d2. split; [exact Hrun |].
  inversion Hall as [| ? ? [H1 _] Hall']. subst.
  inversion Hall' as [| ? ? [H2 _] _]. subst.
  split; assumption.
Qed.

(** * Further properties of signal.py and speech.py *)

(** ** Mel scale *)

Section MelScale.

Local Open Scope R_scope.

Lemma logstep_pos : 0 < Signal.logstep.
Proof.
  unfold Signal.logstep.
  assert (0 < ln 6.4) by (rewrite <- ln_1; apply ln_increasing; lra).
  lra.
Qed.

Lemma min_log_mel_value : Signal.min_log_mel = 15.
Proof.
  unfold Signal.min_log_mel, Signal.min_log_hz, Signal.f_min, Signal.f_sp.
  lra.
Qed.

Lemma ln_nondecreasing (x y : R) : 0 < x -> x <= y -> ln x <= ln y.
Proof.
  intros Hx [Hlt | ->]; [| lra]. left. apply ln_increasing; assumption.
Qed.

Lemma ln_ratio_nonneg (f : R) :
  f >= Signal.min_log_hz -> 0 <= ln (f / Signal.min_log_hz).
Proof.
  unfold Signal.min_log_hz. intros Hf.
  rewrite <- ln_1. apply ln_nondecreasing; lra.
Qed.

Lemma hz2mel_entry_inverse (f : R) :
  Signal.mel2hz_entry (Signal.hz2mel_entry f) = f.
Proof.
  pose proof logstep_pos as Hstep. pose proof min_log_mel_value as Hmel.
  unfold Signal.hz2mel_entry.
  destruct (Rge_dec f Signal.min_log_hz) as [Hlog | Hlin].
  - pose proof (ln_ratio_nonneg Hlog) as Hln.
    assert (Hq : 0 <= ln (f / Signal.min_log_hz) / Signal.logstep).
    { apply Rmult_le_pos; [exact Hln |].
      apply Rlt_le, Rinv_0_lt_compat, Hstep. }
    unfold Signal.mel2hz_entry.
    destruct (Rge_dec _ Signal.min_log_mel) as [_ | Hbad]; [| lra].
    replace (Signal.logstep
             * (Signal.min_log_mel + ln (f / Signal.min_log_hz) / Signal.logstep
                - Signal.min_log_mel))
      with (ln (f / Signal.min_log_hz)) by (field; lra).
    unfold Signal.min_log_hz in *. rewrite exp_ln by lra. field.
  - unfold Signal.mel2hz_entry.
    unfold Signal.min_log_hz, Signal.f_min, Signal.f_sp in *.
    destruct (Rge_dec _ Signal.min_log_mel) as [Hbad | _]; [lra | field].
Qed.

Lemma mel2hz_entry_inverse (m : R) :
  Signal.hz2mel_entry (Signal.mel2hz_entry m) = m.
Proof.
  pose proof logstep_pos as Hstep. pose proof min_log_mel_value as Hmel.
  unfold Signal.mel2hz_entry.
  destruct (Rge_dec m Signal.min_log_mel) as [Hlog | Hlin].
  - assert (Hexp : 1 <= exp (Signal.logstep * (m - Signal.min_log_mel))).
    { rewrite <- exp_0.
      destruct (Req_dec m Signal.min_log_mel) as [-> | Hne].
      - rewrite Rminus_diag, Rmult_0_r. lra.
      - apply Rlt_le, exp_increasing. apply Rmult_lt_0_compat; lra. }
    unfold Signal.hz2mel_entry, Signal.min_log_hz in *.
    destruct (Rge_dec _ 1000) as [_ | Hbad]; [| lra].
    replace (1000 * exp (Signal.logstep * (m - Signal.min_log_mel)) / 1000)
      with (exp (Signal.logstep * (m - Signal.min_log_mel))) by lra.
    rewrite ln_exp. field. lra.
  - unfold Signal.hz2mel_entry.
    unfold Signal.min_log_hz, Signal.f_min, Signal.f_sp in *.
    destruct (Rge_dec _ 1000) as [Hbad | _]; [lra | field].
Qed.

(** X1. [mel2hz] undoes [hz2mel] on every array of frequencies, below
    and above the 1000 Hz break. *)
Theorem mel2hz_hz2mel :
  forall frequencies : list R,
    Signal.mel2hz (Signal.hz2mel frequencies) = frequencies.
Proof.
  intros frequencies. unfold Signal.mel2hz, Signal.hz2mel.
  rewrite map_map. rewrite <- (map_id frequencies) at 2.
  apply map_ext. intros f. apply hz2mel_entry_inverse.
Qed.

(** X2. [hz2mel] undoes [mel2hz] on every array of mel values. *)
Theorem hz2mel_mel2hz :
  forall mels : list R,
    Signal.hz2mel (Signal.mel2hz mels) = mels.
Proof.
  intros mels. unfold Signal.mel2hz, Signal.hz2mel.
  rewrite map_map. rewrite <- (map_id mels) at 2.
  apply map_ext. intros m. apply mel2hz_entry_inverse.
Qed.

Lemma hz2mel_entry_increasing (f1 f2 : R) :
  f1 < f2 -> Signal.hz2mel_entry f1 < Signal.hz2mel_entry f2.
Proof.
  intros Hlt. pose proof logstep_pos as Hstep.
  pose proof min_log_mel_value as Hmel.
  unfold Signal.hz2mel_entry.
  destruct (Rge_dec f1 Signal.min_log_hz) as [H1 | H1];
    destruct (Rge_dec f2 Signal.min_log_hz) as [H2 | H2].
  - assert (ln (f1 / Signal.min_log_hz) < ln (f2 / Signal.min_log_hz)).
    { unfold Signal.min_log_hz in *. apply ln_increasing; lra. }
    assert (ln (f1 / Signal.min_log_hz) / Signal.logstep
            < ln (f2 / Signal.min_log_hz) / Signal.logstep).
    { apply Rmult_lt_compat_r; [apply Rinv_0_lt_compat, Hstep | assumption]. }
    lra.
  - unfold Signal.min_log_hz in *. lra.
  - pose proof (ln_ratio_nonneg H2) as Hln.
    assert (0 <= ln (f2 / Signal.min_log_hz) / Signal.logstep).
    { apply Rmult_le_pos; [exact Hln |].
      apply Rlt_le, Rinv_0_lt_compat, Hstep. }
    unfold Signal.min_log_hz, Signal.f_min, Signal.f_sp in *. lra.
  - unfold Signal.f_min, Signal.f_sp. lra.
Qed.

(** X3. Both conversions keep the order of their arguments: a higher
    frequency has a higher mel value, and a higher mel value a higher
    frequency. *)
Theorem mel_scale_increasing :
  forall x y : R,
    x < y ->
    Signal.hz2mel_entry x < Signal.hz2mel_entry y
    /\ Signal.mel2hz_entry x < Signal.mel2hz_entry y.
Proof.
  intros x y Hlt. split; [apply hz2mel_entry_increasing; exact Hlt |].
  destruct (Rlt_le_dec (Signal.mel2hz_entry x) (Signal.mel2hz_entry y))
    as [Hok | Hge]; [exact Hok |].
  exfalso.
  assert (Hmel : Signal.hz2mel_entry (Signal.mel2hz_entry y)
                 <= Signal.hz2mel_entry (Signal.mel2hz_entry x)).
  { destruct Hge as [Hgt | Heq].
    - left. apply hz2mel_entry_increasing. exact Hgt.
    - right. rewrite Heq. reflexivity. }
  rewrite !mel2hz_entry_inverse in Hmel. lra.
Qed.

End MelScale.

Lemma mel_scale_increasing_witness :
  (Signal.hz2mel_entry 440 < Signal.hz2mel_entry 4000)%R
  /\ (Signal.mel2hz_entry 440 < Signal.mel2hz_entry 4000)%R.
Proof.
  apply (@mel_scale_increasing 440%R 4000%R). lra.
Defined.

(** ** Padding *)

Section Padding.

Local Open Scope Z_scope.

(** X4. [pad_center] succeeds exactly when the target size is at least
    the length of the data.  It then returns [size] entries: the data
    with zeros on both sides, the right margin equal to the left one or
    longer by one.  A shorter target raises [ValueError]. *)
Theorem pad_center_spec :
  forall (T : Type) (N : Num T) (data : list T) (size : Z),
    (len data <= size ->
     exists lpad rpad : nat,
       Signal.pad_center data size
       = Ok (repeat (num_of_Z 0) lpad ++ data ++ repeat (num_of_Z 0) rpad)
       /\ Z.of_nat lpad + len data + Z.of_nat rpad = size
       /\ (lpad <= rpad <= lpad + 1)%nat)
    /\ (size < len data ->
        Signal.pad_center data size
        = Raise (ValueError "Target size must be at least input size")).
Proof.
  intros T N data size. unfold Signal.pad_center.
  pose proof (Z.div_mod (size - len data) 2 ltac:(lia)) as Hdm.
  pose proof (Z.mod_pos_bound (size - len data) 2 ltac:(lia)) as Hm.
  set (q := (size - len data) / 2) in *.
  set (r := (size - len data) mod 2) in *.
  clearbody q r.
  split; intros Hsize.
  - destruct (Z.ltb_spec q 0) as [Hneg | Hpos]; [lia |].
    eexists. eexists. split; [reflexivity |]. split; lia.
  - destruct (Z.ltb_spec q 0) as [_ | Hpos]; [reflexivity | lia].
Qed.

Lemma pad_center_spec_witness :
  (exists lpad rpad : nat,
     Signal.pad_center [1; 2; 3]%Q 6
     = Ok (repeat 0%Q lpad ++ [1; 2; 3]%Q ++ repeat 0%Q rpad)
     /\ Z.of_nat lpad + 3 + Z.of_nat rpad = 6
     /\ (lpad <= rpad <= lpad + 1)%nat)
  /\ Signal.pad_center [1; 2; 3]%Q 2
     = Raise (ValueError "Target size must be at least input size").
Proof.
  split.
  - apply (proj1 (@pad_center_spec Q Num_Q [1; 2; 3]%Q 6)).
    unfold len. cbn. lia.
  - apply (proj2 (@pad_center_spec Q Num_Q [1; 2; 3]%Q 2)).
    unfold len. cbn. lia.
Defined.

(** *** pad_sequences *)

Lemma np_broadcast_to_same {A : Type} (src : list A) (k : nat) :
  List.length src = k -> np_broadcast_to k src = Ok src.
Proof.
  intros <-. unfold np_broadcast_to. rewrite Nat.eqb_refl. reflexivity.
Qed.

Lemma py_slice_last {A : Type} (s : list A) (m : Z) :
  1 <= m <= len s ->
  py_slice s (Some (- m)) None = skipn (Z.to_nat (len s - m)) s.
Proof.
  intros Hm. unfold py_slice, slice_bound.
  destruct (Z.ltb_spec (- m) 0) as [_ | Hbad]; [| lia].
  rewrite Z.max_r by lia.
  replace (len s + - m) with (len s - m) by lia.
  apply firstn_all2. rewrite length_skipn. unfold len. lia.
Qed.

Lemma firstn_of_repeat {A : Type} (x : A) (k n : nat) :
  (k <= n)%nat -> firstn k (repeat x n) = repeat x k.
Proof.
  revert n. induction k as [| k IH]; intros [| n] Hk; cbn; try lia;
    [reflexivity | reflexivity |].
  f_equal. apply IH. lia.
Qed.

Lemma skipn_of_repeat {A : Type} (x : A) (k n : nat) :
  skipn k (repeat x n) = repeat x (n - k).
Proof.
  revert n. induction k as [| k IH]; intros [| n]; cbn; try reflexivity.
  apply IH.
Qed.

(** The row written for one sequence, when [maxlen >= 1]. *)
Lemma pad_sequences_row_spec {A : Type} (m : Z) (padding truncating : string)
    (tr : A -> A) (value : A) (s : list A) :
  1 <= m ->
  let s' := map tr s in
  Signal.pad_sequences_row m padding truncating tr
    (repeat value (Z.to_nat m)) s
  = Ok (pad_or_truncate m padding truncating value s').
Proof.
  intros Hm s'. unfold Signal.pad_sequences_row, pad_or_truncate. fold s'.
  pose proof (len_nonneg s') as Hs'.
  assert (Hrow : len (repeat value (Z.to_nat m)) = m)
    by (unfold len; rewrite repeat_length; lia).
  destruct (Z.eqb_spec (len s') 0) as [Hempty | Hne].
  - (* an empty sequence leaves the row as it is *)
    destruct (Z.geb_spec (len s') m) as [Hbad | _]; [lia |].
    rewrite Hempty, Z.sub_0_r.
    assert (s' = []) as -> by (destruct s'; [reflexivity | discriminate]).
    destruct (String.eqb padding "pre"); cbn [app];
      rewrite ?app_nil_r; reflexivity.
  - destruct (Z.geb_spec (len s') m) as [Hlong | Hshort].
    + (* truncation, then assignment to the whole row *)
      unfold Signal.np_assign_slice. rewrite Hrow.
      rewrite Z.max_r by lia. rewrite Z.sub_0_r.
      cbn [Z.to_nat firstn app].
      rewrite skipn_all2 by (rewrite repeat_length; lia).
      destruct (String.eqb truncating "pre").
      * rewrite py_slice_last by lia.
        rewrite np_broadcast_to_same
          by (rewrite length_skipn; unfold len in *; lia).
        cbn [bind]. rewrite app_nil_r. reflexivity.
      * rewrite py_slice_prefix by lia.
        rewrite np_broadcast_to_same
          by (rewrite length_firstn; unfold len in *; lia).
        cbn [bind]. rewrite app_nil_r. reflexivity.
    + (* padding: the sequence is written at one end of the row *)
      unfold Signal.np_assign_slice, slice_bound. rewrite Hrow.
      destruct (String.eqb padding "pre").
      * destruct (Z.ltb_spec (- len s') 0) as [_ | Hbad]; [| lia].
        rewrite Z.max_r by lia. rewrite Z.max_r by lia.
        rewrite np_broadcast_to_same by (unfold len in *; lia). cbn [bind].
        rewrite skipn_all2 by (rewrite repeat_length; lia).
        rewrite app_nil_r, firstn_of_repeat by lia.
        replace (m + - len s') with (m - len s') by lia. reflexivity.
      * destruct (Z.ltb_spec (len s') 0) as [Hbad | _]; [lia |].
        rewrite Z.min_r by lia. rewrite Z.max_r by lia. rewrite Z.sub_0_r.
        rewrite np_broadcast_to_same by (unfold len in *; lia). cbn [bind firstn app Z.to_nat].
        rewrite skipn_of_repeat.
        replace (Z.to_nat m - Z.to_nat (len s'))%nat
          with (Z.to_nat (m - len s')) by lia.
        reflexivity.
Qed.

Lemma pad_or_truncate_length {A : Type} (m : Z) (padding truncating : string)
    (value : A) (s : list A) :
  0 <= m -> len (pad_or_truncate m padding truncating value s) = m.
Proof.
  intros Hm. unfold pad_or_truncate, len.
  destruct (Z.geb_spec (Z.of_nat (List.length s)) m) as [Hlong | Hshort].
  - destruct (String.eqb truncating "pre");
      rewrite ?length_skipn, ?length_firstn; lia.
  - destruct (String.eqb padding "pre");
      rewrite length_app, repeat_length; lia.
Qed.

Lemma pad_sequences_rows_spec {A : Type} (m : Z) (padding truncating : string)
    (tr : A -> A) (value : A) (sequences : list (list A)) :
  1 <= m ->
  Signal.pad_sequences_rows m padding truncating tr value sequences
  = Ok (map (fun s => pad_or_truncate m padding truncating value (map tr s))
          sequences).
Proof.
  intros Hm. induction sequences as [| s rest IH];
    cbn [Signal.pad_sequences_rows map]; [reflexivity |].
  rewrite pad_sequences_row_spec by exact Hm.
  cbn [bind]. rewrite IH. reflexivity.
Qed.

(** X5. With a row length [maxlen >= 1] and both modes among ['pre'] and
    ['post'], [pad_sequences] returns one row per sequence, each of
    exactly [maxlen] entries: a longer sequence loses its first entries
    ([truncating='pre']) or its last ones (['post']); a shorter one is
    filled with [value] in front ([padding='pre']) or behind
    (['post']). *)
Theorem pad_sequences_spec :
  forall (A : Type) (sequences : list (list A)) (maxlen : Z)
         (padding truncating : string) (value : A)
         (transformer : option (A -> A)),
    Signal.is_pre_or_post padding = true ->
    Signal.is_pre_or_post truncating = true ->
    1 <= maxlen ->
    exists X,
      Signal.pad_sequences sequences (Some maxlen) padding truncating value
        transformer = Ok X
      /\ X = map (fun s => pad_or_truncate maxlen padding truncating value
                             (map (transformer_of transformer) s))
               sequences
      /\ len X = len sequences
      /\ Forall (fun row => len row = maxlen) X.
Proof.
  intros A sequences maxlen padding truncating value transformer
    Hpad Htrunc Hm.
  unfold Signal.pad_sequences. rewrite Hpad, Htrunc. cbn [negb bind].
  destruct (Z.ltb_spec maxlen 0) as [Hbad | _]; [lia |].
  fold (transformer_of transformer).
  rewrite pad_sequences_rows_spec by exact Hm.
  eexists. split; [reflexivity |]. split; [reflexivity |]. split.
  - unfold len. rewrite length_map. reflexivity.
  - apply Forall_forall. intros row Hin.
    apply in_map_iff in Hin. destruct Hin as [s [<- _]].
    apply pad_or_truncate_length. lia.
Qed.

Lemma pad_sequences_spec_witness :
  Signal.pad_sequences [[1; 2; 3; 4; 5]; [6]; []] (Some 3) "pre" "post" 0 None
  = Ok [[1; 2; 3]; [0; 0; 6]; [0; 0; 0]].
Proof.
  destruct (@pad_sequences_spec Z [[1; 2; 3; 4; 5]; [6]; []] 3
              "pre" "post" 0 None)
    as [X [Hrun [HX _]]]; [reflexivity | reflexivity | lia |].
  rewrite Hrun, HX. reflexivity.
Defined.

Lemma max_len_bounds {A : Type} (rest : list (list A)) (m0 : Z) :
  m0 <= fold_left (fun m s' => Z.max m (len s')) rest m0
  /\ Forall (fun s => len s
                      <= fold_left (fun m s' => Z.max m (len s')) rest m0)
       rest.
Proof.
  revert m0. induction rest as [| s rest IH]; intros m0; cbn [fold_left].
  - split; [lia | constructor].
  - destruct (IH (Z.max m0 (len s))) as [Hge Hall]. split; [lia |].
    constructor; [lia | exact Hall].
Qed.

(** A row for a sequence that fits: nothing is cut. *)
Lemma pad_sequences_row_fits {A : Type} (m : Z) (padding truncating : string)
    (tr : A -> A) (value : A) (s : list A) :
  len s <= m ->
  Signal.pad_sequences_row m padding truncating tr
    (repeat value (Z.to_nat m)) s
  = Ok (if String.eqb padding "pre"
        then repeat value (Z.to_nat (m - len s)) ++ map tr s
        else map tr s ++ repeat value (Z.to_nat (m - len s))).
Proof.
  intros Hfit.
  assert (Hlen : len (map tr s) = len s)
    by (unfold len; rewrite length_map; reflexivity).
  pose proof (len_nonneg s) as Hs.
  destruct (Z.eq_dec (len s) 0) as [Hempty | Hne].
  - (* an empty sequence: the row keeps its values *)
    assert (s = []) as -> by (destruct s; [reflexivity | discriminate]).
    unfold Signal.pad_sequences_row. cbn [map]. unfold len at 1. cbn [List.length Z.of_nat Z.eqb].
    unfold len. cbn [List.length Z.of_nat]. rewrite Z.sub_0_r.
    destruct (String.eqb padding "pre"); cbn [app]; rewrite ?app_nil_r;
      reflexivity.
  - rewrite pad_sequences_row_spec by lia.
    unfold pad_or_truncate. rewrite Hlen.
    destruct (Z.geb_spec (len s) m) as [Hlong | Hshort]; [| reflexivity].
    (* exactly as long as the row: nothing to cut and nothing to add *)
    assert (len s = m) as Heq by lia.
    rewrite Heq, Z.sub_diag. cbn [Z.to_nat repeat skipn app].
    rewrite app_nil_r, firstn_all2 by (rewrite length_map; unfold len in Heq; lia).
    destruct (String.eqb truncating "pre"), (String.eqb padding "pre");
      reflexivity.
Qed.

(** X6. With [maxlen=None] the rows are as long as the longest
    sequence and no entry is lost: each row is its sequence, filled
    with [value] in front or behind.  An empty list of sequences
    raises [ValueError]. *)
Theorem pad_sequences_default_maxlen :
  forall (A : Type) (sequences : list (list A))
         (padding truncating : string) (value : A)
         (transformer : option (A -> A)),
    Signal.is_pre_or_post padding = true ->
    Signal.is_pre_or_post truncating = true ->
    (sequences = [] ->
     Signal.pad_sequences sequences None padding truncating value transformer
     = Raise (ValueError "max() arg is an empty sequence"))
    /\ (sequences <> [] ->
        exists longest,
          Signal.max_len sequences = Ok longest
          /\ Forall (fun s => len s <= longest) sequences
          /\ Signal.pad_sequences sequences None padding truncating value
               transformer
             = Ok (map (fun s =>
                          if String.eqb padding "pre"
                          then repeat value (Z.to_nat (longest - len s))
                                 ++ map (transformer_of transformer) s
                          else map (transformer_of transformer) s
                                 ++ repeat value (Z.to_nat (longest - len s)))
                     sequences)).
Proof.
  intros A sequences padding truncating value transformer Hpad Htrunc.
  unfold Signal.pad_sequences. rewrite Hpad, Htrunc. cbn [negb].
  fold (transformer_of transformer).
  split.
  - intros ->. reflexivity.
  - intros Hne. destruct sequences as [| s0 rest]; [contradiction |].
    cbn [Signal.max_len bind].
    set (longest := fold_left (fun m s' => Z.max m (len s')) rest (len s0)).
    destruct (@max_len_bounds A rest (len s0)) as [Hfirst Hrest].
    fold longest in Hfirst, Hrest.
    assert (Hall : Forall (fun s => len s <= longest) (s0 :: rest))
      by (constructor; assumption).
    exists longest. split; [reflexivity |]. split; [exact Hall |].
    pose proof (len_nonneg s0) as H0.
    destruct (Z.ltb_spec longest 0) as [Hbad | _]; [lia |].
    clearbody longest. clear Hfirst Hrest Hne.
    induction Hall as [| s seqs Hs Hall IH];
      cbn [Signal.pad_sequences_rows map]; [reflexivity |].
    rewrite pad_sequences_row_fits by exact Hs.
    cbn [bind]. rewrite IH. reflexivity.
Qed.

Lemma pad_sequences_default_maxlen_witness :
  Signal.pad_sequences ([] : list (list Z)) None "pre" "pre" 0 None
  = Raise (ValueError "max() arg is an empty sequence")
  /\ Signal.pad_sequences [[1; 2]; [3; 4; 5]; []] None "post" "pre" 0 None
     = Ok [[1; 2; 0]; [3; 4; 5]; [0; 0; 0]].
Proof.
  split.
  - apply (proj1 (@pad_sequences_default_maxlen Z [] "pre" "pre" 0 None
                    eq_refl eq_refl)).
    reflexivity.
  - destruct (proj2 (@pad_sequences_default_maxlen Z [[1; 2]; [3; 4; 5]; []]
                       "post" "pre" 0 None eq_refl eq_refl))
      as [longest [Hmax [_ Hrun]]]; [discriminate |].
    rewrite Hrun. injection Hmax as <-. reflexivity.
Defined.

(** The checks at the head of [pad_sequences], and its corner
    [maxlen = 0]. *)
Lemma pad_sequences_rows_zero_post {A : Type} (padding : string)
    (tr : A -> A) (value : A) (sequences : list (list A)) :
  Signal.pad_sequences_rows 0 padding "post" tr value sequences
  = Ok (map (fun _ => []) sequences).
Proof.
  induction sequences as [| s rest IH];
    cbn [Signal.pad_sequences_rows map]; [reflexivity |].
  assert (Hrow : Signal.pad_sequences_row 0 padding "post" tr
                   (repeat value (Z.to_nat 0)) s = Ok []).
  { unfold Signal.pad_sequences_row.
    destruct (Z.eqb_spec (len (map tr s)) 0) as [_ | Hne]; [reflexivity |].
    pose proof (len_nonneg (map tr s)) as Hs.
    destruct (Z.geb_spec (len (map tr s)) 0) as [_ | Hbad]; [| lia].
    cbn [String.eqb Ascii.eqb Bool.eqb].
    rewrite py_slice_prefix by lia. reflexivity. }
  rewrite Hrow. cbn [bind]. rewrite IH. reflexivity.
Qed.

Lemma pad_sequences_rows_zero_pre {A : Type} (padding : string)
    (tr : A -> A) (value : A) (sequences : list (list A)) :
  Exists (fun s => 2 <= len s) sequences ->
  Signal.pad_sequences_rows 0 padding "pre" tr value sequences
  = Raise (ValueError "could not broadcast input array").
Proof.
  intros Hlong. induction sequences as [| s rest IH];
    [inversion Hlong |].
  cbn [Signal.pad_sequences_rows].
  assert (Hrow : (2 <= len s ->
                  Signal.pad_sequences_row 0 padding "pre" tr
                    (repeat value (Z.to_nat 0)) s
                  = Raise (ValueError "could not broadcast input array"))
                 /\ (len s < 2 ->
                     Signal.pad_sequences_row 0 padding "pre" tr
                       (repeat value (Z.to_nat 0)) s = Ok [])).
  { unfold Signal.pad_sequences_row.
    assert (Hlen : len (map tr s) = len s)
      by (unfold len; rewrite length_map; reflexivity).
    rewrite Hlen. pose proof (len_nonneg s) as Hs.
    assert (Hwhole : py_slice (map tr s) (Some (- 0)) None = map tr s).
    { unfold py_slice, slice_bound. cbn [Z.opp Z.ltb Z.compare].
      rewrite Z.min_r by apply len_nonneg. rewrite Z.sub_0_r.
      cbn [Z.to_nat skipn]. apply firstn_all2. unfold len. lia. }
    split; intros Hs2.
    - destruct (Z.eqb_spec (len s) 0) as [Hbad | _]; [lia |].
      destruct (Z.geb_spec (len s) 0) as [_ | Hbad]; [| lia].
      cbn [String.eqb Ascii.eqb Bool.eqb]. rewrite Hwhole.
      unfold Signal.np_assign_slice, np_broadcast_to.
      cbn [repeat Z.to_nat len List.length Z.of_nat Z.max Z.sub Z.opp Z.add Z.compare].
      destruct s as [| x [| y s]]; unfold len in Hs2; cbn in Hs2; try lia.
      reflexivity.
    - destruct (Z.eqb_spec (len s) 0) as [_ | Hne]; [reflexivity |].
      destruct (Z.geb_spec (len s) 0) as [_ | Hbad]; [| lia].
      cbn [String.eqb Ascii.eqb Bool.eqb]. rewrite Hwhole.
      destruct s as [| x [| y s]]; unfold len in Hs2, Hne; cbn in Hs2, Hne;
        try lia.
      reflexivity. }
  destruct Hrow as [Hraise Hok].
  destruct (Z_lt_dec (len s) 2) as [Hshort | Hlong2].
  - rewrite (Hok Hshort). cbn [bind].
    rewrite IH; [reflexivity |].
    inversion Hlong as [? ? Hhead | ? ? Htail]; [lia | exact Htail].
  - rewrite Hraise by lia. reflexivity.
Qed.

(** X7. [pad_sequences] refuses a mode other than ['pre'] and ['post']
    before it looks at the sequences, [truncating] first.  With
    [maxlen=0] and [truncating='post'] every row is empty, but with
    [truncating='pre'] the slice [s[-0:]] is the whole sequence, and a
    sequence of two entries or more makes the call fail in numpy's
    broadcasting. *)
Theorem pad_sequences_checks_and_zero_length :
  forall (A : Type) (sequences : list (list A)) (maxlen : option Z)
         (padding truncating : string) (value : A)
         (transformer : option (A -> A)),
    (Signal.is_pre_or_post truncating = false ->
     Signal.pad_sequences sequences maxlen padding truncating value transformer
     = Raise (ValueError "truncating must be 'pre' or 'post'"))
    /\ (Signal.is_pre_or_post truncating = true ->
        Signal.is_pre_or_post padding = false ->
        Signal.pad_sequences sequences maxlen padding truncating value
          transformer
        = Raise (ValueError "padding must be 'pre' or 'post'"))
    /\ (Signal.is_pre_or_post padding = true ->
        Signal.pad_sequences sequences (Some 0) padding "post" value
          transformer
        = Ok (map (fun _ => []) sequences))
    /\ (Signal.is_pre_or_post padding = true ->
        Exists (fun s => 2 <= len s) sequences ->
        Signal.pad_sequences sequences (Some 0) padding "pre" value
          transformer
        = Raise (ValueError "could not broadcast input array")).
Proof.
  intros A sequences maxlen padding truncating value transformer.
  unfold Signal.pad_sequences. repeat split.
  - intros ->. reflexivity.
  - intros -> ->. reflexivity.
  - intros ->. cbn [Signal.is_pre_or_post String.eqb Ascii.eqb Bool.eqb orb negb bind Z.ltb Z.compare].
    apply pad_sequences_rows_zero_post.
  - intros -> Hlong. cbn [Signal.is_pre_or_post String.eqb Ascii.eqb Bool.eqb orb negb bind Z.ltb Z.compare].
    apply pad_sequences_rows_zero_pre. exact Hlong.
Qed.

Lemma pad_sequences_checks_and_zero_length_witness :
  Signal.pad_sequences [[1; 2]; [3]] (Some 2) "post" "left" 0 None
  = Raise (ValueError "truncating must be 'pre' or 'post'")
  /\ Signal.pad_sequences [[1; 2]; [3]] (Some 2) "left" "post" 0 None
     = Raise (ValueError "padding must be 'pre' or 'post'")
  /\ Signal.pad_sequences [[1; 2]; [3]] (Some 0) "pre" "post" 0 None
     = Ok [[]; []]
  /\ Signal.pad_sequences [[1; 2]; [3]] (Some 0) "pre" "pre" 0 None
     = Raise (ValueError "could not broadcast input array").
Proof.
  pose proof (@pad_sequences_checks_and_zero_length Z [[1; 2]; [3]] (Some 2)
                "post" "left" 0 None) as [H1 _].
  pose proof (@pad_sequences_checks_and_zero_length Z [[1; 2]; [3]] (Some 2)
                "left" "post" 0 None) as [_ [H2 _]].
  pose proof (@pad_sequences_checks_and_zero_length Z [[1; 2]; [3]] None
                "pre" "pre" 0 None) as [_ [_ [H3 H4]]].
  split; [apply H1; reflexivity |].
  split; [apply H2; reflexivity |].
  split; [apply H3; reflexivity |].
  apply H4; [reflexivity |].
  constructor. unfold len. cbn. lia.
Defined.

End Padding.

(** ** The sensitivity mode *)

Section VadMode.

Local Open Scope R_scope.

Lemma set_vad_mode_range (mode : Signal.mode_arg)
    (st st' : Signal.module_state) :
  mode <> Signal.ModeNaN ->
  mode_in_range (Signal.current_vad_mode st) ->
  Signal.set_vad_mode mode st = Ok st' ->
  mode_in_range (Signal.current_vad_mode st').
Proof.
  intros Hnan Hst Hrun.
  destruct mode as [x | | | | |]; cbn [Signal.set_vad_mode] in Hrun;
    try discriminate; try contradiction;
    apply ok_injective in Hrun; subst st';
    cbn [Signal.current_vad_mode mode_in_range]; try lra; try exact Hst.
  unfold Rmin, Rmax.
  destruct (Rle_dec x 1); destruct (Rle_dec _ 2.4); lra.
Qed.

Lemma set_vad_modes_range (modes : list Signal.mode_arg)
    (st st' : Signal.module_state) :
  ~ In Signal.ModeNaN modes ->
  mode_in_range (Signal.current_vad_mode st) ->
  set_vad_modes modes st = Ok st' ->
  mode_in_range (Signal.current_vad_mode st').
Proof.
  revert st. induction modes as [| m modes IH]; intros st Hnan Hst Hrun;
    cbn [set_vad_modes] in Hrun.
  - apply ok_injective in Hrun. subst st'. exact Hst.
  - apply bind_ok_inv in Hrun. destruct Hrun as [st1 [Hcall Hrest]].
    apply (IH st1); [| | exact Hrest].
    + intros Hin. apply Hnan. right. exact Hin.
    + apply (@set_vad_mode_range m st st1); [| exact Hst | exact Hcall].
      intros ->. apply Hnan. left. reflexivity.
Qed.

(** X8. The sensitivity starts at 2.0 and stays a number in [1.0, 2.4]
    through every series of calls of [set_vad_mode] that passes no
    not-a-number: a number inside the range is stored, one below or
    above, an infinity included, stores the nearer bound, a complex
    number makes the call raise, and anything that is no number changes
    nothing.  A call with the not-a-number stores it, and the range is
    left. *)
Theorem vad_mode_in_range :
  forall (modes : list Signal.mode_arg) (mode : R) (st : Signal.module_state),
    (forall st',
       ~ In Signal.ModeNaN modes ->
       set_vad_modes modes Signal.initial_state = Ok st' ->
       mode_in_range (Signal.current_vad_mode st'))
    /\ (1 <= mode <= 2.4 ->
        Signal.set_vad_mode (Signal.ModeReal mode) st
        = Ok {| Signal.current_vad_mode := Signal.Finite mode |})
    /\ (mode < 1 ->
        Signal.set_vad_mode (Signal.ModeReal mode) st
        = Ok {| Signal.current_vad_mode := Signal.Finite 1 |})
    /\ (2.4 < mode ->
        Signal.set_vad_mode (Signal.ModeReal mode) st
        = Ok {| Signal.current_vad_mode := Signal.Finite 2.4 |})
    /\ Signal.set_vad_mode Signal.ModePosInf st
       = Ok {| Signal.current_vad_mode := Signal.Finite 2.4 |}
    /\ Signal.set_vad_mode Signal.ModeNegInf st
       = Ok {| Signal.current_vad_mode := Signal.Finite 1 |}
    /\ Signal.set_vad_mode Signal.ModeNaN st
       = Ok {| Signal.current_vad_mode := Signal.NaN |}
    /\ ~ mode_in_range Signal.NaN
    /\ is_ok (Signal.set_vad_mode Signal.ModeComplex st) = false
    /\ Signal.set_vad_mode Signal.ModeOther st = Ok st.
Proof.
  intros modes mode st.
  split; [| split; [| split; [| split; [| split; [| split; [| split;
    [| split; [| split]]]]]]]].
  - intros st' Hnan Hrun.
    apply (@set_vad_modes_range modes Signal.initial_state st' Hnan);
      [| exact Hrun].
    cbn. unfold Signal.VAD_MODE_STANDARD. lra.
  - intros Hin. cbn [Signal.set_vad_mode].
    rewrite Rmax_left by lra. rewrite Rmin_left by lra. reflexivity.
  - intros Hlow. cbn [Signal.set_vad_mode].
    rewrite Rmax_right by lra. rewrite Rmin_left by lra. reflexivity.
  - intros Hhigh. cbn [Signal.set_vad_mode].
    rewrite Rmax_left by lra. rewrite Rmin_right by lra. reflexivity.
  - reflexivity.
  - reflexivity.
  - reflexivity.
  - intros H. exact H.
  - reflexivity.
  - reflexivity.
Qed.

End VadMode.

Lemma vad_mode_in_range_witness :
  Signal.set_vad_mode (Signal.ModeReal 1.5%R) Signal.initial_state
  = Ok {| Signal.current_vad_mode := Signal.Finite 1.5%R |}
  /\ Signal.set_vad_mode (Signal.ModeReal 0%R) Signal.initial_state
     = Ok {| Signal.current_vad_mode := Signal.Finite 1%R |}
  /\ Signal.set_vad_mode (Signal.ModeReal 3%R) Signal.initial_state
     = Ok {| Signal.current_vad_mode := Signal.Finite 2.4%R |}
  /\ (forall st',
        set_vad_modes [Signal.ModeReal 3%R; Signal.ModeOther; Signal.ModeNegInf]
          Signal.initial_state = Ok st' ->
        mode_in_range (Signal.current_vad_mode st')).
Proof.
  split; [| split; [| split]].
  - apply (proj1 (proj2 (@vad_mode_in_range [] 1.5%R Signal.initial_state))).
    lra.
  - apply (proj1 (proj2 (proj2
             (@vad_mode_in_range [] 0%R Signal.initial_state)))).
    lra.
  - apply (proj1 (proj2 (proj2 (proj2
             (@vad_mode_in_range [] 3%R Signal.initial_state))))).
    lra.
  - intros st'.
    apply (proj1 (@vad_mode_in_range
                    [Signal.ModeReal 3%R; Signal.ModeOther; Signal.ModeNegInf]
                    0%R Signal.initial_state) st').
    intros [H | [H | [H | []]]]; discriminate.
Defined.

(** ** Decibel scaling: failures and order *)

Section PowerToDbMore.

Local Open Scope R_scope.

(** X9. [power2db] fails in exactly four cases: [amin <= 0]; a
    callable [ref] that raises on the magnitudes, as [np.max] does on an
    empty [S]; a negative [top_db]; and an empty [S] together with a
    [top_db], where the peak of an empty array is taken.  The exception
    of the callable is passed on as it is. *)
Theorem power2db_failures :
  forall (S_ : list R) (ref : Signal.ref_arg) (amin : R) (top_db : option R),
    (is_ok (Signal.power2db S_ ref amin top_db) = false
     <-> (amin <= 0
          \/ ref_raises ref S_ = true
          \/ exists top, top_db = Some top /\ (top < 0 \/ S_ = [])))
    /\ (forall f e,
          0 < amin -> ref = Signal.RefCallable f ->
          f (map Rabs S_) = Raise e ->
          Signal.power2db S_ ref amin top_db = Raise e).
Proof.
  intros S_ ref amin top_db. split.
  - unfold Signal.power2db, ref_raises.
    destruct (Rle_dec amin 0) as [Hamin | Hamin].
    { split; [intros _; left; exact Hamin | reflexivity]. }
    assert (Hlate : forall ref_value : R,
      is_ok
        (match top_db with
         | None =>
             Ok (map (fun x => x - 10 * Signal.log10 (Rmax amin ref_value))
                   (map (fun m => 10 * Signal.log10 (Rmax amin m))
                      (map Rabs S_)))
         | Some top =>
             if Rlt_dec top 0
             then Raise (ValueError "top_db must be non-negative")
             else
               bind
                 (Signal.np_max
                    (map (fun x =>
                            x - 10 * Signal.log10 (Rmax amin ref_value))
                       (map (fun m => 10 * Signal.log10 (Rmax amin m))
                          (map Rabs S_))))
                 (fun peak =>
                    Ok (map (fun x => Rmax x (peak - top))
                          (map (fun x =>
                                  x - 10 * Signal.log10 (Rmax amin ref_value))
                             (map (fun m => 10 * Signal.log10 (Rmax amin m))
                                (map Rabs S_)))))
         end) = false
      <-> exists top, top_db = Some top /\ (top < 0 \/ S_ = [])).
    { intros ref_value. destruct top_db as [top |].
      - destruct (Rlt_dec top 0) as [Htop | Htop].
        + split; [intros _ | reflexivity].
          exists top. split; [reflexivity | left; exact Htop].
        + destruct S_ as [| x rest].
          * split; [intros _ | reflexivity].
            exists top. split; [reflexivity | right; reflexivity].
          * split; [discriminate |].
            intros [top' [Heq [Hbad | Hbad]]];
              [injection Heq as <-; lra | discriminate].
      - split; [discriminate |]. intros [top' [Heq _]]. discriminate. }
    destruct ref as [r | f].
    + cbn [bind]. rewrite Hlate.
      split; [intros H; right; right; exact H |].
      intros [Hbad | [Hbad | H]]; [lra | discriminate | exact H].
    + destruct (f (map Rabs S_)) as [ref_value | e]; cbn [bind is_ok negb].
      * rewrite Hlate.
        split; [intros H; right; right; exact H |].
        intros [Hbad | [Hbad | H]]; [lra | discriminate | exact H].
      * split; [intros _; right; left; reflexivity | reflexivity].
  - intros f e Hamin -> Hf. unfold Signal.power2db.
    destruct (Rle_dec amin 0) as [Hbad | _]; [lra |].
    rewrite Hf. reflexivity.
Qed.

Lemma power2db_failures_witness :
  is_ok (Signal.power2db [] (Signal.RefScalar 1) 1 (Some 80)) = false
  /\ is_ok (Signal.power2db [1] (Signal.RefScalar 1) 0 None) = false
  /\ is_ok (Signal.power2db [] (Signal.RefCallable Signal.np_max) 1 None)
     = false.
Proof.
  split; [| split].
  - apply (proj2 (proj1 (@power2db_failures [] (Signal.RefScalar 1) 1
                           (Some 80)))).
    right. right. exists 80. split; [reflexivity | right; reflexivity].
  - apply (proj2 (proj1 (@power2db_failures [1] (Signal.RefScalar 1) 0 None))).
    left. lra.
  - apply (proj2 (proj1 (@power2db_failures []
                           (Signal.RefCallable Signal.np_max) 1 None))).
    right. left. reflexivity.
Defined.

Lemma log10_nondecreasing (x y : R) :
  0 < x -> x <= y -> Signal.log10 x <= Signal.log10 y.
Proof.
  intros Hx Hxy. unfold Signal.log10.
  assert (Hten : 0 < ln 10) by (rewrite <- ln_1; apply ln_increasing; lra).
  apply Rmult_le_compat_r; [left; apply Rinv_0_lt_compat, Hten |].
  apply ln_nondecreasing; assumption.
Qed.

(** X10. [power2db] keeps the order of the magnitudes, with or without
    clipping and for a scalar or a computed reference: an entry of
    larger magnitude never gets the smaller value. *)
Theorem power2db_monotone :
  forall (S_ : list R) (ref : Signal.ref_arg) (amin : R) (top_db : option R)
         (out : list R) (i j : nat),
    Signal.power2db S_ ref amin top_db = Ok out ->
    (i < List.length S_)%nat -> (j < List.length S_)%nat ->
    Rabs (nth i S_ 0) <= Rabs (nth j S_ 0) ->
    List.length out = List.length S_ /\ nth i out 0 <= nth j out 0.
Proof.
  intros S_ ref amin top_db out i j Hrun Hi Hj Hmag.
  unfold Signal.power2db in Hrun.
  destruct (Rle_dec amin 0) as [Hbad | Hamin]; [discriminate |].
  apply Rnot_le_lt in Hamin.
  destruct (match ref with
            | Signal.RefScalar r => Ok (Rabs r)
            | Signal.RefCallable f => f (map Rabs S_)
            end) as [ref_value | e]; [| discriminate].
  cbn [bind] in Hrun.
  set (c := 10 * Signal.log10 (Rmax amin ref_value)) in *.
  rewrite !map_map in Hrun.
  set (g := fun x => 10 * Signal.log10 (Rmax amin (Rabs x)) - c) in *.
  assert (Hg : g (nth i S_ 0) <= g (nth j S_ 0)).
  { unfold g.
    assert (Signal.log10 (Rmax amin (Rabs (nth i S_ 0)))
            <= Signal.log10 (Rmax amin (Rabs (nth j S_ 0)))).
    { apply log10_nondecreasing.
      - apply Rlt_le_trans with amin; [exact Hamin | apply Rmax_l].
      - apply Rle_max_compat_l. exact Hmag. }
    lra. }
  assert (Hnth : forall (h : R -> R) k,
            (k < List.length S_)%nat -> nth k (map h S_) 0 = h (nth k S_ 0)).
  { intros h k Hk. rewrite nth_indep with (d' := h 0)
      by (rewrite length_map; exact Hk).
    apply map_nth. }
  destruct top_db as [top |].
  - destruct (Rlt_dec top 0) as [Hbad | _]; [discriminate |].
    destruct (Signal.np_max (map g S_)) as [peak | e]; [| discriminate].
    cbn [bind] in Hrun. rewrite map_map in Hrun. injection Hrun as <-.
    split; [apply length_map |].
    rewrite !(Hnth (fun x => Rmax (g x) (peak - top))) by assumption.
    apply Rle_max_compat_r. exact Hg.
  - injection Hrun as <-. split; [apply length_map |].
    rewrite !(Hnth g) by assumption. exact Hg.
Qed.

End PowerToDbMore.

Lemma power2db_example_runs :
  exists out,
    Signal.power2db [3; -5]%R (Signal.RefScalar 1%R) 1%R (Some 80%R) = Ok out.
Proof.
  unfold Signal.power2db.
  destruct (Rle_dec 1 0) as [Hbad | _]; [lra |].
  cbn [bind].
  destruct (Rlt_dec 80 0) as [Hbad | _]; [lra |].
  cbn [map Signal.np_max bind]. eexists. reflexivity.
Qed.

Lemma power2db_monotone_witness :
  exists out,
    Signal.power2db [3; -5]%R (Signal.RefScalar 1%R) 1%R (Some 80%R) = Ok out
    /\ List.length out = 2%nat
    /\ (nth 0 out 0 <= nth 1 out 0)%R.
Proof.
  destruct power2db_example_runs as [out Hrun].
  exists out. split; [exact Hrun |].
  apply (@power2db_monotone [3; -5]%R (Signal.RefScalar 1%R) 1%R (Some 80%R)
           out 0%nat 1%nat Hrun); cbn; try lia.
  rewrite Rabs_right by lra. rewrite Rabs_left by lra. lra.
Defined.

(** ** Frame segmentation: short signals, padding and wrapping *)

Section SegmentEdges.

Local Open Scope Z_scope.

Context {A : Type}.

(** X11. With accepted parameters, an empty signal fails an assertion
    whatever the edge policy is, and under ['cut'] a signal shorter
    than a frame raises the [ValueError] that asks for more data. *)
Theorem segment_axis_short_signal :
  forall (a : list A) (frame_length hop_length : Z)
         (end_ : Signal.end_policy) (endvalue : A) (endmode : Signal.end_mode),
    0 < hop_length <= frame_length ->
    (len a = 0 ->
     Signal.segment_axis a frame_length hop_length end_ endvalue endmode
     = Raise AssertionError)
    /\ (1 <= len a < frame_length ->
        Signal.segment_axis a frame_length hop_length Signal.Cut endvalue
          endmode
        = Raise (ValueError "Not enough data points to segment array in 'cut' mode; try 'pad' or 'wrap'")).
Proof.
  intros a fl hop end_ endvalue endmode Hhop.
  unfold Signal.segment_axis.
  destruct (parameter_checks_pass Hhop) as [Hc1 Hc2]. rewrite Hc1, Hc2.
  replace (fl - (fl - hop)) with hop by lia.
  split; intros HL.
  - rewrite HL.
    destruct (Z.ltb_spec 0 fl) as [_ | Hbad]; [| lia]. cbn [orb].
    unfold Signal.round_lengths.
    destruct (Z.gtb_spec 0 fl) as [Hbad | _]; [lia |].
    reflexivity.
  - destruct (Z.ltb_spec (len a) fl) as [_ | Hbad]; [| lia]. cbn [orb].
    unfold Signal.round_lengths.
    destruct (Z.gtb_spec (len a) fl) as [Hbad | _]; [lia |].
    destruct (Z.ltb_spec 0 (len a)) as [_ | Hbad]; [| lia].
    destruct (Z.ltb_spec (len a) fl) as [_ | Hbad]; [| lia].
    cbn [andb]. rewrite Z.eqb_refl. cbn [Z.eqb andb].
    rewrite orb_true_r. cbn [bind].
    rewrite py_slice_prefix by lia. reflexivity.
Qed.

Lemma np_broadcast_to_length (k : nat) (src fill : list A) :
  np_broadcast_to k src = Ok fill -> List.length fill = k.
Proof.
  unfold np_broadcast_to.
  destruct (Nat.eqb_spec (List.length src) k) as [Heq | Hne].
  - intros H. injection H as <-. exact Heq.
  - destruct src as [| x [| y src]]; intros H; try discriminate.
    injection H as <-. apply repeat_length.
Qed.

Lemma extended_length (endmode : Signal.end_mode) (a fill : list A) :
  len (extended endmode a fill) = len a + len fill.
Proof.
  unfold len. destruct endmode; cbn [extended]; rewrite length_app; lia.
Qed.

(** A signal that fits is framed as it is. *)
Lemma segment_axis_fitting (a : list A) (fl hop : Z)
    (end_ : Signal.end_policy) (endvalue : A) (endmode : Signal.end_mode) :
  0 < hop <= fl -> fl <= len a -> (len a - fl) mod hop = 0 ->
  Signal.segment_axis a fl hop end_ endvalue endmode
  = Ok (Signal.strided_frames a (1 + (len a - fl) / hop) fl hop).
Proof.
  intros Hhop HL Hfit. unfold Signal.segment_axis.
  destruct (parameter_checks_pass Hhop) as [Hc1 Hc2]. rewrite Hc1, Hc2.
  replace (fl - (fl - hop)) with hop by lia.
  destruct (Z.ltb_spec (len a) fl) as [Hbad | _]; [lia |].
  rewrite Hfit. cbn [Z.eqb negb orb bind].
  destruct (Z.eqb_spec (len a) 0) as [Hbad | _]; [lia |].
  destruct (Z.geb_spec (len a) fl) as [_ | Hbad]; [| lia].
  rewrite Hfit. reflexivity.
Qed.

(** A signal that does not fit is extended under ['pad'] and ['wrap'],
    by what numpy's broadcasting makes of the source of the fill. *)
Lemma segment_axis_not_fitting (a : list A) (fl hop : Z)
    (end_ : Signal.end_policy) (endvalue : A) (endmode : Signal.end_mode) :
  0 < hop <= fl -> 1 <= len a ->
  len a < fl \/ (len a - fl) mod hop <> 0 ->
  end_ <> Signal.Cut ->
  let k := missing_samples (len a) fl hop in
  0 < k
  /\ (len a + k - fl) mod hop = 0
  /\ fl <= len a + k
  /\ (fl <= len a -> k < hop)
  /\ Signal.segment_axis a fl hop end_ endvalue endmode
     = bind (np_broadcast_to (Z.to_nat k) (fill_source end_ endvalue a k))
         (fun fill =>
            Ok (Signal.strided_frames (extended endmode a fill)
                  (1 + (len a + k - fl) / hop) fl hop)).
Proof.
  intros Hhop HL Hnofit Hend k.
  set (L := len a) in *.
  assert (Hm : 0 <= (L - fl) mod hop < hop) by (apply Z.mod_pos_bound; lia).
  assert (Hdm : L - fl = hop * ((L - fl) / hop) + (L - fl) mod hop)
    by (apply Z.div_mod; lia).
  set (q := (L - fl) / hop) in *. set (r := (L - fl) mod hop) in *.
  (* the rounding step *)
  assert (Hround : exists roundup rounddown,
             Signal.round_lengths L fl (fl - hop) = (roundup, rounddown)
             /\ roundup = L + k
             /\ rounddown < L < roundup
             /\ (roundup = rounddown + hop \/ (roundup = fl /\ rounddown = 0))
             /\ (roundup - fl) mod hop = 0 /\ fl <= roundup
             /\ (fl <= L -> k < hop)).
  { unfold Signal.round_lengths, k, missing_samples. fold L.
    replace (fl - (fl - hop)) with hop by lia. fold q.
    destruct (Z.gtb_spec L fl) as [Hgt | Hle].
    - destruct (Z.ltb_spec L fl) as [Hbad | _]; [lia |].
      assert (Hr : r <> 0) by (destruct Hnofit; [lia | assumption]).
      assert (Hk : (fl - L) mod hop = hop - r).
      { symmetry. apply Z.mod_unique with (q := - (q + 1)); lia. }
      rewrite Hk. eexists. eexists. split; [reflexivity |].
      split; [nia |]. split; [nia |]. split; [left; nia |].
      split; [| split; [nia | lia]].
      replace (fl + (1 + q) * hop - fl) with ((1 + q) * hop) by lia.
      apply Z.mod_mul. lia.
    - assert (Hlt : L < fl).
      { destruct Hnofit as [Hlt | Hr]; [exact Hlt |].
        destruct (Z_lt_dec L fl) as [Hlt | Hge]; [exact Hlt |].
        exfalso. assert (L = fl) by lia. subst r.
        replace (L - fl) with 0 in Hr by lia.
        rewrite Z.mod_0_l in Hr by lia. contradiction. }
      destruct (Z.ltb_spec L fl) as [_ | Hbad]; [| lia].
      eexists. eexists. split; [reflexivity |].
      split; [lia |]. split; [lia |]. split; [right; lia |].
      split; [| split; lia].
      rewrite Z.sub_diag. apply Z.mod_0_l. lia. }
  destruct Hround as [roundup [rounddown
    [Hrl [Hup [Hbetween [Hassert [Hfits [Hfl Hsmall]]]]]]]].
  assert (Hk : k = roundup - L) by lia.
  split; [lia |]. split; [rewrite <- Hup; exact Hfits |].
  split; [lia |]. split; [exact Hsmall |].
  unfold Signal.segment_axis.
  destruct (parameter_checks_pass Hhop) as [Hc1 Hc2]. rewrite Hc1, Hc2.
  fold L. replace (fl - (fl - hop)) with hop by lia. fold r.
  assert (Hcond : (L <? fl) || negb (r =? 0) = true).
  { destruct Hnofit as [Hlt | Hr].
    - destruct (Z.ltb_spec L fl); [reflexivity | lia].
    - destruct (Z.eqb_spec r 0); [contradiction |]. apply orb_true_r. }
  rewrite Hcond.
  replace (Signal.round_lengths L fl (fl - hop)) with (roundup, rounddown).
  destruct (Z.ltb_spec rounddown L) as [_ | Hbad]; [| lia].
  destruct (Z.ltb_spec L roundup) as [_ | Hbad]; [| lia].
  cbn [andb].
  assert (Hsecond : (roundup =? rounddown + hop)
                    || ((roundup =? fl) && (rounddown =? 0)) = true).
  { destruct Hassert as [H1 | [H1 H2]].
    - rewrite (proj2 (Z.eqb_eq _ _) H1). reflexivity.
    - rewrite (proj2 (Z.eqb_eq _ _) H1), (proj2 (Z.eqb_eq _ _) H2).
      apply orb_true_r. }
  rewrite Hsecond. rewrite <- Hk.
  assert (Htail : forall fill,
            List.length fill = Z.to_nat k ->
            (let length := len (extended endmode a fill) in
             if length =? 0 then
               Raise (ValueError "Not enough data points to segment array in 'cut' mode; try 'pad' or 'wrap'")
             else
               assert (length >=? fl) ;;
               assert ((length - fl) mod hop =? 0) ;;
               Ok (Signal.strided_frames (extended endmode a fill)
                     (1 + (length - fl) / hop) fl hop))%py
            = Ok (Signal.strided_frames (extended endmode a fill)
                    (1 + (L + k - fl) / hop) fl hop)).
  { intros fill Hfill. cbv zeta.
    rewrite extended_length. fold L.
    replace (len fill) with k by (unfold len; lia).
    destruct (Z.eqb_spec (L + k) 0) as [Hbad | _]; [lia |].
    destruct (Z.geb_spec (L + k) fl) as [_ | Hbad]; [| lia].
    rewrite <- Hup, Hfits. reflexivity. }
  destruct end_; [contradiction | |]; cbn [fill_source];
    destruct (np_broadcast_to (Z.to_nat k) _) as [fill | e] eqn:Hfill;
    cbn [bind]; try reflexivity;
    apply np_broadcast_to_length in Hfill;
    specialize (Htail fill Hfill);
    destruct endmode; cbn [bind extended] in *; exact Htail.
Qed.

Lemma py_slice_whole (a : list A) (k : Z) :
  len a <= k -> py_slice a None (Some k) = a.
Proof.
  intros Hk. pose proof (len_nonneg a) as Ha. unfold py_slice, slice_bound.
  destruct (Z.ltb_spec k 0) as [Hbad | _]; [lia |].
  rewrite Z.min_l by lia. rewrite Z.sub_0_r. cbn [Z.to_nat skipn].
  apply firstn_all2. unfold len. lia.
Qed.

Lemma np_broadcast_scalar (k : nat) (x : A) :
  np_broadcast_to k [x] = Ok (repeat x k).
Proof.
  unfold np_broadcast_to. cbn [List.length].
  destruct (Nat.eqb_spec 1 k) as [<- | _]; reflexivity.
Qed.

Lemma extended_nil (endmode : Signal.end_mode) (a : list A) :
  extended endmode a [] = a.
Proof.
  destruct endmode; cbn [extended app]; [apply app_nil_r | reflexivity].
Qed.

Lemma missing_samples_fitting (L fl hop : Z) :
  0 < hop -> fl <= L -> (L - fl) mod hop = 0 -> missing_samples L fl hop = 0.
Proof.
  intros Hhop HL Hfit. unfold missing_samples.
  destruct (Z.ltb_spec L fl) as [Hbad | _]; [lia |].
  pose proof (Z.div_mod (L - fl) hop ltac:(lia)) as Hdm. rewrite Hfit in Hdm.
  symmetry. apply Z.mod_unique with (q := - ((L - fl) / hop)); lia.
Qed.

(** Whether a signal fits or not, and whatever fills the added cells. *)
Lemma segment_axis_extended (a : list A) (fl hop : Z)
    (end_ : Signal.end_policy) (endvalue : A) (endmode : Signal.end_mode)
    (fill : list A) :
  0 < hop <= fl -> 1 <= len a -> end_ <> Signal.Cut ->
  let k := missing_samples (len a) fl hop in
  (k = 0 -> fill = []) ->
  (0 < k ->
   np_broadcast_to (Z.to_nat k) (fill_source end_ endvalue a k) = Ok fill) ->
  0 <= k /\ (fl <= len a -> k < hop)
  /\ Signal.segment_axis a fl hop end_ endvalue endmode
     = Ok (Signal.strided_frames (extended endmode a fill)
             (1 + (len a + k - fl) / hop) fl hop)
  /\ len (Signal.strided_frames (extended endmode a fill)
            (1 + (len a + k - fl) / hop) fl hop)
     = 1 + (len a + k - fl) / hop
  /\ Forall (fun f => len f = fl)
       (Signal.strided_frames (extended endmode a fill)
          (1 + (len a + k - fl) / hop) fl hop).
Proof.
  intros Hhop HL Hend k Hzero Hfill.
  assert (Hcases : (fl <= len a /\ (len a - fl) mod hop = 0)
                   \/ (len a < fl \/ (len a - fl) mod hop <> 0)).
  { destruct (Z_lt_dec (len a) fl); [right; left; assumption |].
    destruct (Z.eq_dec ((len a - fl) mod hop) 0); [left | right; right];
      try split; try assumption; lia. }
  assert (Hframes : forall k0,
            0 <= k0 -> len fill = k0 -> (len a + k0 - fl) mod hop = 0 ->
            fl <= len a + k0 ->
            len (Signal.strided_frames (extended endmode a fill)
                   (1 + (len a + k0 - fl) / hop) fl hop)
            = 1 + (len a + k0 - fl) / hop
            /\ Forall (fun f => len f = fl)
                 (Signal.strided_frames (extended endmode a fill)
                    (1 + (len a + k0 - fl) / hop) fl hop)).
  { intros k0 Hk0 Hlen Hmod Hfl.
    assert (Hq : 0 <= (len a + k0 - fl) / hop) by (apply Z.div_pos; lia).
    pose proof (Z.div_mod (len a + k0 - fl) hop ltac:(lia)) as Hdm.
    rewrite Hmod in Hdm. split.
    - apply strided_frames_count. lia.
    - apply strided_frames_in_bounds; try lia.
      rewrite extended_length, Hlen. nia. }
  destruct Hcases as [[Hge Hfit] | Hnofit].
  - assert (Hk : k = 0) by (apply missing_samples_fitting; [lia | assumption ..]).
    rewrite (Hzero Hk), extended_nil, Hk, Z.add_0_r.
    split; [lia |]. split; [lia |].
    split; [apply segment_axis_fitting; assumption |].
    specialize (Hframes 0 ltac:(lia)).
    rewrite (Hzero Hk), extended_nil, Z.add_0_r in Hframes.
    apply Hframes; [reflexivity | assumption | lia].
  - destruct (@segment_axis_not_fitting a fl hop end_ endvalue endmode
                Hhop HL Hnofit Hend) as [Hpos [Hmod [Hfl [Hsmall Hrun]]]].
    fold k in Hpos, Hmod, Hfl, Hsmall, Hrun.
    split; [lia |]. split; [exact Hsmall |].
    rewrite Hrun, (Hfill Hpos). cbn [bind]. split; [reflexivity |].
    apply Hframes; try assumption; try lia.
    pose proof (np_broadcast_to_length _ _ (Hfill Hpos)) as Hlen.
    unfold len. lia.
Qed.

(** X12. Under ['pad'] no sample is dropped.  A signal of at least one
    sample is extended by [k] copies of [endvalue], none when it fits,
    fewer than [hop_length] when it is at least a frame long, else up
    to one frame, and the result is cut into frames of [frame_length]
    every [hop_length].  The copies come behind the signal for
    [endmode='pre'] and in front of it for [endmode='post']. *)
Theorem segment_axis_pad :
  forall (a : list A) (frame_length hop_length : Z) (endvalue : A)
         (endmode : Signal.end_mode),
    0 < hop_length <= frame_length -> 1 <= len a ->
    let k := missing_samples (len a) frame_length hop_length in
    let padded := extended endmode a (repeat endvalue (Z.to_nat k)) in
    let frames :=
      Signal.strided_frames padded
        (1 + (len a + k - frame_length) / hop_length) frame_length
        hop_length in
    Signal.segment_axis a frame_length hop_length Signal.Pad endvalue endmode
    = Ok frames
    /\ 0 <= k /\ (frame_length <= len a -> k < hop_length)
    /\ len padded = len a + k
    /\ len frames = 1 + (len a + k - frame_length) / hop_length
    /\ Forall (fun f => len f = frame_length) frames.
Proof.
  intros a fl hop endvalue endmode Hhop HL k padded frames.
  destruct (@segment_axis_extended a fl hop Signal.Pad endvalue endmode
              (repeat endvalue (Z.to_nat k)) Hhop HL)
    as [Hk [Hsmall [Hrun [Hcount Hsize]]]].
  - discriminate.
  - fold k. intros ->. reflexivity.
  - intros _. apply np_broadcast_scalar.
  - fold k in Hk, Hsmall, Hrun, Hcount, Hsize.
    split; [exact Hrun |]. split; [exact Hk |]. split; [exact Hsmall |].
    split; [| split; assumption].
    unfold padded. rewrite extended_length. unfold len.
    rewrite repeat_length. lia.
Qed.

(** X13. Under ['wrap'] the added cells take the first samples of the
    signal; this works when at most as many samples are missing as the
    signal has.  A signal of one sample is repeated.  A signal of two
    samples or more that is shorter than half a frame makes the call
    fail in numpy's broadcasting. *)
Theorem segment_axis_wrap :
  forall (a : list A) (frame_length hop_length : Z) (endvalue : A)
         (endmode : Signal.end_mode),
    0 < hop_length <= frame_length -> 1 <= len a ->
    let k := missing_samples (len a) frame_length hop_length in
    let n := 1 + (len a + k - frame_length) / hop_length in
    (k <= len a ->
     Signal.segment_axis a frame_length hop_length Signal.Wrap endvalue
       endmode
     = Ok (Signal.strided_frames
             (extended endmode a (firstn (Z.to_nat k) a))
             n frame_length hop_length))
    /\ (forall x, a = [x] ->
         Signal.segment_axis a frame_length hop_length Signal.Wrap endvalue
           endmode
         = Ok (Signal.strided_frames
                 (extended endmode a (repeat x (Z.to_nat k)))
                 n frame_length hop_length))
    /\ (2 <= len a -> len a < k ->
         Signal.segment_axis a frame_length hop_length Signal.Wrap endvalue
           endmode
         = Raise (ValueError "could not broadcast input array")).
Proof.
  intros a fl hop endvalue endmode Hhop HL k n.
  split; [| split].
  - intros Hk.
    destruct (@segment_axis_extended a fl hop Signal.Wrap endvalue endmode
                (firstn (Z.to_nat k) a) Hhop HL)
      as [_ [_ [Hrun _]]].
    + discriminate.
    + fold k. intros ->. reflexivity.
    + fold k. intros Hpos. cbn [fill_source].
      rewrite py_slice_prefix by lia.
      apply np_broadcast_to_same. rewrite length_firstn. unfold len in *. lia.
    + exact Hrun.
  - intros x ->.
    destruct (@segment_axis_extended [x] fl hop Signal.Wrap endvalue endmode
                (repeat x (Z.to_nat k)) Hhop HL)
      as [_ [_ [Hrun _]]].
    + discriminate.
    + fold k. intros ->. reflexivity.
    + fold k. intros Hpos. cbn [fill_source].
      rewrite py_slice_whole by (unfold len; cbn; lia).
      apply np_broadcast_scalar.
    + exact Hrun.
  - intros H2 Hk.
    assert (Hshort : len a < fl).
    { unfold k, missing_samples in Hk.
      destruct (Z.ltb_spec (len a) fl) as [Hlt | Hge]; [exact Hlt |].
      pose proof (Z.mod_pos_bound (fl - len a) hop ltac:(lia)). lia. }
    destruct (@segment_axis_not_fitting a fl hop Signal.Wrap endvalue endmode
                Hhop HL (or_introl Hshort)) as [_ [_ [_ [_ Hrun]]]];
      [discriminate |].
    fold k in Hrun. rewrite Hrun. cbn [fill_source].
    rewrite py_slice_whole by lia. unfold np_broadcast_to.
    destruct (Nat.eqb_spec (List.length a) (Z.to_nat k)) as [Hbad | _];
      [unfold len in *; lia |].
    destruct a as [| x [| y a]]; unfold len in H2; cbn in H2; try lia.
    reflexivity.
Qed.

End SegmentEdges.

Lemma segment_axis_short_signal_witness :
  Signal.segment_axis ([] : list Z) 4 2 Signal.Pad 0 Signal.Post
  = Raise AssertionError
  /\ Signal.segment_axis [1; 2; 3] 4 2 Signal.Cut 0 Signal.Post
     = Raise (ValueError "Not enough data points to segment array in 'cut' mode; try 'pad' or 'wrap'").
Proof.
  split.
  - apply (proj1 (@segment_axis_short_signal Z [] 4 2 Signal.Pad 0 Signal.Post
                    ltac:(lia))).
    reflexivity.
  - apply (proj2 (@segment_axis_short_signal Z [1; 2; 3] 4 2 Signal.Cut 0
                    Signal.Post ltac:(lia))).
    unfold len. cbn. lia.
Defined.

Lemma segment_axis_pad_witness :
  Signal.segment_axis [1; 2; 3; 4; 5; 6; 7] 4 2 Signal.Pad 0 Signal.Pre
  = Ok [[1; 2; 3; 4]; [3; 4; 5; 6]; [5; 6; 7; 0]]
  /\ Signal.segment_axis [1; 2; 3; 4; 5; 6; 7] 4 2 Signal.Pad 0 Signal.Post
     = Ok [[0; 1; 2; 3]; [2; 3; 4; 5]; [4; 5; 6; 7]].
Proof.
  split.
  - rewrite (proj1 (@segment_axis_pad Z [1; 2; 3; 4; 5; 6; 7] 4 2 0 Signal.Pre
                      ltac:(lia) ltac:(unfold len; cbn; lia))).
    reflexivity.
  - rewrite (proj1 (@segment_axis_pad Z [1; 2; 3; 4; 5; 6; 7] 4 2 0 Signal.Post
                      ltac:(lia) ltac:(unfold len; cbn; lia))).
    reflexivity.
Defined.

Lemma segment_axis_wrap_witness :
  Signal.segment_axis [1; 2; 3; 4; 5; 6; 7] 4 2 Signal.Wrap 0 Signal.Pre
  = Ok [[1; 2; 3; 4]; [3; 4; 5; 6]; [5; 6; 7; 1]]
  /\ Signal.segment_axis [7] 3 1 Signal.Wrap 0 Signal.Pre = Ok [[7; 7; 7]]
  /\ Signal.segment_axis [1; 2] 5 3 Signal.Wrap 0 Signal.Post
     = Raise (ValueError "could not broadcast input array").
Proof.
  split; [| split].
  - rewrite (proj1 (@segment_axis_wrap Z [1; 2; 3; 4; 5; 6; 7] 4 2 0 Signal.Pre
                      ltac:(lia) ltac:(unfold len; cbn; lia)));
      [reflexivity | unfold len; cbn; lia].
  - rewrite (proj1 (proj2 (@segment_axis_wrap Z [7] 3 1 0 Signal.Pre
                             ltac:(lia) ltac:(unfold len; cbn; lia)))
               7 eq_refl).
    reflexivity.
  - apply (proj2 (proj2 (@segment_axis_wrap Z [1; 2] 5 3 0 Signal.Post
                           ltac:(lia) ltac:(unfold len; cbn; lia))));
      unfold len; cbn; lia.
Defined.

(** ** Delta features: outcomes *)

Section DeltaOutcome.

Context {T : Type} {N : Num T}.

Local Open Scope Z_scope.

Lemma compute_delta_untrimmed_shape (data : matrix T) (width order : Z) :
  mat_wf data -> (1 <= List.length (mat_rows data))%nat ->
  (1 <= mat_ncols data)%nat ->
  3 <= width -> width mod 2 = 1 -> 1 <= order ->
  exists deltas,
    Signal.compute_delta data width order false = Ok deltas
    /\ len deltas = order
    /\ Forall (fun d =>
                 mat_shape d
                 = (List.length (mat_rows data),
                    (Z.to_nat width + mat_ncols data + Z.to_nat width)%nat)
                 /\ mat_wf d) deltas.
Proof.
  intros Hwf Hd Ht Hw Hodd Horder. unfold Signal.compute_delta.
  destruct (Z.ltb_spec width 3) as [Hbad | _]; [lia |].
  rewrite Hodd. cbn [Z.eqb Pos.eqb negb orb].
  destruct (Z.leb_spec order 0) as [Hbad | _]; [lia |].
  destruct (Nat.eqb_spec (mat_ncols data) 0) as [Hbad | _]; [lia |].
  rewrite mapped_rows_present by exact Hd.
  set (t := mat_ncols data) in *.
  set (w := Z.to_nat width).
  set (padded := mat_map_rows (Signal.pad_edge w) (w + t + w) data).
  assert (Hpwf : mat_wf padded).
  { unfold mat_wf, padded, mat_map_rows. cbn [mat_rows mat_ncols].
    apply Forall_forall. intros r Hin.
    apply in_map_iff in Hin. destruct Hin as [r0 [<- Hin0]].
    unfold mat_wf in Hwf. rewrite Forall_forall in Hwf.
    specialize (Hwf r0 Hin0). fold t in Hwf.
    rewrite pad_edge_length; [lia |].
    intros ->. cbn in Hwf. lia. }
  destruct (@delta_passes_shape T N (Z.to_nat order)
              (Signal.delta_window width) padded Hpwf) as [Hcount Hall].
  eexists. split; [reflexivity |]. split.
  - unfold len. rewrite Hcount. lia.
  - eapply Forall_impl; [| exact Hall].
    intros d [Hc [Hr Hw0]]. split; [| exact Hw0].
    unfold mat_shape. rewrite Hc, Hr.
    unfold padded, mat_map_rows. cbn [mat_rows mat_ncols].
    rewrite length_map. reflexivity.
Qed.

(** X14. [compute_delta] checks its arguments in this order: a width
    below 3 or even is refused, then an order below 1, then an input
    without frames; an input with frames and without rows is refused
    with a [ValueError] by the filter.  Every other call, on a [(d, t)]
    matrix with [d >= 1] and [t >= 1], returns [order] matrices, of
    shape [(d, t)] with [trim=True] and [(d, t + 2 width)] without. *)
Theorem compute_delta_outcome :
  forall (data : matrix T) (width order : Z) (trim : bool),
    (width < 3 \/ width mod 2 <> 1 ->
     Signal.compute_delta data width order trim
     = Raise (ValueError "width must be an odd integer >= 3"))
    /\ (3 <= width -> width mod 2 = 1 -> order <= 0 ->
        Signal.compute_delta data width order trim
        = Raise (ValueError "order must be a positive integer"))
    /\ (3 <= width -> width mod 2 = 1 -> 1 <= order ->
        mat_ncols data = 0%nat ->
        Signal.compute_delta data width order trim
        = Raise (ValueError "can't extend empty axis 1 using modes other than 'constant' or 'empty'"))
    /\ (3 <= width -> width mod 2 = 1 -> 1 <= order ->
        (1 <= mat_ncols data)%nat -> mat_rows data = [] ->
        exists msg,
          Signal.compute_delta data width order trim
          = Raise (ValueError msg))
    /\ (3 <= width -> width mod 2 = 1 -> 1 <= order ->
        mat_wf data -> (1 <= List.length (mat_rows data))%nat ->
        (1 <= mat_ncols data)%nat ->
        exists deltas,
          Signal.compute_delta data width order trim = Ok deltas
          /\ len deltas = order
          /\ Forall (fun d =>
                       mat_wf d
                       /\ mat_shape d
                          = (List.length (mat_rows data),
                             if trim then mat_ncols data
                             else (Z.to_nat width + mat_ncols data
                                   + Z.to_nat width)%nat))
               deltas).
Proof.
  intros data width order trim. split; [| split; [| split; [| split]]].
  - intros Hbad. unfold Signal.compute_delta.
    destruct (Z.ltb_spec width 3) as [_ | Hge]; [reflexivity |].
    destruct (Z.eqb_spec (width mod 2) 1) as [Hodd | _]; [| reflexivity].
    destruct Hbad; [lia | contradiction].
  - intros Hw Hodd Horder. unfold Signal.compute_delta.
    destruct (Z.ltb_spec width 3) as [Hbad | _]; [lia |].
    rewrite Hodd. cbn [Z.eqb Pos.eqb negb orb].
    destruct (Z.leb_spec order 0) as [_ | Hbad]; [reflexivity | lia].
  - intros Hw Hodd Horder Ht. unfold Signal.compute_delta.
    destruct (Z.ltb_spec width 3) as [Hbad | _]; [lia |].
    rewrite Hodd. cbn [Z.eqb Pos.eqb negb orb].
    destruct (Z.leb_spec order 0) as [Hbad | _]; [lia |].
    rewrite Ht. reflexivity.
  - intros Hw Hodd Horder Ht Hrows. unfold Signal.compute_delta.
    destruct (Z.ltb_spec width 3) as [Hbad | _]; [lia |].
    rewrite Hodd. cbn [Z.eqb Pos.eqb negb orb].
    destruct (Z.leb_spec order 0) as [Hbad | _]; [lia |].
    destruct (Nat.eqb_spec (mat_ncols data) 0) as [Hbad | _]; [lia |].
    unfold mat_map_rows. cbn [mat_rows]. rewrite Hrows. cbn [map List.length Nat.eqb].
    eexists. reflexivity.
  - intros Hw Hodd Horder Hwf Hd Ht. destruct trim.
    + destruct (@compute_delta_shape T N data width order Hwf Hd Ht Hw Hodd
                  Horder) as [deltas [Hrun [Hcount Hall]]].
      exists deltas. split; [exact Hrun |]. split; [exact Hcount |].
      eapply Forall_impl; [| exact Hall].
      intros d [Hshape Hd']. split; [exact Hd' | exact Hshape].
    + destruct (@compute_delta_untrimmed_shape data width order Hwf Hd Ht Hw
                  Hodd Horder) as [deltas [Hrun [Hcount Hall]]].
      exists deltas. split; [exact Hrun |]. split; [exact Hcount |].
      eapply Forall_impl; [| exact Hall].
      intros d [Hshape Hd']. split; [exact Hd' | exact Hshape].
Qed.

End DeltaOutcome.

Lemma compute_delta_outcome_witness :
  Signal.compute_delta (Mat [[1; 2; 3]%Q] 3) 8 1 true
  = Raise (ValueError "width must be an odd integer >= 3")
  /\ Signal.compute_delta (Mat [[1; 2; 3]%Q] 3) 9 0 true
     = Raise (ValueError "order must be a positive integer")
  /\ Signal.compute_delta (Mat [[]; []] 0 : matrix Q) 9 1 true
     = Raise (ValueError "can't extend empty axis 1 using modes other than 'constant' or 'empty'")
  /\ (exists msg,
        Signal.compute_delta (Mat [] 3 : matrix Q) 9 1 true
        = Raise (ValueError msg))
  /\ (exists deltas,
        Signal.compute_delta (Mat [[1; 2; 3]%Q] 3) 3 2 false = Ok deltas
        /\ len deltas = 2%Z
        /\ Forall (fun d => mat_wf d /\ mat_shape d = (1%nat, 9%nat)) deltas).
Proof.
  split; [| split; [| split; [| split]]].
  - apply (proj1 (@compute_delta_outcome Q Num_Q (Mat [[1; 2; 3]%Q] 3) 8 1 true)).
    right. discriminate.
  - apply (proj1 (proj2 (@compute_delta_outcome Q Num_Q (Mat [[1; 2; 3]%Q] 3)
                           9 0 true))); [lia | reflexivity | lia].
  - apply (proj1 (proj2 (proj2 (@compute_delta_outcome Q Num_Q
                                  (Mat [[]; []] 0) 9 1 true))));
      [lia | reflexivity | lia | reflexivity].
  - apply (proj1 (proj2 (proj2 (proj2 (@compute_delta_outcome Q Num_Q
                                         (Mat [] 3) 9 1 true)))));
      [lia | reflexivity | lia | cbn; lia | reflexivity].
  - apply (proj2 (proj2 (proj2 (proj2 (@compute_delta_outcome Q Num_Q
                                         (Mat [[1; 2; 3]%Q] 3) 3 2 false)))));
      [lia | reflexivity | lia | | cbn; lia | cbn; lia].
    repeat constructor.
Defined.

(** ** Delta features: constant and rising rows *)

Section DeltaValues.

Local Open Scope Z_scope.

Lemma sum_Z_app (u v : list Z) : sum_Z (u ++ v) = sum_Z u + sum_Z v.
Proof.
  induction u as [| z u IH]; cbn [app sum_Z]; [reflexivity | lia].
Qed.

(** Twice the sum of [a - i] for [i < n]. *)
Lemma arange_down_sum (a : Z) (n : nat) :
  2 * sum_Z (map (fun i => a - Z.of_nat i) (seq 0 n))
  = 2 * Z.of_nat n * a - Z.of_nat n * (Z.of_nat n - 1).
Proof.
  induction n as [| n IH].
  - cbn. lia.
  - rewrite seq_S, map_app, sum_Z_app. cbn [map sum_Z Nat.add].
    rewrite Z.mul_add_distr_l, IH. rewrite Nat2Z.inj_succ. nia.
Qed.

(** The integer kernel [h, h-1, ..., -h] adds up to zero. *)
Lemma raw_window_sum (width : Z) :
  3 <= width -> width mod 2 = 1 ->
  sum_Z (Signal.np_arange_down (Signal.half_length width - 1)
           (- Signal.half_length width)) = 0.
Proof.
  intros Hw Hodd. unfold Signal.np_arange_down, Signal.half_length.
  pose proof (Z.div_mod width 2 ltac:(lia)) as Hdm. rewrite Hodd in Hdm.
  set (h := width / 2) in *.
  replace (1 + h - 1 - - (1 + h)) with (2 * h + 1) by lia.
  replace (1 + h - 1) with h by lia.
  pose proof (arange_down_sum h (Z.to_nat (2 * h + 1))) as Hsum.
  rewrite Z2Nat.id in Hsum by lia.
  nia.
Qed.

Local Open Scope Q_scope.

Lemma fold_Qplus_pointwise {B : Type} (F G : B -> Q) (l : list B) (acc : Q) :
  (forall x, In x l -> F x == G x) ->
  fold_left Qplus (map F l) acc == fold_left Qplus (map G l) acc.
Proof.
  revert acc. induction l as [| x l IH]; intros acc Hext; cbn [map fold_left].
  - reflexivity.
  - rewrite IH by (intros y Hy; apply Hext; right; exact Hy).
    assert (Hacc : acc + F x == acc + G x)
      by (rewrite (Hext x (or_introl eq_refl)); reflexivity).
    clear Hext IH. revert Hacc. generalize (acc + F x) (acc + G x).
    induction (map G l) as [| y m IHm]; intros u v Huv; cbn [fold_left].
    + exact Huv.
    + apply IHm. rewrite Huv. reflexivity.
Qed.

(** The kernel applied to values that are affine in the offset. *)
Lemma sum_affine_kernel (s A B : Q) (zs : list Z) (acc : Q) :
  ~ s == 0 ->
  fold_left Qplus
    (map (fun z => (inject_Z z / s) * (A + B * inject_Z z)) zs) acc
  == acc + A / s * inject_Z (sum_Z zs) + B / s * inject_Z (sum_sq_Z zs).
Proof.
  intros Hs. revert acc.
  induction zs as [| z zs IH]; intros acc; cbn [map fold_left sum_Z sum_sq_Z].
  - unfold inject_Z. field. exact Hs.
  - rewrite IH, !inject_Z_plus, inject_Z_mult. field. exact Hs.
Qed.

Lemma delta_window_nth (width : Z) (k : nat) :
  (3 <= width)%Z -> (width mod 2 = 1)%Z -> (Z.of_nat k < width)%Z ->
  nth k (Signal.delta_window (T := Q) width) 0
  = inject_Z (width / 2 - Z.of_nat k)
    / Signal.sum_squares (Signal.raw_window (T := Q) width).
Proof.
  intros Hw Hodd Hk. unfold Signal.delta_window.
  set (s := Signal.sum_squares (Signal.raw_window width)).
  pose proof (Z.div_mod width 2 ltac:(lia)) as Hdm. rewrite Hodd in Hdm.
  assert (Hcount : Z.to_nat (Signal.half_length width - 1
                             - - Signal.half_length width)
                   = Z.to_nat width)
    by (unfold Signal.half_length; lia).
  rewrite nth_indep with (d' := 0 / s).
  2:{ unfold Signal.raw_window, Signal.np_arange_down.
      rewrite !length_map, length_seq, Hcount. lia. }
  rewrite (map_nth (fun x => x / s)). f_equal.
  unfold Signal.raw_window. cbn [num_of_Z Num_Q].
  change 0 with (inject_Z 0). rewrite (map_nth inject_Z). f_equal.
  unfold Signal.np_arange_down.
  rewrite nth_indep with (d' := (Signal.half_length width - 1 - Z.of_nat 0)%Z)
    by (rewrite length_map, length_seq, Hcount; lia).
  rewrite (map_nth (fun i => (Signal.half_length width - 1 - Z.of_nat i)%Z)).
  rewrite seq_nth by (rewrite Hcount; lia).
  unfold Signal.half_length. cbn [Nat.add]. lia.
Qed.

(** The estimate at a frame around which the row is affine is the
    slope. *)
Lemma centred_delta_affine (width : Z) (row : list Q) (i : Z) (A B : Q) :
  (3 <= width)%Z -> (width mod 2 = 1)%Z ->
  (forall k : nat,
     (Z.of_nat k < width)%Z ->
     edge_value row (i + width / 2 - Z.of_nat k)
     == A + B * inject_Z (width / 2 - Z.of_nat k)) ->
  centred_delta (Signal.delta_window width) row i == B.
Proof.
  intros Hw Hodd Hrow.
  pose proof (Z.div_mod width 2 ltac:(lia)) as Hdm. rewrite Hodd in Hdm.
  pose proof (@delta_window_length Q Num_Q width Hw Hodd) as Hlen.
  assert (Hhalf : ((len (Signal.delta_window (T := Q) width) - 1) / 2
                   = width / 2)%Z).
  { unfold len. rewrite Hlen. symmetry.
    apply Z.div_unique with (r := 0%Z); lia. }
  unfold centred_delta. rewrite Hhalf, Hlen.
  unfold np_sum. cbn [num_of_Z num_add num_mul Num_Q].
  set (zs := Signal.np_arange_down (Signal.half_length width - 1)
               (- Signal.half_length width)).
  set (s := Signal.sum_squares (Signal.raw_window (T := Q) width)).
  pose proof (raw_window_sum_sq Hw Hodd) as Hsq. fold zs in Hsq.
  pose proof (raw_window_sum Hw Hodd) as Hsum. fold zs in Hsum.
  assert (Hs : s == inject_Z (sum_sq_Z zs)).
  { unfold s, Signal.sum_squares, Signal.raw_window, np_sum.
    cbn [num_of_Z num_add num_mul num_abs Num_Q]. fold zs.
    rewrite sum_squares_of_integers. unfold inject_Z at 1. ring. }
  assert (Hpos : (0 < sum_sq_Z zs)%Z).
  { assert (0 < width * (width * width - 1))%Z
      by (apply Z.mul_pos_pos; nia).
    lia. }
  assert (Hsnz : ~ s == 0).
  { rewrite Hs. intros H0. unfold Qeq in H0. cbn in H0. lia. }
  rewrite (@fold_Qplus_pointwise nat
             (fun k => nth k (Signal.delta_window width) 0
                       * edge_value row (i + width / 2 - Z.of_nat k))
             (fun k => (fun z => (inject_Z z / s) * (A + B * inject_Z z))
                         ((width / 2 - Z.of_nat k)%Z))).
  2:{ intros k Hk. apply in_seq in Hk.
      rewrite delta_window_nth by lia. fold s.
      rewrite Hrow by lia. reflexivity. }
  rewrite <- (map_map (fun k => (width / 2 - Z.of_nat k)%Z)
                (fun z => (inject_Z z / s) * (A + B * inject_Z z))).
  replace (map (fun k => (width / 2 - Z.of_nat k)%Z) (seq 0 (Z.to_nat width)))
    with zs.
  2:{ unfold zs, Signal.np_arange_down, Signal.half_length.
      replace (Z.to_nat (1 + width / 2 - 1 - - (1 + width / 2)))
        with (Z.to_nat width) by lia.
      apply map_ext. intros k. lia. }
  rewrite sum_affine_kernel by exact Hsnz.
  rewrite Hsum, Hs.
  assert (Hnz : ~ inject_Z (sum_sq_Z zs) == 0)
    by (intros H0; unfold Qeq in H0; cbn in H0; lia).
  change (inject_Z 0) with 0. field. exact Hnz.
Qed.

Lemma edge_value_constant (c : Q) (t : nat) (j : Z) :
  (1 <= t)%nat -> edge_value (repeat c t) j = c.
Proof.
  intros Ht. unfold edge_value. apply nth_repeat_lt.
  unfold len. rewrite repeat_length. lia.
Qed.

Lemma edge_value_ramp (a b : Q) (t : nat) (j : Z) :
  (0 <= j < Z.of_nat t)%Z ->
  edge_value (ramp a b t) j = a + b * inject_Z j.
Proof.
  intros Hj. unfold edge_value, ramp, len.
  rewrite length_map, length_seq.
  rewrite Z.min_r by lia. rewrite Z.max_r by lia.
  rewrite nth_indep with (d' := a + b * inject_Z (Z.of_nat 0))
    by (rewrite length_map, length_seq; lia).
  rewrite (map_nth (fun j0 => a + b * inject_Z (Z.of_nat j0))).
  rewrite seq_nth by lia. cbn [Nat.add]. rewrite Z2Nat.id by lia.
  reflexivity.
Qed.

(** The first array for a matrix of one row. *)
Lemma first_delta_of_row (row : list Q) (width order : Z) :
  row <> [] -> (3 <= width)%Z -> (width mod 2 = 1)%Z -> (1 <= order)%Z ->
  exists first rest,
    Signal.compute_delta (Mat [row] (List.length row)) width order true
    = Ok (first :: rest)
    /\ mat_rows first
       = [map (fun i => centred_delta (Signal.delta_window width) row
                          (Z.of_nat i))
            (seq 0 (List.length row))].
Proof.
  intros Hne Hw Hodd Horder.
  destruct (@compute_delta_first_order_aligned Q Num_Q
              (Mat [row] (List.length row)) width order)
    as [first [rest [Hrun Hrows]]]; try assumption.
  - repeat constructor.
  - cbn [mat_rows List.length]. lia.
  - cbn [mat_ncols]. destruct row; [contradiction | cbn; lia].
  - exists first, rest. split; [exact Hrun | exact Hrows].
Qed.

(** X15. The first-order delta of a row of equal frames is zero at
    every frame, the borders included. *)
Theorem delta_of_constant_row :
  forall (c : Q) (t : nat) (width order : Z),
    (1 <= t)%nat ->
    (3 <= width)%Z -> (width mod 2 = 1)%Z -> (1 <= order)%Z ->
    exists first rest delta_row,
      Signal.compute_delta (Mat [repeat c t] t) width order true
      = Ok (first :: rest)
      /\ mat_rows first = [delta_row]
      /\ List.length delta_row = t
      /\ Forall (fun x => x == 0) delta_row.
Proof.
  intros c t width order Ht Hw Hodd Horder.
  destruct (@first_delta_of_row (repeat c t) width order)
    as [first [rest [Hrun Hrows]]]; try assumption.
  { destruct t; [lia | discriminate]. }
  rewrite repeat_length in Hrun, Hrows.
  eexists. eexists. eexists. split; [exact Hrun |].
  split; [exact Hrows |]. split; [rewrite length_map, length_seq; reflexivity |].
  apply Forall_forall. intros x Hin.
  apply in_map_iff in Hin. destruct Hin as [i [<- _]].
  apply (@centred_delta_affine width (repeat c t) (Z.of_nat i) c 0);
    try assumption.
  intros k Hk. rewrite edge_value_constant by exact Ht. ring.
Qed.

(** X16. The first-order delta of a row that rises by [b] per frame is
    [b] at every frame that has [width / 2] frames on both sides: the
    kernel is normalised to return the slope. *)
Theorem delta_of_ramp :
  forall (a b : Q) (t : nat) (width order : Z) (i : nat),
    (3 <= width)%Z -> (width mod 2 = 1)%Z -> (1 <= order)%Z ->
    (width / 2 <= Z.of_nat i < Z.of_nat t - width / 2)%Z ->
    exists first rest delta_row,
      Signal.compute_delta (Mat [ramp a b t] t) width order true
      = Ok (first :: rest)
      /\ mat_rows first = [delta_row]
      /\ nth i delta_row 0 == b.
Proof.
  intros a b t width order i Hw Hodd Horder Hi.
  pose proof (Z.div_mod width 2 ltac:(lia)) as Hdm. rewrite Hodd in Hdm.
  assert (Hlen : List.length (ramp a b t) = t)
    by (unfold ramp; rewrite length_map, length_seq; reflexivity).
  destruct (@first_delta_of_row (ramp a b t) width order)
    as [first [rest [Hrun Hrows]]]; try assumption.
  { intros Hnil. rewrite Hnil in Hlen. cbn in Hlen. lia. }
  rewrite Hlen in Hrun, Hrows.
  eexists. eexists. eexists. split; [exact Hrun |].
  split; [exact Hrows |].
  rewrite nth_indep
    with (d' := centred_delta (Signal.delta_window width) (ramp a b t)
                  (Z.of_nat 0))
    by (rewrite length_map, length_seq; lia).
  rewrite (map_nth (fun i0 => centred_delta (Signal.delta_window width)
                                (ramp a b t) (Z.of_nat i0))).
  rewrite seq_nth by lia. cbn [Nat.add].
  apply (@centred_delta_affine width (ramp a b t) (Z.of_nat i)
           (a + b * inject_Z (Z.of_nat i)) b); try assumption.
  intros k Hk. rewrite edge_value_ramp by lia.
  replace (Z.of_nat i + width / 2 - Z.of_nat k)%Z
    with (Z.of_nat i + (width / 2 - Z.of_nat k))%Z by lia.
  rewrite inject_Z_plus. ring.
Qed.

End DeltaValues.

Lemma delta_of_constant_row_witness :
  exists first rest delta_row,
    Signal.compute_delta (Mat [repeat (7 # 2) 5] 5) 9 1 true
    = Ok (first :: rest)
    /\ mat_rows first = [delta_row]
    /\ List.length delta_row = 5%nat
    /\ Forall (fun x => x == 0)%Q delta_row.
Proof.
  apply (@delta_of_constant_row (7 # 2) 5 9 1); [lia | lia | reflexivity | lia].
Defined.

Lemma delta_of_ramp_witness :
  exists first rest delta_row,
    Signal.compute_delta (Mat [ramp 1 (3 # 4) 12] 12) 9 1 true
    = Ok (first :: rest)
    /\ mat_rows first = [delta_row]
    /\ (nth 5 delta_row 0 == 3 # 4)%Q.
Proof.
  apply (@delta_of_ramp 1 (3 # 4) 12 9 1 5); [lia | reflexivity | lia |].
  split; [discriminate | reflexivity].
Defined.

(** ** Pre-emphasis of a matrix *)

Section PreEmphasisMatrix.

Context {T : Type} {N : Num T}.

Local Open Scope Z_scope.

Lemma py_slice_first (x : T) (rest : list T) :
  py_slice (x :: rest) None (Some 1) = [x].
Proof.
  unfold py_slice, slice_bound, len. cbn [Z.ltb Z.compare List.length].
  rewrite Z.min_r by lia. reflexivity.
Qed.

(** One row of the matrix branch: the row minus [coeff] times the row
    moved one frame to the right, its first sample doubled. *)
Lemma pre_emphasis_row (row : list T) (coeff d : T) :
  let out :=
    map2 num_sub row
      (map (fun x => num_mul x coeff)
         (py_slice row None (Some 1) ++ py_slice row None (Some (-1)))) in
  List.length out = List.length row
  /\ (forall t,
        (t < List.length row)%nat ->
        nth t out d
        = num_sub (nth t row d) (num_mul (nth (t - 1) row d) coeff)).
Proof.
  destruct row as [| x0 rest]; [cbn; split; [reflexivity | intros; lia] |].
  rewrite py_slice_first, py_slice_init.
  set (row := x0 :: rest).
  set (init := firstn (List.length row - 1) row).
  assert (Hinit : List.length init = List.length rest).
  { unfold init, row. rewrite length_firstn. cbn [List.length]. lia. }
  cbv zeta. split.
  - rewrite map2_length, length_map, length_app, Hinit.
    unfold row. cbn [List.length]. lia.
  - intros t Ht. unfold row in Ht. cbn [List.length] in Ht.
    rewrite (map2_nth _ _ _ d (num_mul d coeff))
      by (rewrite ?length_map, ?length_app, ?Hinit; unfold row;
          cbn [List.length]; lia).
    f_equal. rewrite (map_nth (fun x => num_mul x coeff)). f_equal.
    destruct t as [| t]; [reflexivity |].
    cbn [app nth]. replace (S t - 1)%nat with t by lia.
    unfold init. rewrite nth_firstn.
    destruct (Nat.ltb_spec t (List.length row - 1)) as [_ | Hbad];
      [reflexivity | unfold row in Hbad; cbn [List.length] in Hbad; lia].
Qed.

(** X17. On a matrix [pre_emphasis] never raises and keeps the shape;
    in every row, sample [t >= 1] becomes [s[t] - s[t-1] * coeff] and
    the first sample becomes [s[0] - s[0] * coeff], where the vector
    branch leaves the first sample as it is.  The vector branch raises
    [IndexError] on an empty signal. *)
Theorem pre_emphasis_matrix_spec :
  forall (m : matrix T) (coeff d : T),
    mat_wf m ->
    (exists m',
       Signal.pre_emphasis (Arr2 m) coeff = Ok (Arr2 m')
       /\ mat_shape m' = mat_shape m
       /\ mat_wf m'
       /\ forall r t,
            (r < List.length (mat_rows m))%nat -> (t < mat_ncols m)%nat ->
            nth t (nth r (mat_rows m') []) d
            = num_sub (nth t (nth r (mat_rows m) []) d)
                (num_mul (nth (t - 1) (nth r (mat_rows m) []) d) coeff))
    /\ Signal.pre_emphasis (Arr1 ([] : list T)) coeff = Raise IndexError.
Proof.
  intros m coeff d Hwf. split; [| reflexivity].
  unfold Signal.pre_emphasis, Signal.pre_emphasis_matrix.
  eexists. split; [reflexivity |].
  unfold mat_wf in *. rewrite Forall_forall in Hwf.
  unfold mat_shape, mat_map_rows. cbn [mat_rows mat_ncols].
  split; [rewrite length_map; reflexivity |]. split.
  - apply Forall_forall. intros row Hin.
    apply in_map_iff in Hin. destruct Hin as [row0 [<- Hin0]].
    rewrite (proj1 (pre_emphasis_row row0 coeff d)). apply Hwf. exact Hin0.
  - intros r t Hr Ht.
    set (f := fun r0 : list T =>
                map2 num_sub r0
                  (map (fun x => num_mul x coeff)
                     (py_slice r0 None (Some 1)
                        ++ py_slice r0 None (Some (-1))))).
    rewrite nth_indep with (d' := f [])
      by (rewrite length_map; exact Hr).
    rewrite (map_nth f). unfold f.
    apply (proj2 (pre_emphasis_row (nth r (mat_rows m) []) coeff d)).
    rewrite (Hwf (nth r (mat_rows m) [])); [exact Ht |].
    apply nth_In. exact Hr.
Qed.

End PreEmphasisMatrix.

Lemma pre_emphasis_matrix_spec_witness :
  exists m',
    Signal.pre_emphasis (Arr2 (Mat [[4; 6]; [8; 2]]%Q 2)) (1 # 2)%Q
    = Ok (Arr2 m')
    /\ mat_shape m' = (2%nat, 2%nat)
    /\ nth 0 (nth 0 (mat_rows m') []) 0%Q = (4 - 4 * (1 # 2))%Q
    /\ nth 1 (nth 1 (mat_rows m') []) 0%Q = (2 - 8 * (1 # 2))%Q.
Proof.
  destruct (proj1 (@pre_emphasis_matrix_spec Q Num_Q
                     (Mat [[4; 6]; [8; 2]]%Q 2) (1 # 2)%Q 0%Q
                     ltac:(repeat constructor)))
    as [m' [Hrun [Hshape [_ Hentry]]]].
  exists m'. split; [exact Hrun |]. split; [exact Hshape |]. split.
  - apply (Hentry 0%nat 0%nat); cbn; lia.
  - apply (Hentry 1%nat 1%nat); cbn; lia.
Defined.

(** ** Normalisation of the energies *)

Section Normalize.

Local Open Scope R_scope.

Lemma fold_Rplus_shift (l : list R) (a : R) :
  fold_left Rplus l a = a + fold_left Rplus l 0.
Proof.
  revert a. induction l as [| x l IH]; intros a; cbn [fold_left]; [lra |].
  rewrite (IH (a + x)), (IH (0 + x)). lra.
Qed.

Lemma np_sum_cons (x : R) (l : list R) : np_sum (x :: l) = x + np_sum l.
Proof.
  unfold np_sum. cbn [fold_left num_add num_of_Z Num_R].
  rewrite fold_Rplus_shift. lra.
Qed.

Lemma np_sum_scaled (f : R -> R) (c : R) (l : list R) :
  np_sum (map (fun x => f x * c) l) = np_sum (map f l) * c.
Proof.
  induction l as [| x l IH]; cbn [map].
  - unfold np_sum. cbn. lra.
  - rewrite !np_sum_cons, IH. lra.
Qed.

Lemma np_sum_shifted (mu : R) (l : list R) :
  np_sum (map (fun x => x - mu) l) = np_sum l - INR (List.length l) * mu.
Proof.
  induction l as [| x l IH].
  - unfold np_sum. cbn. lra.
  - cbn [map]. rewrite !np_sum_cons, IH.
    change (List.length (x :: l)) with (S (List.length l)).
    rewrite S_INR. lra.
Qed.

Lemma np_std_empty : Signal.np_std [] = 0.
Proof.
  assert (Hmean : Signal.np_mean [] = 0).
  { unfold Signal.np_mean, np_sum. cbn. unfold Rdiv. apply Rmult_0_l. }
  unfold Signal.np_std. cbn [map]. rewrite Hmean. apply sqrt_0.
Qed.

(** X18. The first line of [vad_energy] centres and scales the
    energies: when their standard deviation is not zero the result has
    mean 0 and standard deviation 1, so normalising once more, as the
    retry with fewer components does, changes nothing. *)
Theorem normalize_idempotent :
  forall v : list R,
    Signal.np_std v <> 0 ->
    Signal.np_mean (Signal.normalize v) = 0
    /\ Signal.np_std (Signal.normalize v) = 1
    /\ Signal.normalize (Signal.normalize v) = Signal.normalize v.
Proof.
  intros v Hstd.
  assert (Hne : v <> []) by (intros ->; apply Hstd, np_std_empty).
  assert (Hn : INR (List.length v) <> 0).
  { apply not_0_INR. destruct v; [contradiction | discriminate]. }
  set (mu := Signal.np_mean v) in *.
  set (sigma := Signal.np_std v) in *.
  set (var := Signal.np_mean
                (map (fun x => Rabs (x - mu) * Rabs (x - mu)) v)).
  assert (Hsigma : sigma = sqrt var) by reflexivity.
  assert (Hvar : sigma * sigma = var).
  { rewrite Hsigma. apply sqrt_sqrt.
    destruct (Rle_dec 0 var) as [Hpos | Hneg]; [exact Hpos |].
    exfalso. apply Hstd. fold sigma. rewrite Hsigma.
    apply sqrt_neg_0. lra. }
  assert (Hnorm : Signal.normalize v = map (fun x => (x - mu) * / sigma) v)
    by reflexivity.
  assert (Hmean : Signal.np_mean (Signal.normalize v) = 0).
  { rewrite Hnorm. unfold Signal.np_mean. rewrite length_map.
    rewrite (np_sum_scaled (fun x => x - mu) (/ sigma)), np_sum_shifted.
    unfold mu, Signal.np_mean. field. split; assumption. }
  assert (Hstd1 : Signal.np_std (Signal.normalize v) = 1).
  { unfold Signal.np_std. rewrite Hmean. rewrite Hnorm at 1.
    unfold Signal.np_mean at 1. rewrite !length_map, map_map.
    rewrite (map_ext _ (fun x => (Rabs (x - mu) * Rabs (x - mu))
                                 * (/ sigma * / sigma))).
    2:{ intros x. rewrite !Rabs_square. ring. }
    rewrite (np_sum_scaled (fun x => Rabs (x - mu) * Rabs (x - mu))).
    replace (np_sum (map (fun x => Rabs (x - mu) * Rabs (x - mu)) v)
             * (/ sigma * / sigma) / INR (List.length v))
      with (var * (/ sigma * / sigma))
      by (unfold var, Signal.np_mean; rewrite length_map; field;
          split; assumption).
    rewrite <- Hvar.
    replace (sigma * sigma * (/ sigma * / sigma)) with 1
      by (field; exact Hstd).
    apply sqrt_1. }
  split; [exact Hmean |]. split; [exact Hstd1 |].
  unfold Signal.normalize at 1. rewrite Hmean, Hstd1.
  rewrite <- (map_id (Signal.normalize v)) at 2.
  apply map_ext. intros y. field.
Qed.

Lemma normalize_idempotent_witness :
  Signal.np_mean (Signal.normalize [-1; 1]) = 0
  /\ Signal.np_std (Signal.normalize [-1; 1]) = 1
  /\ Signal.normalize (Signal.normalize [-1; 1]) = Signal.normalize [-1; 1].
Proof.
  apply normalize_idempotent.
  assert (Hmu : Signal.np_mean [-1; 1] = 0)
    by (unfold Signal.np_mean, np_sum; cbn; lra).
  unfold Signal.np_std. rewrite Hmu.
  unfold Signal.np_mean, np_sum. cbn. rewrite !Rabs_square.
  replace ((0 + (-1 - 0) * (-1 - 0) + (1 - 0) * (1 - 0)) / (1 + 1))
    with 1 by lra.
  rewrite sqrt_1. lra.
Defined.

End Normalize.

(** ** TIMIT phoneme indices *)

Section Timit.

Local Open Scope Z_scope.

Lemma list_index_found (x : string) (l : list string) :
  Speech.str_in x l = true ->
  exists k,
    Speech.list_index x l = Ok k
    /\ 0 <= k < len l
    /\ nth_error l (Z.to_nat k) = Some x.
Proof.
  unfold Speech.str_in. induction l as [| y l IH]; cbn [existsb Speech.list_index];
    [discriminate |].
  intros Hin. destruct (String.eqb_spec y x) as [-> | Hne].
  - exists 0. split; [reflexivity |].
    split; [unfold len; cbn [List.length]; lia | reflexivity].
  - assert (Hxy : String.eqb x y = false).
    { destruct (String.eqb_spec x y) as [-> | _]; [contradiction | reflexivity]. }
    rewrite Hxy in Hin. cbn [orb] in Hin.
    destruct (IH Hin) as [k [Hrun [Hk Hnth]]].
    exists (1 + k). rewrite Hrun. cbn [bind]. split; [reflexivity |].
    split; [unfold len in *; cbn [List.length]; lia |].
    replace (Z.to_nat (1 + k)) with (S (Z.to_nat k)) by lia. exact Hnth.
Qed.

Lemma timit_61_length : len Speech.timit_61 = 61.
Proof. reflexivity. Qed.

(** X19. With [map39=False], [timit_phonemes] returns the positions of
    the phonemes in the list of 61: read back through the list, the
    indices give exactly the known phonemes, in order.  An unknown
    phoneme is left out, or, with [blank=True], stands as the index 61,
    which is no position of the list.  With [map39=True] the call
    raises before it looks at a phoneme. *)
Theorem timit_phonemes_round_trip :
  forall (ps : list string) (blank : bool),
    (exists out,
       Speech.timit_phonemes (Speech.Phonemes ps) false blank = Ok out
       /\ map timit_decode out
          = (if blank
             then map (fun p => if Speech.str_in p Speech.timit_61
                                then Some p else None) ps
             else map Some
                    (filter (fun p => Speech.str_in p Speech.timit_61) ps))
       /\ Forall (fun k => 0 <= k <= 61) out)
    /\ is_ok (Speech.timit_phonemes (Speech.Phonemes ps) true blank) = false.
Proof.
  intros ps blank. split; [| reflexivity].
  unfold Speech.timit_phonemes.
  induction ps as [| p ps IH]; cbn [Speech.timit_loop Speech.dict_lookup].
  - exists []. split; [reflexivity |].
    split; [destruct blank; reflexivity | constructor].
  - destruct IH as [rest [Hrest [Hdecode Hrange]]].
    destruct (Speech.str_in p Speech.timit_61) eqn:Hin.
    + destruct (list_index_found p Speech.timit_61 Hin) as [k [Hk [Hbound Hnth]]].
      rewrite Hk, Hrest. cbn [bind].
      exists (k :: rest). split; [reflexivity |].
      rewrite timit_61_length in Hbound.
      assert (Hdec : timit_decode k = Some p).
      { unfold timit_decode.
        destruct (Z.ltb_spec k 0) as [Hbad | _]; [lia | exact Hnth]. }
      split; [| constructor; [lia | exact Hrange]].
      cbn [map filter]. rewrite Hin, Hdec, Hdecode.
      destruct blank; reflexivity.
    + rewrite Hrest. cbn [bind]. destruct blank.
      * exists (61 :: rest). split; [reflexivity |].
        split; [| constructor; [lia | exact Hrange]].
        cbn [map]. rewrite Hin, Hdecode. reflexivity.
      * exists rest. split; [reflexivity |]. split; [| exact Hrange].
        cbn [filter]. rewrite Hin. exact Hdecode.
Qed.

End Timit.

(** ** The initial mixture of speech.py *)

Section InitialMixture.

Local Open Scope R_scope.

Lemma np_sum_repeat (c : R) (n : nat) : np_sum (repeat c n) = INR n * c.
Proof.
  induction n as [| n IH].
  - unfold np_sum. cbn. lra.
  - cbn [repeat]. rewrite np_sum_cons, IH, S_INR. lra.
Qed.

Lemma initial_means_nth (K i : nat) :
  (i < K)%nat ->
  nth i (Speech.mu (Speech.initial_world K)) 0
  = -2 + 4 * INR i / (INR K - 1).
Proof.
  intros Hi. cbn [Speech.initial_world Speech.mu]. unfold Speech.np_arange.
  rewrite map_map.
  rewrite nth_indep with (d' := -2 + 4 * INR 0 / (INR K - 1))
    by (rewrite length_map, length_seq; exact Hi).
  rewrite (map_nth (fun j => -2 + 4 * INR j / (INR K - 1))).
  rewrite seq_nth by exact Hi. reflexivity.
Qed.

(** X20. The mixture [vad_energy] of speech.py starts from, for
    [distrib_nb >= 2] components: equal weights [1 / distrib_nb], which
    add up to 1, unit precisions, and means spaced evenly from -2 to
    2. *)
Theorem initial_world_spec :
  forall K : nat,
    (2 <= K)%nat ->
    let world := Speech.initial_world K in
    Speech.w world = repeat (/ INR K) K
    /\ np_sum (Speech.w world) = 1
    /\ List.length (Speech.w world) = K
    /\ List.length (Speech.mu world) = K
    /\ Speech.invcov world = repeat 1 K
    /\ nth 0 (Speech.mu world) 0 = -2
    /\ nth (K - 1) (Speech.mu world) 0 = 2
    /\ (forall i, (i < K)%nat ->
         nth i (Speech.mu world) 0 = -2 + 4 * INR i / (INR K - 1))
    /\ forall i, (S i < K)%nat ->
         nth (S i) (Speech.mu world) 0 - nth i (Speech.mu world) 0
         = 4 / (INR K - 1).
Proof.
  intros K HK world.
  assert (HKr : 2 <= INR K) by (apply (le_INR 2 K); exact HK).
  assert (Hweights : Speech.w world = repeat (/ INR K) K).
  { unfold world. cbn [Speech.initial_world Speech.w].
    generalize K at 2 4. intros n. induction n as [| n IH]; [reflexivity |].
    cbn [repeat map]. rewrite IH. f_equal. unfold Rdiv. ring. }
  split; [exact Hweights |].
  split; [| split; [| split; [| split; [| split; [| split; [| split]]]]]].
  - rewrite Hweights, np_sum_repeat. field. lra.
  - rewrite Hweights. apply repeat_length.
  - unfold world. cbn [Speech.initial_world Speech.mu]. unfold Speech.np_arange.
    rewrite !length_map. apply length_seq.
  - reflexivity.
  - unfold world. rewrite initial_means_nth by lia. cbn [INR]. field. lra.
  - unfold world. rewrite initial_means_nth by lia.
    rewrite minus_INR by lia. cbn [INR]. field. lra.
  - intros i Hi. unfold world. apply initial_means_nth. exact Hi.
  - intros i Hi. unfold world. rewrite !initial_means_nth by lia.
    rewrite S_INR. field. lra.
Qed.

End InitialMixture.

Lemma initial_world_spec_witness :
  Speech.w (Speech.initial_world 3) = repeat (/ INR 3)%R 3
  /\ (np_sum (Speech.w (Speech.initial_world 3)) = 1)%R
  /\ (nth 0 (Speech.mu (Speech.initial_world 3)) 0 = -2)%R
  /\ (nth 1 (Speech.mu (Speech.initial_world 3)) 0 = 0)%R
  /\ (nth 2 (Speech.mu (Speech.initial_world 3)) 0 = 2)%R.
Proof.
  destruct (@initial_world_spec 3 ltac:(lia))
    as [Hweights [Hw [_ [_ [_ [H0 [H2 [_ Hstep]]]]]]]].
  split; [exact Hweights |].
  split; [exact Hw |]. split; [exact H0 |]. split; [| exact H2].
  pose proof (Hstep 0%nat ltac:(lia)) as H1.
  rewrite H0 in H1. cbn [INR] in H1. lra.
Defined.

(** ** The orchestrator: what a returned dictionary holds *)

Section OrchestratorResult.

Variable reset : Speech.Mixture -> Speech.Mixture.
Variable expectation :
  Speech.Mixture -> Speech.Mixture -> list R -> Speech.Mixture.
Variable maximization :
  Speech.Mixture -> Speech.Mixture -> R -> R -> Speech.Mixture.
Variable CMat : Type.
Variable resampy_resample : list R -> Z -> Z -> string -> result (list R).
Variable librosa_util_frame : list R -> Z -> Z -> result (matrix R).
Variable librosa_stft : list R -> Z -> Z -> result CMat.
Variable librosa_magphase : CMat -> matrix R * CMat.
Variable librosa_piptrack :
  Z -> matrix R -> Z -> Z -> Z -> Z -> Q -> result (matrix R * matrix R).
Variable librosa_logamplitude : matrix R -> result (matrix R).
Variable librosa_melspectrogram :
  Z -> matrix R -> Z -> Z -> Z -> Z -> Z -> result (matrix R).
Variable librosa_mfcc : Z -> matrix R -> Z -> result (matrix R).

Local Abbreviation speech_features :=
  (Speech.speech_features reset expectation maximization resampy_resample
     librosa_util_frame librosa_stft librosa_magphase librosa_piptrack
     librosa_logamplitude librosa_melspectrogram librosa_mfcc).

(** X21. [speech_features] refuses a signal given as a matrix with more
    than one row and more than one column before it calls any library.
    Whenever it returns, the dictionary has the six keys ['spec'],
    ['mspec'], ['mfcc'], ['vad'], ['pitch'] and ['energy'], in this
    order; ['vad'] holds [None] when no detection was asked for and
    labels 0 and 1 when it was. *)
Theorem speech_features_result :
  forall (s : ndarray R) (sr : Z) (win shift : Q) (nb_melfilters nb_ceps : Z)
         (nb_delta : option Z) (get_spec get_mspec get_mfcc get_pitch : bool)
         (get_vad : Speech.vad_request) (get_energy : bool)
         (pitch_threshold : Q) (fmin fmax sr_new : option Z) (preemphasis : R),
    (forall m,
       s = Arr2 m ->
       (2 <= List.length (mat_rows m))%nat -> (2 <= mat_ncols m)%nat ->
       speech_features s sr win shift nb_melfilters nb_ceps nb_delta
         get_spec get_mspec get_mfcc get_pitch get_vad get_energy
         pitch_threshold fmin fmax sr_new preemphasis
       = Raise (Exception "Speech Feature Extraction only accept 1-D signal"))
    /\ (forall features,
          speech_features s sr win shift nb_melfilters nb_ceps nb_delta
            get_spec get_mspec get_mfcc get_pitch get_vad get_energy
            pitch_threshold fmin fmax sr_new preemphasis
          = Ok features ->
          map fst features
          = ["spec"; "mspec"; "mfcc"; "vad"; "pitch"; "energy"]%string
          /\ (Speech.truthy get_vad = false ->
              dict_get "vad" features = Some Speech.PNone)
          /\ (Speech.truthy get_vad = true ->
              exists labels,
                dict_get "vad" features = Some (Speech.PInt8 labels)
                /\ Forall (fun l => l = 0%Z \/ l = 1%Z) labels)).
Proof.
  intros. split.
  - intros m -> Hrows Hcols. unfold Speech.speech_features.
    cbn [Speech.ravel_signal mat_shape].
    destruct (Nat.eqb_spec (List.length (mat_rows m) * mat_ncols m)
                (Nat.max (List.length (mat_rows m)) (mat_ncols m)))
      as [Hbad | _]; [nia | reflexivity].
  - intros features Hrun. unfold Speech.speech_features in Hrun.
    apply bind_ok_inv in Hrun. destruct Hrun as [s1 [_ Hrun]].
    apply bind_ok_inv in Hrun. destruct Hrun as [[s2 sr2] [_ Hrun]].
    apply bind_ok_inv in Hrun. destruct Hrun as [s3 [_ Hrun]].
    apply bind_ok_inv in Hrun.
    destruct Hrun as [[log_energy vad] [Hvad Hrun]].
    apply bind_ok_inv in Hrun. destruct Hrun as [stft [_ Hrun]].
    destruct (librosa_magphase stft) as [S_ D].
    apply bind_ok_inv in Hrun. destruct Hrun as [pitch_freq [_ Hrun]].
    apply bind_ok_inv in Hrun. destruct Hrun as [powerspectrogram [_ Hrun]].
    apply bind_ok_inv in Hrun.
    destruct Hrun as [[melspectrogram mfcc] [_ Hrun]].
    apply bind_ok_inv in Hrun.
    destruct Hrun as [[[[[p' s'] m'] c'] e'] [_ Hrun]].
    unfold Speech.feature_dictionary in Hrun.
    apply bind_ok_inv in Hrun. destruct Hrun as [spec_T [_ Hrun]].
    apply bind_ok_inv in Hrun. destruct Hrun as [mspec_T [_ Hrun]].
    apply bind_ok_inv in Hrun. destruct Hrun as [mfcc_T [_ Hrun]].
    apply bind_ok_inv in Hrun. destruct Hrun as [pitch_T [_ Hrun]].
    apply bind_ok_inv in Hrun. destruct Hrun as [energy_T [_ Hrun]].
    injection Hrun as <-.
    split; [reflexivity |]. cbn [dict_get String.eqb Ascii.eqb Bool.eqb].
    split.
    + intros Hoff. rewrite Hoff. reflexivity.
    + intros Hon. rewrite Hon in *. cbn [Speech.keep_if orb] in *.
      rewrite orb_true_r in Hvad.
      apply bind_ok_inv in Hvad. destruct Hvad as [frames [_ Hvad]].
      destruct get_vad as [b | k it]; cbn [Speech.truthy] in Hon;
        try subst b;
        apply bind_ok_inv in Hvad; destruct Hvad as [r [_ Hvad]];
        injection Hvad as _ <-;
        (eexists; split; [reflexivity |]);
        apply Forall_forall; intros l Hin;
        apply in_map_iff in Hin; destruct Hin as [b [<- _]];
        destruct b; [right | left | right | left]; reflexivity.
Qed.

End OrchestratorResult.

Lemma speech_features_result_witness :
  exists features,
    Speech.speech_features (fun m => m) (fun w _ _ => w) (fun w _ _ _ => w)
      (fun s _ _ _ => Ok s)
      (fun _ _ _ => Ok (Mat [[1; 1]; [1; 1]] 2))%R
      (fun _ _ _ => Ok tt)
      (fun _ => (Mat [[1; 1]] 2, tt))%R
      (fun _ S_ _ _ _ _ _ => Ok (S_, S_))
      (fun m => Ok m)
      (fun _ S_ _ _ _ _ _ => Ok S_)
      (fun _ S_ _ => Ok S_)
      (Arr1 [1; 2; 3; 4]%R) 2 1 (1 # 2) 40 13 None
      true true true true (Speech.VadBool false) true
      (4 # 5) (Some 0%Z) None None 0.97%R
    = Ok features
    /\ map fst features
       = ["spec"; "mspec"; "mfcc"; "vad"; "pitch"; "energy"]%string
    /\ dict_get "vad" features = Some Speech.PNone.
Proof.
  eexists. split; [reflexivity |].
  match goal with
  | |- map fst ?d = _ /\ _ =>
      pose proof (proj2 (@speech_features_result
        (fun m => m) (fun w _ _ => w) (fun w _ _ _ => w) unit
        (fun s _ _ _ => Ok s)
        (fun _ _ _ => Ok (Mat [[1; 1]; [1; 1]] 2))%R
        (fun _ _ _ => Ok tt)
        (fun _ => (Mat [[1; 1]] 2, tt))%R
        (fun _ S_ _ _ _ _ _ => Ok (S_, S_))
        (fun m => Ok m)
        (fun _ S_ _ _ _ _ _ => Ok S_)
        (fun _ S_ _ => Ok S_)
        (Arr1 [1; 2; 3; 4]%R) 2 1 (1 # 2) 40 13 None
        true true true true (Speech.VadBool false) true
        (4 # 5) (Some 0%Z) None None 0.97%R) d eq_refl) as [Hkeys [Hoff _]]
  end.
  split; [exact Hkeys | apply Hoff; reflexivity].
Defined.

(** ** Smoothing *)

Section Smoothing.

Local Open Scope R_scope.

Variable np_window : string -> Z -> list R.

Lemma seq_offset (a n : nat) :
  seq a n = map (fun i => (a + i)%nat) (seq 0 n).
Proof.
  revert a. induction n as [| n IH]; intros a; [reflexivity |].
  cbn [seq map]. f_equal; [lia |].
  rewrite <- (seq_shift n 0), map_map, (IH (S a)).
  apply map_ext. intros i. lia.
Qed.

Lemma firstn_seq_prefix (a k r : nat) : firstn k (seq a (k + r)) = seq a k.
Proof.
  rewrite seq_app, firstn_app, length_seq, Nat.sub_diag, firstn_O, app_nil_r.
  apply firstn_all2. rewrite length_seq. lia.
Qed.

Lemma nth_map_zero (f : R -> R) (l : list R) (i : nat) :
  (i < List.length l)%nat -> nth i (map f l) 0 = f (nth i l 0).
Proof.
  intros Hi. rewrite (nth_indep _ 0 (f 0)) by (rewrite length_map; exact Hi).
  apply map_nth.
Qed.

Lemma py_index_first (x : list R) :
  (1 <= List.length x)%nat -> py_index x 0 = Ok (nth 0 x 0).
Proof.
  intros Hn. destruct x as [| x0 x]; [cbn in Hn; lia |].
  unfold py_index, len.
  destruct (Z.ltb_spec 0 0) as [Hbad | _]; [lia |].
  destruct (Z.leb_spec (Z.of_nat (List.length (x0 :: x))) 0) as [Hbad | _];
    [cbn [List.length] in Hbad; lia |].
  reflexivity.
Qed.

Lemma py_index_last (x : list R) :
  (1 <= List.length x)%nat ->
  py_index x (-1) = Ok (nth (List.length x - 1) x 0).
Proof.
  intros Hn. unfold py_index, len.
  destruct (Z.ltb_spec (-1) 0) as [_ | Hbad]; [| lia].
  destruct (Z.ltb_spec (Z.of_nat (List.length x) + -1) 0) as [Hbad | _];
    [lia |].
  destruct (Z.leb_spec (Z.of_nat (List.length x))
              (Z.of_nat (List.length x) + -1)) as [Hbad | _]; [lia |].
  cbn [orb].
  replace (Z.to_nat (Z.of_nat (List.length x) + -1))
    with (List.length x - 1)%nat by lia.
  rewrite (nth_error_nth' x 0) by lia. reflexivity.
Qed.

(** The signal [smooth] convolves: entry [t] is the continued signal at
    [t - win]. *)
Lemma smooth_extension_nth (x : list R) (W t : nat) :
  (1 <= W <= List.length x)%nat ->
  (t < W + List.length x + (W - 1))%nat ->
  nth t
    (map (fun e => num_sub (num_mul (num_of_Z 2) (nth 0 x 0)) e)
       (rev (firstn W x))
     ++ x
     ++ map (fun e =>
               num_sub (num_mul (num_of_Z 2) (nth (List.length x - 1) x 0)) e)
          (rev (firstn (W - 1) (skipn (List.length x - W + 1) x))))
    0
  = odd_extension x (Z.of_nat t - Z.of_nat W).
Proof.
  intros HW Ht.
  assert (Hhead : List.length (rev (firstn W x)) = W).
  { rewrite length_rev, length_firstn. lia. }
  assert (Htail :
    List.length (rev (firstn (W - 1) (skipn (List.length x - W + 1) x)))
    = (W - 1)%nat).
  { rewrite length_rev, length_firstn, length_skipn. lia. }
  unfold odd_extension, len.
  destruct (Nat.lt_ge_cases t W) as [Hlow | Hhigh].
  - rewrite app_nth1 by (rewrite length_map, Hhead; exact Hlow).
    rewrite nth_map_zero by (rewrite Hhead; exact Hlow).
    rewrite rev_nth by (rewrite length_firstn; lia).
    rewrite length_firstn, nth_firstn.
    replace (Nat.min W (List.length x)) with W by lia.
    destruct (Nat.ltb_spec (W - S t) W) as [_ | Hbad]; [| lia].
    destruct (Z.ltb_spec (Z.of_nat t - Z.of_nat W) 0) as [_ | Hbad]; [| lia].
    replace (Z.to_nat (- (Z.of_nat t - Z.of_nat W) - 1)) with (W - S t)%nat
      by lia.
    reflexivity.
  - rewrite app_nth2 by (rewrite length_map, Hhead; lia).
    rewrite length_map, Hhead.
    destruct (Z.ltb_spec (Z.of_nat t - Z.of_nat W) 0) as [Hbad | _]; [lia |].
    destruct (Nat.lt_ge_cases (t - W) (List.length x)) as [Hmid | Hend].
    + rewrite app_nth1 by exact Hmid.
      destruct (Z.ltb_spec (Z.of_nat t - Z.of_nat W)
                  (Z.of_nat (List.length x))) as [_ | Hbad]; [| lia].
      f_equal. lia.
    + rewrite app_nth2 by lia.
      destruct (Z.ltb_spec (Z.of_nat t - Z.of_nat W)
                  (Z.of_nat (List.length x))) as [Hbad | _]; [lia |].
      rewrite nth_map_zero by (rewrite Htail; lia).
      rewrite rev_nth by (rewrite length_firstn, length_skipn; lia).
      rewrite length_firstn, length_skipn, nth_firstn, nth_skipn.
      destruct (Nat.ltb_spec
                  (Nat.min (W - 1) (List.length x - (List.length x - W + 1))
                   - S (t - W - List.length x)) (W - 1)) as [_ | Hbad];
        [| lia].
      replace (Z.to_nat (Z.of_nat (List.length x) - 1))
        with (List.length x - 1)%nat by lia.
      change (num_sub ?a ?b) with (a - b).
      f_equal. f_equal. lia.
Qed.

Lemma np_convolve_same_short_first (a v : list R) :
  (1 <= List.length a < List.length v)%nat ->
  Signal.np_convolve_same a v
  = Ok (map (fun j =>
               np_sum
                 (map (fun m =>
                         Signal.nth_or_zero v
                           (Z.of_nat j + (len a - 1) / 2 - Z.of_nat m)
                         * nth m a 0)
                    (seq 0 (List.length a))))
          (seq 0 (List.length v))).
Proof.
  intros Hlen. unfold Signal.np_convolve_same.
  destruct a as [| a0 a']; [cbn in Hlen; lia |].
  destruct v as [| v0 v']; [cbn in Hlen; lia |].
  destruct (Z.ltb_spec (len (a0 :: a')) (len (v0 :: v'))) as [_ | Hbad];
    [reflexivity | unfold len in Hbad; lia].
Qed.

Lemma smooth_runs (x : list R) (win : Z) (window : string) :
  (3 <= win <= len x)%Z ->
  existsb (String.eqb window) Signal.window_names = true ->
  len (smoothing_weights np_window window win) = win ->
  Signal.smooth np_window x win window
  = Ok (map (smoothed (smoothing_weights np_window window win) x)
          (seq 0 (List.length x))).
Proof.
  intros Hwin Hname Hlen. unfold Signal.smooth.
  destruct (Z.ltb_spec win 3) as [Hbad | _]; [lia |].
  rewrite Hname. cbn [negb].
  unfold len in Hwin, Hlen.
  rewrite py_index_first by lia. cbn [bind].
  rewrite py_index_last by lia. cbn [bind].
  change (if String.eqb window "flat"
          then repeat (num_of_Z 1) (Z.to_nat win)
          else np_window window win)
    with (smoothing_weights np_window window win).
  set (w := smoothing_weights np_window window win) in *.
  set (W := Z.to_nat win).
  assert (HW : List.length w = W) by (unfold W; lia).
  assert (Hhead : Signal.py_slice_rev x (Some (win - 1)%Z) None = rev (firstn W x)).
  { unfold Signal.py_slice_rev, Signal.rev_slice_bound, len.
    destruct (Z.ltb_spec (win - 1) 0) as [Hbad | _]; [lia |].
    replace (Z.to_nat (-1 + 1)) with 0%nat by lia. cbn [skipn].
    f_equal. f_equal. unfold W. lia. }
  assert (Htail :
    Signal.py_slice_rev x (Some (-1)%Z) (Some (- win)%Z)
    = rev (firstn (W - 1) (skipn (List.length x - W + 1) x))).
  { unfold Signal.py_slice_rev, Signal.rev_slice_bound, len.
    destruct (Z.ltb_spec (-1) 0) as [_ | Hbad]; [| lia].
    destruct (Z.ltb_spec (- win) 0) as [_ | Hbad]; [| lia].
    f_equal. f_equal; [unfold W; lia |]. f_equal. unfold W. lia. }
  rewrite Hhead, Htail.
  set (s := map _ (rev (firstn W x)) ++ x ++ map _ _).
  assert (Hs : List.length s = (W + List.length x + (W - 1))%nat).
  { unfold s. rewrite !length_app, !length_map, !length_rev, !length_firstn,
      length_skipn. lia. }
  rewrite np_convolve_same_short_first
    by (rewrite length_map, HW, Hs; unfold W; lia).
  cbn [bind]. unfold len. rewrite !length_map, HW, Hs. f_equal.
  unfold py_slice, slice_bound, len. rewrite length_map, length_seq.
  destruct (Z.ltb_spec win 0) as [Hbad | _]; [lia |].
  destruct (Z.ltb_spec (- win + 1) 0) as [_ | Hbad]; [| lia].
  rewrite skipn_map, firstn_map, skipn_seq.
  replace (Z.to_nat
             (Z.max 0 (Z.of_nat (W + List.length x + (W - 1)) + (- win + 1))
              - Z.min (Z.of_nat (W + List.length x + (W - 1))) win))
    with (List.length x) by (unfold W; lia).
  replace (Z.to_nat (Z.min (Z.of_nat (W + List.length x + (W - 1))) win))
    with W by (unfold W; lia).
  replace (W + List.length x + (W - 1) - W)%nat
    with (List.length x + (W - 1))%nat by lia.
  rewrite firstn_seq_prefix, (seq_offset (0 + W)), map_map.
  apply map_ext_in. intros i Hi. apply in_seq in Hi.
  unfold smoothed, len. rewrite HW. f_equal. apply map_ext_in. intros m Hm. apply in_seq in Hm.
  rewrite nth_map_zero by lia.
  unfold Signal.nth_or_zero.
  assert (Hhalf : (0 <= (Z.of_nat W - 1) / 2 <= Z.of_nat W - 2)%Z).
  { split; [apply Z.div_pos; unfold W; lia |].
    apply Z.div_le_upper_bound; unfold W; lia. }
  set (h := ((Z.of_nat W - 1) / 2)%Z) in *.
  destruct (Z.ltb_spec (Z.of_nat (0 + W + i) + h - Z.of_nat m) 0)
    as [Hbad | _]; [lia |].
  change (num_of_Z 0) with 0. change (num_mul ?a ?b) with (a * b).
  subst s.
  rewrite (@smooth_extension_nth x W
             (Z.to_nat (Z.of_nat (0 + W + i) + h - Z.of_nat m)))
    by (unfold W in *; lia).
  replace (Z.of_nat (Z.to_nat (Z.of_nat (0 + W + i) + h - Z.of_nat m))
           - Z.of_nat W)%Z
    with (Z.of_nat i + h - Z.of_nat m)%Z by lia.
  change (num_div ?a ?b) with (a / b). ring.
Qed.

(** X22. For a signal of at least [win >= 3] samples, [smooth] returns a
    signal of the same length.  Entry [i] is the weighted mean of the
    input around [i], with the window scaled to sum 1; past either end
    the input is continued by mirroring it through its end sample, which
    is itself counted twice. *)
Theorem smooth_weighted_mean :
  forall (x : list R) (win : Z) (window : string),
    (3 <= win <= len x)%Z ->
    existsb (String.eqb window) Signal.window_names = true ->
    len (smoothing_weights np_window window win) = win ->
    exists y,
      Signal.smooth np_window x win window = Ok y
      /\ len y = len x
      /\ forall i, (i < List.length x)%nat ->
           nth i y 0
           = smoothed (smoothing_weights np_window window win) x i.
Proof.
  intros x win window Hwin Hname Hlen.
  exists (map (smoothed (smoothing_weights np_window window win) x)
            (seq 0 (List.length x))).
  split; [apply smooth_runs; assumption |].
  split; [unfold len; rewrite length_map, length_seq; reflexivity |].
  intros i Hi.
  rewrite (nth_indep _ 0
             (smoothed (smoothing_weights np_window window win) x 0))
    by (rewrite length_map, length_seq; exact Hi).
  rewrite map_nth, seq_nth by exact Hi. reflexivity.
Qed.

Lemma np_sum_scaled_over {A : Type} (g : A -> R) (c : R) (l : list A) :
  np_sum (map (fun a => g a * c) l) = np_sum (map g l) * c.
Proof.
  induction l as [| a l IH].
  - unfold np_sum. cbn. lra.
  - cbn [map]. rewrite !np_sum_cons, IH. lra.
Qed.

Lemma nth_seq_all (w : list R) :
  map (fun m => nth m w 0) (seq 0 (List.length w)) = w.
Proof.
  apply (nth_ext _ _ 0 0).
  - rewrite length_map, length_seq. reflexivity.
  - intros i Hi. rewrite length_map, length_seq in Hi.
    rewrite (nth_indep _ 0 (nth 0 w 0))
      by (rewrite length_map, length_seq; exact Hi).
    rewrite (map_nth (fun m => nth m w 0)), seq_nth by exact Hi.
    reflexivity.
Qed.

Lemma nth_repeat_in (c : R) (n k : nat) :
  (k < n)%nat -> nth k (repeat c n) 0 = c.
Proof.
  intros Hk. apply nth_repeat_lt. exact Hk.
Qed.

Lemma odd_extension_constant (c : R) (n : nat) (j : Z) :
  (- Z.of_nat n <= j < 2 * Z.of_nat n)%Z ->
  odd_extension (repeat c n) j = c.
Proof.
  intros Hj. unfold odd_extension, len. rewrite repeat_length.
  destruct (Z.ltb_spec j 0) as [Hneg | Hpos].
  - rewrite !nth_repeat_in by lia. lra.
  - destruct (Z.ltb_spec j (Z.of_nat n)) as [Hin | Hout].
    + apply nth_repeat_in. lia.
    + rewrite !nth_repeat_in by lia. lra.
Qed.

(** X23. [smooth] leaves a constant signal of at least [win >= 3]
    samples as it is, whatever the window, as long as the window's
    weights do not sum to zero. *)
Theorem smooth_constant :
  forall (c : R) (n : nat) (win : Z) (window : string),
    (3 <= win <= Z.of_nat n)%Z ->
    existsb (String.eqb window) Signal.window_names = true ->
    len (smoothing_weights np_window window win) = win ->
    np_sum (smoothing_weights np_window window win) <> 0 ->
    Signal.smooth np_window (repeat c n) win window = Ok (repeat c n).
Proof.
  intros c n win window Hwin Hname Hlen Hsum.
  rewrite smooth_runs;
    [| unfold len; rewrite repeat_length; exact Hwin | exact Hname
     | exact Hlen].
  f_equal. rewrite repeat_length.
  set (w := smoothing_weights np_window window win) in *.
  apply (nth_ext _ _ 0 0).
  - rewrite length_map, length_seq, repeat_length. reflexivity.
  - intros i Hi. rewrite length_map, length_seq in Hi.
    rewrite (nth_indep _ 0 (smoothed w (repeat c n) 0))
      by (rewrite length_map, length_seq; exact Hi).
    rewrite map_nth, seq_nth by exact Hi.
    rewrite nth_repeat_in by exact Hi. cbn [Nat.add].
    unfold smoothed.
    assert (Hhalf : (0 <= (len w - 1) / 2 <= len w - 2)%Z).
    { split; [apply Z.div_pos; lia |].
      apply Z.div_le_upper_bound; lia. }
    rewrite (map_ext_in _ (fun m => (fun m => nth m w 0) m * (c / np_sum w))).
    + rewrite (np_sum_scaled_over (fun m => nth m w 0) (c / np_sum w)).
      rewrite nth_seq_all. field. exact Hsum.
    + intros m Hm. apply in_seq in Hm.
      rewrite odd_extension_constant; [field; exact Hsum |].
      unfold len in *. lia.
Qed.

Lemma np_sum_app (u v : list R) : np_sum (u ++ v) = np_sum u + np_sum v.
Proof.
  induction u as [| a u IH].
  - cbn [app]. unfold np_sum at 2. cbn. lra.
  - cbn [app]. rewrite !np_sum_cons, IH. lra.
Qed.

Lemma np_sum_rev (v : list R) : np_sum (rev v) = np_sum v.
Proof.
  induction v as [| a v IH]; [reflexivity |].
  cbn [rev]. rewrite np_sum_app, IH, !np_sum_cons.
  unfold np_sum at 2. cbn. lra.
Qed.

(** X24. With the ['flat'] window of an odd length [win = 2 h + 1],
    every entry of the smoothed signal that is at least [h] samples away
    from both ends is the mean of the input from [i - h] to [i + h]:
    [y[i] = np.mean(x[i - h : i + h + 1])]. *)
Theorem smooth_flat_moving_average :
  forall (x : list R) (h : Z) (i : nat),
    (1 <= h)%Z ->
    (2 * h + 1 <= len x)%Z ->
    (h <= Z.of_nat i < len x - h)%Z ->
    exists y,
      Signal.smooth np_window x (2 * h + 1) "flat" = Ok y
      /\ nth i y 0
         = Signal.np_mean
             (py_slice x (Some (Z.of_nat i - h)%Z)
                (Some (Z.of_nat i + h + 1)%Z)).
Proof.
  intros x h i Hh Hwin Hi.
  assert (Hw : smoothing_weights np_window "flat" (2 * h + 1)
               = repeat 1 (Z.to_nat (2 * h + 1))) by reflexivity.
  exists (map (smoothed (smoothing_weights np_window "flat" (2 * h + 1)) x)
            (seq 0 (List.length x))).
  split.
  { apply smooth_runs; [lia | reflexivity |].
    rewrite Hw. unfold len. rewrite repeat_length. lia. }
  unfold len in *.
  rewrite (nth_indep _ 0
             (smoothed (smoothing_weights np_window "flat" (2 * h + 1)) x 0))
    by (rewrite length_map, length_seq; lia).
  rewrite map_nth, seq_nth by lia. cbn [Nat.add].
  rewrite Hw. unfold smoothed, len. rewrite repeat_length, np_sum_repeat.
  set (W := Z.to_nat (2 * h + 1)).
  assert (Hhalf : ((Z.of_nat W - 1) / 2 = h)%Z).
  { symmetry. apply Z.div_unique with (r := 0%Z); unfold W; lia. }
  rewrite Hhalf.
  assert (Hslice :
    py_slice x (Some (Z.of_nat i - h)%Z) (Some (Z.of_nat i + h + 1)%Z)
    = firstn W (skipn (Z.to_nat (Z.of_nat i - h)) x)).
  { unfold py_slice, slice_bound, len.
    destruct (Z.ltb_spec (Z.of_nat i - h) 0) as [Hbad | _]; [lia |].
    destruct (Z.ltb_spec (Z.of_nat i + h + 1) 0) as [Hbad | _]; [lia |].
    f_equal; [unfold W; lia |]. f_equal. lia. }
  rewrite Hslice. unfold Signal.np_mean.
  assert (Hcount :
    List.length (firstn W (skipn (Z.to_nat (Z.of_nat i - h)) x)) = W).
  { rewrite length_firstn, length_skipn. unfold W. lia. }
  rewrite Hcount.
  assert (Hrev :
    map (fun m => nth (Z.to_nat (Z.of_nat i + h - Z.of_nat m)) x 0)
      (seq 0 W)
    = rev (firstn W (skipn (Z.to_nat (Z.of_nat i - h)) x))).
  { apply (nth_ext _ _ 0 0).
    - rewrite length_map, length_seq, length_rev, Hcount. reflexivity.
    - intros m Hm. rewrite length_map, length_seq in Hm.
      rewrite (nth_indep _ 0
                 (nth (Z.to_nat (Z.of_nat i + h - Z.of_nat 0)) x 0))
        by (rewrite length_map, length_seq; exact Hm).
      rewrite (map_nth
                 (fun m => nth (Z.to_nat (Z.of_nat i + h - Z.of_nat m)) x 0)),
        seq_nth by exact Hm.
      rewrite rev_nth by (rewrite Hcount; exact Hm).
      rewrite Hcount, nth_firstn, nth_skipn.
      destruct (Nat.ltb_spec (W - S m) W) as [_ | Hbad]; [| lia].
      f_equal. unfold W in *. lia. }
  rewrite <- (np_sum_rev (firstn W _)), <- Hrev.
  assert (HWpos : INR W <> 0).
  { apply not_0_INR. unfold W. lia. }
  rewrite (map_ext_in _
             (fun m =>
                (fun m => nth (Z.to_nat (Z.of_nat i + h - Z.of_nat m)) x 0) m
                * / INR W)).
  - rewrite (np_sum_scaled_over
               (fun m => nth (Z.to_nat (Z.of_nat i + h - Z.of_nat m)) x 0)
               (/ INR W)).
    unfold Rdiv. reflexivity.
  - intros m Hm. apply in_seq in Hm.
    rewrite nth_repeat_in by lia.
    unfold odd_extension, len.
    destruct (Z.ltb_spec (Z.of_nat i + h - Z.of_nat m) 0) as [Hbad | _];
      [unfold W in *; lia |].
    destruct (Z.ltb_spec (Z.of_nat i + h - Z.of_nat m)
                (Z.of_nat (List.length x))) as [_ | Hbad]; [| lia].
    field. exact HWpos.
Qed.

End Smoothing.

Lemma smooth_weighted_mean_witness :
  exists y,
    Signal.smooth (fun _ _ => []) [1; 2; 4; 8]%R 3 "flat" = Ok y
    /\ len y = 4%Z.
Proof.
  destruct (@smooth_weighted_mean (fun _ _ => []) [1; 2; 4; 8]%R 3 "flat"
              ltac:(unfold len; cbn; lia) eq_refl eq_refl)
    as [y [Hrun [Hlen _]]].
  exists y. split; [exact Hrun | exact Hlen].
Defined.

Lemma smooth_constant_witness :
  Signal.smooth (fun _ _ => []) (repeat 5%R 4) 3 "flat"
  = Ok (repeat 5%R 4).
Proof.
  apply (@smooth_constant (fun _ _ => []) 5%R 4%nat 3%Z "flat");
    [lia | reflexivity | reflexivity |].
  change (np_sum (repeat 1%R 3) <> 0%R).
  rewrite np_sum_repeat. cbn [INR]. lra.
Defined.

Lemma smooth_flat_moving_average_witness :
  exists y,
    Signal.smooth (fun _ _ => []) [1; 2; 4; 8; 16]%R (2 * 1 + 1) "flat" = Ok y
    /\ nth 2 y 0%R = Signal.np_mean [2; 4; 8]%R.
Proof.
  destruct (@smooth_flat_moving_average (fun _ _ => []) [1; 2; 4; 8; 16]%R
              1%Z 2%nat ltac:(lia) ltac:(unfold len; cbn; lia)
              ltac:(unfold len; cbn; lia))
    as [y [Hrun Hval]].
  exists y. split; [exact Hrun | exact Hval].
Defined.

(** ** The cosine basis *)

Section DctBasis.

Local Open Scope R_scope.

Lemma np_sum_seq_S (f : nat -> R) (n : nat) :
  np_sum (map f (seq 0 (S n))) = np_sum (map f (seq 0 n)) + f n.
Proof.
  rewrite seq_S, map_app, np_sum_app. cbn [map Nat.add].
  rewrite np_sum_cons. change (np_sum (@nil R)) with 0. lra.
Qed.

Lemma np_sum_plus_over {A : Type} (f g : A -> R) (l : list A) :
  np_sum (map (fun a => f a + g a) l) = np_sum (map f l) + np_sum (map g l).
Proof.
  induction l as [| a l IH].
  - unfold np_sum. cbn. lra.
  - cbn [map]. rewrite !np_sum_cons, IH. lra.
Qed.

Lemma cos_odd_sum (t : R) (n : nat) :
  2 * sin t * np_sum (map (fun k => cos (INR (2 * k + 1) * t)) (seq 0 n))
  = sin (2 * INR n * t).
Proof.
  induction n as [| n IH].
  - change (2 * sin t * 0 = sin (2 * 0 * t)).
    replace (2 * 0 * t) with 0 by ring. rewrite sin_0. ring.
  - rewrite np_sum_seq_S, Rmult_plus_distr_l, IH.
    replace (2 * INR (S n) * t) with (INR (2 * n + 1) * t + t)
      by (rewrite S_INR, plus_INR, mult_INR; cbn [INR]; ring).
    replace (2 * INR n * t) with (INR (2 * n + 1) * t - t)
      by (rewrite plus_INR, mult_INR; cbn [INR]; ring).
    rewrite sin_plus, sin_minus. ring.
Qed.

Lemma sin_nat_PI (m : nat) : sin (INR m * PI) = 0.
Proof.
  induction m as [| m IH].
  - cbn [INR]. rewrite Rmult_0_l. apply sin_0.
  - rewrite S_INR.
    replace ((INR m + 1) * PI) with (INR m * PI + PI) by ring.
    rewrite neg_sin, IH. lra.
Qed.

Lemma cos_odd_sum_zero (n m : nat) :
  (0 < m < 2 * n)%nat ->
  np_sum (map (fun k => cos (dct_angle n m k)) (seq 0 n)) = 0.
Proof.
  intros Hm. unfold dct_angle.
  assert (Hn : 0 < INR n) by (apply lt_0_INR; lia).
  assert (Hm0 : 0 < INR m) by (apply lt_0_INR; lia).
  assert (Hm2 : INR m < 2 * INR n).
  { replace (2 * INR n) with (INR (2 * n)) by (rewrite mult_INR; cbn [INR]; ring).
    apply lt_INR. lia. }
  set (t := INR m * PI / (2 * INR n)).
  pose proof PI_RGT_0 as Hpi.
  assert (Ht0 : 0 < t).
  { unfold t. apply Rdiv_lt_0_compat; [apply Rmult_lt_0_compat |]; lra. }
  assert (Ht1 : t < PI).
  { unfold t. apply Rmult_lt_reg_r with (2 * INR n); [lra |].
    replace (INR m * PI / (2 * INR n) * (2 * INR n)) with (INR m * PI)
      by (field; lra).
    replace (PI * (2 * INR n)) with ((2 * INR n) * PI) by ring.
    apply Rmult_lt_compat_r; lra. }
  pose proof (sin_gt_0 t Ht0 Ht1) as Hsin.
  pose proof (cos_odd_sum t n) as Hsum.
  replace (2 * INR n * t) with (INR m * PI) in Hsum by (unfold t; field; lra).
  rewrite sin_nat_PI in Hsum.
  apply Rmult_integral in Hsum. destruct Hsum as [Hbad | Hzero]; [lra |].
  exact Hzero.
Qed.

Lemma cos_product_sum (n a b : nat) (l : list nat) :
  (b <= a)%nat ->
  2 * np_sum (map (fun k => cos (dct_angle n a k) * cos (dct_angle n b k)) l)
  = np_sum (map (fun k => cos (dct_angle n (a - b) k)) l)
    + np_sum (map (fun k => cos (dct_angle n (a + b) k)) l).
Proof.
  intros Hab. rewrite <- np_sum_plus_over.
  rewrite <- (Rmult_comm _ 2), <- np_sum_scaled_over.
  f_equal. apply map_ext. intros k.
  replace (dct_angle n (a - b) k) with (dct_angle n a k - dct_angle n b k)
    by (unfold dct_angle, Rdiv; rewrite (minus_INR a b Hab); ring).
  replace (dct_angle n (a + b) k) with (dct_angle n a k + dct_angle n b k)
    by (unfold dct_angle, Rdiv; rewrite (plus_INR a b); ring).
  rewrite cos_plus, cos_minus. ring.
Qed.

Lemma dot_map {A : Type} (f g : A -> R) (l : list A) :
  dot (map f l) (map g l) = np_sum (map (fun k => f k * g k) l).
Proof.
  unfold dot. f_equal. induction l as [| a l IH]; [reflexivity |].
  cbn [map map2]. rewrite IH. reflexivity.
Qed.

Lemma dot_comm (u v : list R) : dot u v = dot v u.
Proof.
  unfold dot. f_equal. revert v.
  induction u as [| a u IH]; intros [| b v]; try reflexivity.
  cbn [map2]. rewrite IH. f_equal. ring.
Qed.

Lemma np_sum_const_over {A : Type} (c : R) (l : list A) :
  np_sum (map (fun _ => c) l) = INR (List.length l) * c.
Proof.
  induction l as [| a l IH].
  - change (0 = INR 0 * c). cbn [INR]. ring.
  - cbn [map List.length]. rewrite np_sum_cons, IH, S_INR. ring.
Qed.

Lemma cosine_rows_dot (n a b : nat) :
  (1 <= b <= a)%nat -> (a < n)%nat ->
  dot (cosine_row n a) (cosine_row n b) = if Nat.eqb a b then 1 else 0.
Proof.
  intros Hab Han. unfold cosine_row. rewrite dot_map.
  assert (Hn : 0 < INR n) by (apply lt_0_INR; lia).
  assert (Hsq : sqrt (2 / INR n) * sqrt (2 / INR n) = 2 / INR n).
  { apply sqrt_sqrt. apply Rlt_le, Rdiv_lt_0_compat; lra. }
  set (s := sqrt (2 / INR n)) in *.
  rewrite (map_ext _
             (fun k =>
                (fun k => cos (dct_angle n a k) * cos (dct_angle n b k)) k
                * (2 / INR n)))
    by (intros k; cbn beta; rewrite <- Hsq; ring).
  rewrite np_sum_scaled_over.
  pose proof (@cos_product_sum n a b (seq 0 n) ltac:(lia)) as Hprod.
  rewrite (@cos_odd_sum_zero n (a + b)) in Hprod by lia.
  destruct (Nat.eqb_spec a b) as [-> | Hne].
  - rewrite Nat.sub_diag in Hprod.
    rewrite (map_ext (fun k => cos (dct_angle n 0 k)) (fun _ => 1)) in Hprod.
    2:{ intros k. unfold dct_angle. cbn [INR].
        replace (INR (2 * k + 1) * (0 * PI / (2 * INR n))) with 0
          by (unfold Rdiv; ring).
        apply cos_0. }
    rewrite np_sum_const_over, length_seq in Hprod.
    replace (np_sum
               (map (fun k => cos (dct_angle n b k) * cos (dct_angle n b k))
                  (seq 0 n)))
      with (INR n / 2) by lra.
    field. lra.
  - rewrite (@cos_odd_sum_zero n (a - b)) in Hprod by lia.
    replace (np_sum
               (map (fun k => cos (dct_angle n a k) * cos (dct_angle n b k))
                  (seq 0 n)))
      with 0 by lra.
    ring.
Qed.

Lemma repeat_as_map (c : R) (n : nat) :
  repeat c n = map (fun _ => c) (seq 0 n).
Proof.
  rewrite map_const, length_seq. reflexivity.
Qed.

Lemma first_row_dot (n m : nat) :
  (1 <= m < n)%nat ->
  dot (repeat (1 / sqrt (INR n)) n) (cosine_row n m) = 0.
Proof.
  intros Hm. unfold cosine_row.
  rewrite repeat_as_map, dot_map.
  rewrite (map_ext _
             (fun k =>
                (fun k => cos (dct_angle n m k)) k
                * (1 / sqrt (INR n) * sqrt (2 / INR n))))
    by (intros k; ring).
  rewrite np_sum_scaled_over, cos_odd_sum_zero by lia. ring.
Qed.

Lemma first_row_norm (n : nat) :
  (1 <= n)%nat ->
  dot (repeat (1 / sqrt (INR n)) n) (repeat (1 / sqrt (INR n)) n) = 1.
Proof.
  intros Hn.
  assert (Hpos : 0 < INR n) by (apply lt_0_INR; lia).
  pose proof (sqrt_lt_R0 _ Hpos) as Hroot.
  pose proof (sqrt_sqrt (INR n) (Rlt_le _ _ Hpos)) as Hsq.
  rewrite repeat_as_map, dot_map.
  rewrite np_sum_const_over, length_seq.
  replace (1 / sqrt (INR n) * (1 / sqrt (INR n)))
    with (1 / (sqrt (INR n) * sqrt (INR n))) by (field; lra).
  rewrite Hsq. field. lra.
Qed.

Lemma dct_row_form (n i : nat) :
  map (fun s => cos (IZR (Z.of_nat i) * s) * sqrt (2 / IZR (Z.of_nat n)))
    (map (fun k => IZR k * PI / (2 * IZR (Z.of_nat n)))
       (Signal.np_arange_step 1 (2 * Z.of_nat n) 2))
  = cosine_row n i.
Proof.
  unfold Signal.np_arange_step, cosine_row.
  replace ((2 * Z.of_nat n - 1 + 2 - 1) / 2)%Z with (Z.of_nat n)
    by (apply Z.div_unique with (r := 0%Z); lia).
  rewrite Nat2Z.id, !map_map. apply map_ext. intros k.
  unfold dct_angle. rewrite !INR_IZR_INZ.
  rewrite Nat2Z.inj_add, Nat2Z.inj_mul, !plus_IZR, !mult_IZR.
  change (IZR (Z.of_nat 2)) with 2. change (IZR (Z.of_nat 1)) with 1.
  f_equal. f_equal. unfold Rdiv. ring.
Qed.

(** X25. For [1 <= n_filters <= n_input], [dct_filters] returns a
    matrix of shape [(n_filters, n_input)] whose rows are orthonormal:
    each row has Euclidean norm 1 and two different rows have inner
    product 0. *)
Theorem dct_filters_orthonormal :
  forall n_filters n_input : Z,
    (1 <= n_filters <= n_input)%Z ->
    exists basis,
      Signal.dct_filters n_filters n_input = Ok basis
      /\ mat_shape basis = (Z.to_nat n_filters, Z.to_nat n_input)
      /\ mat_wf basis
      /\ forall i j,
           (i < Z.to_nat n_filters)%nat -> (j < Z.to_nat n_filters)%nat ->
           dot (nth i (mat_rows basis) []) (nth j (mat_rows basis) [])
           = if Nat.eqb i j then 1 else 0.
Proof.
  intros n_filters n_input Hn.
  set (n := Z.to_nat n_input).
  assert (Hinput : n_input = Z.of_nat n) by (unfold n; lia).
  unfold Signal.dct_filters.
  destruct (Z.ltb_spec n_filters 0) as [Hbad | _]; [lia |].
  destruct (Z.ltb_spec n_input 0) as [Hbad | _]; [lia |].
  destruct (Z.eqb_spec n_filters 0) as [Hbad | _]; [lia |].
  destruct (Z.eqb_spec n_input 0) as [Hbad | _]; [lia |].
  cbn [orb andb]. eexists. split; [reflexivity |].
  fold n. rewrite Hinput.
  set (rows := map _ (Signal.py_range 1 n_filters)).
  assert (Hrows : forall i, (i < Z.to_nat n_filters - 1)%nat ->
                    nth i rows [] = cosine_row n (S i)).
  { intros i Hi. unfold rows, Signal.py_range.
    rewrite map_map.
    rewrite (nth_indep _ [] (cosine_row n (S 0)))
      by (rewrite length_map, length_seq; lia).
    rewrite <- (dct_row_form n (S 0)).
    replace (Z.of_nat 1) with (1 + Z.of_nat 0)%Z by lia.
    rewrite (map_nth
               (fun k =>
                  map (fun s =>
                         cos (IZR (1 + Z.of_nat k) * s)
                         * sqrt (2 / IZR (Z.of_nat n)))
                    (map (fun k0 => IZR k0 * PI / (2 * IZR (Z.of_nat n)))
                       (Signal.np_arange_step 1 (2 * Z.of_nat n) 2)))).
    rewrite seq_nth by lia. cbn [Nat.add].
    replace (1 + Z.of_nat i)%Z with (Z.of_nat (S i)) by lia.
    apply dct_row_form. }
  assert (Hcount : List.length rows = (Z.to_nat n_filters - 1)%nat).
  { unfold rows, Signal.py_range. rewrite !length_map, length_seq. lia. }
  split; [| split].
  - unfold mat_shape. cbn [mat_rows mat_ncols List.length]. rewrite Hcount.
    f_equal. lia.
  - unfold mat_wf. cbn [mat_rows mat_ncols]. constructor.
    + apply repeat_length.
    + apply Forall_forall. intros r Hin.
      destruct (In_nth _ _ [] Hin) as [i [Hi <-]].
      rewrite Hrows by lia. unfold cosine_row.
      rewrite length_map, length_seq. reflexivity.
  - intros i j Hi Hj. cbn [mat_rows].
    rewrite <- INR_IZR_INZ.
    destruct i as [| i], j as [| j]; cbn [nth Nat.eqb].
    + apply first_row_norm. lia.
    + rewrite Hrows by lia. apply first_row_dot. lia.
    + rewrite Hrows by lia. rewrite dot_comm. apply first_row_dot. lia.
    + rewrite !Hrows by lia.
      destruct (Nat.le_ge_cases j i) as [Hle | Hge].
      * rewrite cosine_rows_dot by lia. reflexivity.
      * rewrite dot_comm, cosine_rows_dot by lia.
        rewrite Nat.eqb_sym. reflexivity.
Qed.

End DctBasis.

Lemma dct_filters_orthonormal_witness :
  exists basis,
    Signal.dct_filters 2 3 = Ok basis
    /\ mat_shape basis = (2%nat, 3%nat)
    /\ dot (nth 0 (mat_rows basis) []) (nth 1 (mat_rows basis) []) = 0%R.
Proof.
  destruct (@dct_filters_orthonormal 2 3 ltac:(lia))
    as [basis [Hrun [Hshape [_ Hdot]]]].
  exists basis. split; [exact Hrun |]. split; [exact Hshape |].
  apply (Hdot 0%nat 1%nat); cbn; lia.
Defined.

(** ** The mel filter bank *)

Section MelFilters.

Local Open Scope R_scope.

Lemma nth_map_seq {B : Type} (f : nat -> B) (n i : nat) (d : B) :
  (i < n)%nat -> nth i (map f (seq 0 n)) d = f i.
Proof.
  intros Hi. rewrite (nth_indep _ d (f 0%nat))
    by (rewrite length_map, length_seq; exact Hi).
  rewrite map_nth, seq_nth by exact Hi. reflexivity.
Qed.

Lemma nth_map_in {A B : Type} (h : A -> B) (l : list A) (i : nat)
    (da : A) (db : B) :
  (i < List.length l)%nat -> nth i (map h l) db = h (nth i l da).
Proof.
  intros Hi. rewrite (nth_indep _ db (h da)) by (rewrite length_map; exact Hi).
  apply map_nth.
Qed.

Lemma mel2hz_entry_increasing (m1 m2 : R) :
  m1 < m2 -> Signal.mel2hz_entry m1 < Signal.mel2hz_entry m2.
Proof.
  intros Hlt.
  destruct (Rlt_le_dec (Signal.mel2hz_entry m1) (Signal.mel2hz_entry m2))
    as [Hok | Hge]; [exact Hok |].
  exfalso.
  assert (Hmel : Signal.hz2mel_entry (Signal.mel2hz_entry m2)
                 <= Signal.hz2mel_entry (Signal.mel2hz_entry m1)).
  { destruct Hge as [Hgt | Heq].
    - left. apply hz2mel_entry_increasing. exact Hgt.
    - right. rewrite Heq. reflexivity. }
  rewrite !mel2hz_entry_inverse in Hmel. lra.
Qed.

Lemma mel_edge_increasing (fmin fmax : R) (n_mels : Z) (i : nat) :
  (0 <= n_mels)%Z -> fmin < fmax ->
  mel_edge fmin fmax n_mels i < mel_edge fmin fmax n_mels (i + 1).
Proof.
  intros Hn Hf. unfold mel_edge. apply mel2hz_entry_increasing.
  pose proof (hz2mel_entry_increasing Hf) as Hmel.
  assert (Hden : 0 < IZR (n_mels + 1)) by (apply IZR_lt; lia).
  assert (Hstep : 0 < (Signal.hz2mel_entry fmax - Signal.hz2mel_entry fmin)
                      / IZR (n_mels + 1)).
  { apply Rdiv_lt_0_compat; lra. }
  rewrite plus_INR. cbn [INR]. nra.
Qed.

Lemma triangle_bounds (lo mid hi f : R) :
  lo < mid -> mid < hi ->
  0 <= triangle lo mid hi f <= 2 / (hi - lo)
  /\ (f <= lo \/ hi <= f -> triangle lo mid hi f = 0)
  /\ (f = mid -> triangle lo mid hi f = 2 / (hi - lo)).
Proof.
  intros H1 H2. unfold triangle.
  assert (Hscale : 0 < 2 / (hi - lo)) by (apply Rdiv_lt_0_compat; lra).
  assert (Hup : Rmin ((f - lo) / (mid - lo)) ((hi - f) / (hi - mid)) <= 1).
  { destruct (Rle_lt_dec f mid) as [Hle | Hgt].
    - apply Rle_trans with ((f - lo) / (mid - lo)); [apply Rmin_l |].
      apply Rmult_le_reg_r with (mid - lo); [lra |].
      replace ((f - lo) / (mid - lo) * (mid - lo)) with (f - lo)
        by (field; lra).
      lra.
    - apply Rle_trans with ((hi - f) / (hi - mid)); [apply Rmin_r |].
      apply Rmult_le_reg_r with (hi - mid); [lra |].
      replace ((hi - f) / (hi - mid) * (hi - mid)) with (hi - f)
        by (field; lra).
      lra. }
  split; [| split].
  - split.
    + apply Rmult_le_pos; [apply Rmax_l | lra].
    + rewrite <- (Rmult_1_l (2 / (hi - lo))) at 2.
      apply Rmult_le_compat_r; [lra |].
      apply Rmax_lub; lra.
  - intros Hout.
    assert (Hlow : Rmin ((f - lo) / (mid - lo)) ((hi - f) / (hi - mid)) <= 0).
    { destruct Hout as [Hleft | Hright].
      - apply Rle_trans with ((f - lo) / (mid - lo)); [apply Rmin_l |].
        apply Rmult_le_reg_r with (mid - lo); [lra |].
        replace ((f - lo) / (mid - lo) * (mid - lo)) with (f - lo)
          by (field; lra).
        lra.
      - apply Rle_trans with ((hi - f) / (hi - mid)); [apply Rmin_r |].
        apply Rmult_le_reg_r with (hi - mid); [lra |].
        replace ((hi - f) / (hi - mid) * (hi - mid)) with (hi - f)
          by (field; lra).
        lra. }
    rewrite Rmax_left by exact Hlow. ring.
  - intros ->.
    replace ((mid - lo) / (mid - lo)) with 1 by (field; lra).
    replace ((hi - mid) / (hi - mid)) with 1 by (field; lra).
    rewrite Rmin_left, Rmax_right by lra. ring.
Qed.

Lemma mel_filters_runs (sr : R) (n_fft n_mels : Z) (fmin : R)
    (fmax : option R) :
  (0 <= n_mels)%Z -> (0 <= n_fft)%Z ->
  exists weights,
    Signal.mel_filters sr n_fft n_mels fmin fmax = Ok weights
    /\ mat_shape weights = (Z.to_nat n_mels, Z.to_nat (1 + n_fft / 2))
    /\ mat_wf weights
    /\ forall i j,
         (i < Z.to_nat n_mels)%nat -> (j < Z.to_nat (1 + n_fft / 2))%nat ->
         nth j (nth i (mat_rows weights) []) 0
         = triangle (mel_edge fmin (resolved_fmax sr fmax) n_mels i)
             (mel_edge fmin (resolved_fmax sr fmax) n_mels (i + 1))
             (mel_edge fmin (resolved_fmax sr fmax) n_mels (i + 2))
             (fft_frequency sr n_fft j).
Proof.
  intros Hn Hfft.
  assert (Hhalf : (0 <= n_fft / 2)%Z) by (apply Z.div_pos; lia).
  unfold Signal.mel_filters, Signal.np_linspace.
  fold (resolved_fmax sr fmax). set (top := resolved_fmax sr fmax).
  destruct (Z.ltb_spec n_mels 0) as [Hbad | _]; [lia |].
  destruct (Z.ltb_spec (1 + n_fft / 2) 0) as [Hbad | _]; [lia |].
  destruct (Z.ltb_spec (n_mels + 2) 0) as [Hbad | _]; [lia |].
  cbn [orb bind].
  set (n := Z.to_nat n_mels). set (F := Z.to_nat (1 + n_fft / 2)).
  replace (Z.to_nat (n_mels + 2)) with (n + 2)%nat by (unfold n; lia).
  replace (n_mels + 2 - 1)%Z with (n_mels + 1)%Z by lia.
  replace (1 + n_fft / 2 - 1)%Z with (n_fft / 2)%Z by lia.
  unfold Signal.mel2hz. rewrite map_map.
  fold (mel_edge fmin top n_mels).
  set (edge := mel_edge fmin top n_mels).
  set (mel_f := map _ (seq 0 (n + 2))).
  set (fftfreqs := map _ (seq 0 F)).
  assert (Hmel : forall i, (i < n + 2)%nat -> nth i mel_f 0 = edge i).
  { intros i Hi. unfold mel_f. rewrite nth_map_seq by exact Hi. reflexivity. }
  assert (Hmel_len : List.length mel_f = (n + 2)%nat).
  { unfold mel_f. rewrite length_map, length_seq. reflexivity. }
  assert (Hfreq : forall j, (j < F)%nat ->
                    nth j fftfreqs 0 = fft_frequency sr n_fft j).
  { intros j Hj. unfold fftfreqs. rewrite nth_map_seq by exact Hj.
    unfold fft_frequency, Rdiv. ring. }
  assert (Hfreq_len : List.length fftfreqs = F).
  { unfold fftfreqs. rewrite length_map, length_seq. reflexivity. }
  assert (Hdiff : forall i, (i < n + 1)%nat ->
                    nth i (Signal.np_diff mel_f) 0 = edge (i + 1)%nat - edge i).
  { intros i Hi. unfold Signal.np_diff.
    rewrite (@map2_nth _ _ _ Rminus (skipn 1 mel_f) mel_f i 0 0 0)
      by (rewrite ?length_skipn, Hmel_len; lia).
    rewrite nth_skipn, !Hmel by lia.
    replace (1 + i)%nat with (i + 1)%nat by lia. reflexivity. }
  assert (Hramp : forall i, (i < n + 2)%nat ->
                    nth i (map (fun m => map (fun f => m - f) fftfreqs) mel_f) []
                    = map (fun f => edge i - f) fftfreqs).
  { intros i Hi.
    rewrite (@nth_map_in _ _ (fun m => map (fun f => m - f) fftfreqs)
               mel_f i 0 []) by (rewrite Hmel_len; exact Hi).
    rewrite Hmel by exact Hi. reflexivity. }
  set (weights := map _ (seq 0 n)).
  set (enorm := map2 (fun hi lo => 2 / (hi - lo)) _ _).
  assert (Hweights_len : List.length weights = n).
  { unfold weights. rewrite length_map, length_seq. reflexivity. }
  assert (Hhigh : py_slice mel_f (Some 2%Z) (Some (n_mels + 2)%Z)
                  = skipn 2 mel_f).
  { unfold py_slice, slice_bound, len. rewrite Hmel_len.
    destruct (Z.ltb_spec 2 0) as [Hbad | _]; [lia |].
    destruct (Z.ltb_spec (n_mels + 2) 0) as [Hbad | _]; [lia |].
    replace (Z.to_nat (Z.min (Z.of_nat (n + 2)) 2)) with 2%nat
      by (unfold n; lia).
    apply firstn_all2. rewrite length_skipn, Hmel_len. unfold n. lia. }
  assert (Hlow : py_slice mel_f None (Some n_mels) = firstn n mel_f).
  { unfold py_slice, slice_bound, len. rewrite Hmel_len.
    destruct (Z.ltb_spec n_mels 0) as [Hbad | _]; [lia |].
    cbn [Z.to_nat skipn]. f_equal. unfold n. lia. }
  assert (Henorm_len : List.length enorm = n).
  { unfold enorm. rewrite map2_length, Hhigh, Hlow, length_skipn,
      length_firstn, Hmel_len. lia. }
  assert (Henorm : forall i, (i < n)%nat ->
                     nth i enorm 0 = 2 / (edge (i + 2)%nat - edge i)).
  { intros i Hi. unfold enorm. rewrite Hhigh, Hlow.
    rewrite (@map2_nth _ _ _ (fun hi lo => 2 / (hi - lo)) (skipn 2 mel_f)
               (firstn n mel_f) i 0 0 0)
      by (rewrite ?length_skipn, ?length_firstn, Hmel_len; lia).
    rewrite nth_skipn, nth_firstn, !Hmel by lia.
    destruct (Nat.ltb_spec i n) as [_ | Hbad]; [| lia].
    replace (2 + i)%nat with (i + 2)%nat by lia. reflexivity. }
  assert (Hweights : forall i, (i < n)%nat ->
            nth i weights []
            = map (fun f =>
                     Rmax 0 (Rmin ((f - edge i) / (edge (i + 1)%nat - edge i))
                               ((edge (i + 2)%nat - f)
                                / (edge (i + 2)%nat - edge (i + 1)%nat))))
                fftfreqs).
  { intros i Hi. unfold weights. rewrite nth_map_seq by exact Hi.
    rewrite !Hramp, !Hdiff by lia.
    replace (i + 1 + 1)%nat with (i + 2)%nat by lia.
    rewrite !map_map.
    generalize fftfreqs. intros l. induction l as [| f l IH]; [reflexivity |].
    cbn [map map2]. rewrite IH. f_equal. f_equal. f_equal. unfold Rdiv. ring. }
  eexists. split; [reflexivity |].
  assert (Hrow : forall i, (i < n)%nat ->
            nth i (map2 (fun row e => map (fun x => x * e) row) weights enorm)
              []
            = map (fun f => triangle (edge i) (edge (i + 1)%nat)
                              (edge (i + 2)%nat) f) fftfreqs).
  { intros i Hi.
    rewrite (@map2_nth _ _ _ (fun row e => map (fun x => x * e) row)
               weights enorm i [] 0 [])
      by (rewrite ?Hweights_len, ?Henorm_len; exact Hi).
    rewrite Hweights, Henorm by exact Hi. rewrite map_map. reflexivity. }
  split; [| split].
  - unfold mat_shape. cbn [mat_rows mat_ncols].
    rewrite map2_length, Hweights_len, Henorm_len. f_equal. lia.
  - unfold mat_wf. cbn [mat_rows mat_ncols]. apply Forall_forall.
    intros r Hin. destruct (In_nth _ _ [] Hin) as [i [Hi <-]].
    rewrite map2_length, Hweights_len, Henorm_len in Hi.
    rewrite Hrow by lia. rewrite length_map. exact Hfreq_len.
  - intros i j Hi Hj. cbn [mat_rows]. rewrite Hrow by exact Hi.
    rewrite (@nth_map_in _ _ (fun f => triangle (edge i) (edge (i + 1)%nat)
                                         (edge (i + 2)%nat) f)
               fftfreqs j 0 0) by (rewrite Hfreq_len; exact Hj).
    rewrite Hfreq by exact Hj. reflexivity.
Qed.

(** X26. For [fmin < fmax], [mel_filters] returns [n_mels] rows of
    [1 + n_fft // 2] weights.  Row [i] is a triangle over the band
    between the mel-spaced edges [i] and [i + 2]: the weights are never
    negative, they are zero at every FFT bin outside the band, and they
    are highest, [2 / (band width)], at a bin that falls on the middle
    edge. *)
Theorem mel_filters_triangles :
  forall (sr : R) (n_fft n_mels : Z) (fmin : R) (fmax : option R),
    (0 <= n_mels)%Z -> (0 <= n_fft)%Z ->
    fmin < resolved_fmax sr fmax ->
    exists weights,
      Signal.mel_filters sr n_fft n_mels fmin fmax = Ok weights
      /\ mat_shape weights = (Z.to_nat n_mels, Z.to_nat (1 + n_fft / 2))
      /\ mat_wf weights
      /\ forall i j,
           (i < Z.to_nat n_mels)%nat -> (j < Z.to_nat (1 + n_fft / 2))%nat ->
           let edge := mel_edge fmin (resolved_fmax sr fmax) n_mels in
           let f := fft_frequency sr n_fft j in
           let w := nth j (nth i (mat_rows weights) []) 0 in
           edge i < edge (i + 1)%nat < edge (i + 2)%nat
           /\ w = triangle (edge i) (edge (i + 1)%nat) (edge (i + 2)%nat) f
           /\ 0 <= w <= 2 / (edge (i + 2)%nat - edge i)
           /\ (f <= edge i \/ edge (i + 2)%nat <= f -> w = 0)
           /\ (f = edge (i + 1)%nat -> w = 2 / (edge (i + 2)%nat - edge i)).
Proof.
  intros sr n_fft n_mels fmin fmax Hn Hfft Hf.
  destruct (@mel_filters_runs sr n_fft n_mels fmin fmax Hn Hfft)
    as [weights [Hrun [Hshape [Hwf Hentry]]]].
  exists weights. split; [exact Hrun |]. split; [exact Hshape |].
  split; [exact Hwf |].
  intros i j Hi Hj edge f w.
  assert (H1 : edge i < edge (i + 1)%nat)
    by (apply mel_edge_increasing; assumption).
  assert (H2 : edge (i + 1)%nat < edge (i + 2)%nat).
  { replace (i + 2)%nat with (i + 1 + 1)%nat by lia.
    apply mel_edge_increasing; assumption. }
  assert (Hw : w = triangle (edge i) (edge (i + 1)%nat) (edge (i + 2)%nat) f)
    by (apply Hentry; assumption).
  destruct (@triangle_bounds (edge i) (edge (i + 1)%nat) (edge (i + 2)%nat) f
              H1 H2) as [Hb [Hz Hp]].
  rewrite <- Hw in Hb, Hz, Hp.
  split; [split; assumption |]. split; [exact Hw |].
  split; [exact Hb |]. split; [exact Hz | exact Hp].
Qed.

End MelFilters.

Lemma mel_filters_triangles_witness :
  exists weights,
    Signal.mel_filters 8000 8 2 0 None = Ok weights
    /\ mat_shape weights = (2%nat, 5%nat)
    /\ (0 <= nth 1 (nth 0 (mat_rows weights) []) 0)%R.
Proof.
  destruct (@mel_filters_triangles 8000%R 8%Z 2%Z 0%R None
              ltac:(lia) ltac:(lia) ltac:(cbn; lra))
    as [weights [Hrun [Hshape [_ Hentry]]]].
  exists weights. split; [exact Hrun |]. split; [exact Hshape |].
  destruct (Hentry 0%nat 1%nat ltac:(cbn; lia) ltac:(cbn; lia))
    as [_ [_ [[Hpos _] _]]].
  exact Hpos.
Defined.

(** ** The short-time Fourier transform *)

Section StftFrames.

Local Open Scope Z_scope.

Variable Spec : Type.
Variable scipy_get_window : Spec -> Z -> bool -> result (list R).
Variable C : Type.
Variable fft : list R -> list C.
Variable conj : C -> C.
Variable np_pad_reflect : list R -> Z -> result (list R).
Variable uninitialised : nat -> nat -> C.

Local Abbreviation stft :=
  (Signal.stft scipy_get_window fft conj np_pad_reflect uninitialised).

Lemma segment_axis_frame_lengths {A : Type} (a : list A) (fl hop : Z)
    (end_ : Signal.end_policy) (endvalue : A) (endmode : Signal.end_mode)
    (frames : list (list A)) :
  Signal.segment_axis a fl hop end_ endvalue endmode = Ok frames ->
  0 < fl /\ (1 <= List.length frames)%nat
  /\ Forall (fun f => len f = fl) frames.
Proof.
  unfold Signal.segment_axis.
  destruct (Z.geb_spec (fl - hop) fl) as [_ | Hhop]; [discriminate |].
  destruct (Z.ltb_spec (fl - hop) 0) as [_ | Hover]; [discriminate |].
  destruct (Z.leb_spec fl 0) as [_ | Hfl]; [discriminate |].
  cbn [orb]. intros Hrun.
  apply bind_ok_inv in Hrun. destruct Hrun as [a' [_ Hrun]].
  destruct (Z.eqb_spec (len a') 0) as [_ | Hne]; [discriminate |].
  destruct (Z.geb_spec (len a') fl) as [Hlen | _]; [| discriminate].
  destruct (Z.eqb_spec ((len a' - fl) mod (fl - (fl - hop))) 0)
    as [Hfit | _]; [| discriminate].
  apply ok_injective in Hrun. subst frames.
  replace (fl - (fl - hop)) with hop in * by lia.
  assert (Hq : 0 <= (len a' - fl) / hop) by (apply Z.div_pos; lia).
  pose proof (Z.div_mod (len a' - fl) hop ltac:(lia)) as Hdm.
  rewrite Hfit in Hdm.
  set (q := (len a' - fl) / hop) in *.
  split; [exact Hfl |]. split.
  - unfold Signal.strided_frames. rewrite length_map, length_seq. lia.
  - apply strided_frames_in_bounds; [lia | lia |].
    replace (1 + q - 1) with q by lia. lia.
Qed.

Lemma Forall_slice {A : Type} (P : A -> Prop) (k n : nat) (l : list A) :
  Forall P l -> Forall P (firstn k (skipn n l)).
Proof.
  intros H. rewrite <- (firstn_skipn n l) in H.
  apply Forall_app in H. destruct H as [_ H].
  rewrite <- (firstn_skipn k (skipn n l)) in H.
  apply Forall_app in H. tauto.
Qed.

Lemma windowed_columns (w : list R) (n_rows : nat) (columns : list (list R)) :
  Forall (fun f => List.length f = List.length w) columns ->
  Signal.map_result
    (fun column =>
       bind (Signal.np_multiply_column w column)
         (fun windowed => Ok (map conj (firstn n_rows (fft windowed)))))
    columns
  = Ok (map (fun frame => map conj (firstn n_rows (fft (map2 Rmult w frame))))
          columns).
Proof.
  induction 1 as [| f l Hf _ IH]; [reflexivity |].
  cbn [Signal.map_result map]. unfold Signal.np_multiply_column at 1.
  rewrite <- Hf, Nat.eqb_refl. cbn [bind]. rewrite IH. reflexivity.
Qed.

Lemma block_starts (n nc : Z) (j : nat) :
  1 <= nc -> 0 <= n ->
  (j < Z.to_nat ((n - 0 + nc - 1) / nc))%nat -> nc * Z.of_nat j < n.
Proof.
  intros Hnc Hn Hj.
  pose proof (Z.div_mod (n - 0 + nc - 1) nc ltac:(lia)) as Hdm.
  pose proof (Z.mod_pos_bound (n - 0 + nc - 1) nc ltac:(lia)) as Hmod.
  set (q := (n - 0 + nc - 1) / nc) in *.
  assert (Z.of_nat j <= q - 1) by lia. nia.
Qed.

Lemma block_count (n nc : Z) :
  1 <= nc -> 0 <= n -> n <= nc * ((n - 0 + nc - 1) / nc).
Proof.
  intros Hnc Hn.
  pose proof (Z.div_mod (n - 0 + nc - 1) nc ltac:(lia)) as Hdm.
  pose proof (Z.mod_pos_bound (n - 0 + nc - 1) nc ltac:(lia)) as Hmod.
  lia.
Qed.

(** After the first [j] blocks, the columns of the frames below
    [j * n_columns] hold spectra and the other columns are untouched. *)
Lemma stft_loop_prefix (w : list R) (frames : list (list R)) (n_rows : nat)
    (nc : Z) (matrix : list (list C)) (j : nat) :
  1 <= nc ->
  List.length matrix = List.length frames ->
  Forall (fun f => List.length f = List.length w) frames ->
  (j <= Z.to_nat ((len matrix - 0 + nc - 1) / nc))%nat ->
  fold_left
    (fun acc bl_s =>
       bind acc (fun m =>
         Signal.stft_block fft conj w frames n_rows nc m bl_s))
    (map (fun k => 0 + nc * Z.of_nat k) (seq 0 j)) (Ok matrix)
  = Ok (map (fun frame => map conj (firstn n_rows (fft (map2 Rmult w frame))))
          (firstn (Z.to_nat (Z.min (nc * Z.of_nat j) (len matrix))) frames)
        ++ skipn (Z.to_nat (Z.min (nc * Z.of_nat j) (len matrix))) matrix).
Proof.
  intros Hnc Hlen Hall. induction j as [| j IH]; intros Hj.
  - cbn [seq map fold_left]. replace (nc * Z.of_nat 0) with 0 by lia.
    rewrite Z.min_l by apply len_nonneg. reflexivity.
  - rewrite seq_S, map_app, fold_left_app, IH by lia.
    cbn [Nat.add map fold_left bind].
    pose proof (@block_starts (len matrix) nc j Hnc (len_nonneg matrix)
                  ltac:(lia)) as Hstart.
    set (spec := fun frame : list R =>
                   map conj (firstn n_rows (fft (map2 Rmult w frame)))).
    rewrite Z.min_l by lia.
    set (bl_s := nc * Z.of_nat j) in *.
    replace (0 + bl_s) with bl_s by lia.
    assert (Hs0 : 0 <= bl_s) by (unfold bl_s; lia).
    unfold Signal.stft_block.
    assert (Hcur :
      len (map spec (firstn (Z.to_nat bl_s) frames)
           ++ skipn (Z.to_nat bl_s) matrix) = len matrix).
    { unfold len in *. rewrite length_app, length_map, length_firstn,
        length_skipn. lia. }
    rewrite Hcur.
    replace (nc * Z.of_nat (S j)) with (bl_s + nc) by (unfold bl_s; lia).
    set (bl_t := Z.min (bl_s + nc) (len matrix)).
    assert (Ht : bl_s < bl_t <= len matrix) by (unfold bl_t; lia).
    assert (Hslice :
      py_slice frames (Some bl_s) (Some bl_t)
      = firstn (Z.to_nat (bl_t - bl_s)) (skipn (Z.to_nat bl_s) frames)).
    { unfold py_slice, slice_bound, len in *.
      destruct (Z.ltb_spec bl_s 0) as [Hbad | _]; [lia |].
      destruct (Z.ltb_spec bl_t 0) as [Hbad | _]; [lia |].
      rewrite <- Hlen. f_equal; [lia |]. f_equal. lia. }
    rewrite Hslice, windowed_columns.
    2:{ apply Forall_slice. exact Hall. }
    cbn [bind]. fold spec. f_equal.
    rewrite firstn_app, length_map, length_firstn.
    unfold len in *.
    replace (Z.to_nat bl_s - Nat.min (Z.to_nat bl_s) (List.length frames))%nat
      with 0%nat by lia.
    rewrite firstn_O, app_nil_r.
    rewrite (firstn_all2 (n := Z.to_nat bl_s))
      by (rewrite length_map, length_firstn; lia).
    rewrite skipn_app, length_map, length_firstn.
    rewrite (skipn_all2 (n := Z.to_nat bl_t))
      by (rewrite length_map, length_firstn; lia).
    cbn [app]. rewrite skipn_skipn.
    replace (Z.to_nat bl_t - Nat.min (Z.to_nat bl_s) (List.length frames)
             + Z.to_nat bl_s)%nat with (Z.to_nat bl_t) by lia.
    rewrite app_assoc, <- map_app. f_equal. f_equal.
    rewrite <- (firstn_skipn (Z.to_nat bl_s) (firstn (Z.to_nat bl_t) frames)).
    rewrite firstn_firstn, skipn_firstn_comm.
    f_equal; [f_equal; lia | f_equal; lia].
Qed.

Lemma stft_block_size (n_fft : Z) :
  0 < n_fft < 131072 ->
  1 <= Signal.MAX_MEM_BLOCK / (Z.of_nat (Z.to_nat (1 + n_fft / 2)) * 8).
Proof.
  intros Hn. change Signal.MAX_MEM_BLOCK with 524288.
  assert (Hhalf : 0 <= n_fft / 2 <= 65535).
  { split; [apply Z.div_pos; lia |].
    apply Z.lt_succ_r. apply Z.div_lt_upper_bound; lia. }
  set (h := n_fft / 2) in *.
  apply Z.div_le_lower_bound; lia.
Qed.

(** X27. For a window of [n_fft < 131072] weights, [stft] returns one
    row for each frame that [segment_axis] cuts from the signal, in the
    order of the frames: the conjugate of the first [1 + n_fft // 2]
    entries of the transform of the windowed frame.  The result does not
    depend on how the frames are split into blocks, and no entry of the
    uninitialised matrix is left in it.  The energies, when asked for,
    are those of the same frames. *)
Theorem stft_frame_spectra :
  forall (y : list R) (n_fft : Z) (hop_length : option Z)
         (window : Signal.window_spec Spec) (center : bool)
         (preemphasis : option R) (energy : Signal.energy_arg)
         (w y' : list R) (frames : list (list R)),
    n_fft < 131072 ->
    Signal.get_window scipy_get_window window n_fft true = Ok w ->
    len w = n_fft ->
    stft_signal np_pad_reflect y n_fft center preemphasis = Ok y' ->
    Signal.segment_axis y' n_fft (stft_hop n_fft hop_length) Signal.Cut 0%R
      Signal.Post = Ok frames ->
    stft y n_fft hop_length window center preemphasis energy
    = Ok (map (frame_spectrum fft conj w n_fft) frames,
          stft_energy energy frames).
Proof.
  intros y n_fft hop_length window center preemphasis energy w y' frames
    Hsmall Hwin Hw Hsig Hseg.
  destruct (segment_axis_frame_lengths _ _ _ _ _ _ Hseg)
    as [Hpos [Hsome Hframes]].
  unfold Signal.stft. rewrite Hwin. cbn [bind].
  unfold stft_signal in Hsig. apply bind_ok_inv in Hsig.
  destruct Hsig as [y1 [Hpre Hpad]].
  rewrite Hpre. cbn [bind]. rewrite Hpad. cbn [bind].
  unfold stft_hop in Hseg. rewrite Hseg. cbn [bind].
  fold (stft_energy energy frames).
  pose proof (@stft_block_size n_fft ltac:(lia)) as Hnc.
  set (n_rows := Z.to_nat (1 + n_fft / 2)) in *.
  set (nc := Signal.MAX_MEM_BLOCK / (Z.of_nat n_rows * 8)) in *.
  set (matrix := map _ (seq 0 (List.length frames))).
  assert (Hlen : List.length matrix = List.length frames).
  { unfold matrix. rewrite length_map, length_seq. reflexivity. }
  unfold Signal.py_range_step.
  destruct (Z.eqb_spec nc 0) as [Hbad | _]; [lia |]. cbn [bind].
  unfold Signal.np_arange_step.
  assert (Hall : Forall (fun f => List.length f = List.length w) frames).
  { apply Forall_forall. intros f Hin.
    pose proof (proj1 (Forall_forall _ frames) Hframes f Hin) as Hf.
    unfold len in *. lia. }
  rewrite (@stft_loop_prefix w frames n_rows nc matrix
             (Z.to_nat ((len matrix - 0 + nc - 1) / nc)) Hnc Hlen Hall
             ltac:(lia)).
  cbn [bind].
  pose proof (@block_count (len matrix) nc Hnc (len_nonneg matrix)) as Hcnt.
  assert (Hq : 0 <= (len matrix - 0 + nc - 1) / nc).
  { apply Z.div_pos; [pose proof (len_nonneg matrix) |]; lia. }
  rewrite Z2Nat.id by exact Hq.
  rewrite Z.min_r by exact Hcnt.
  unfold len. rewrite Nat2Z.id.
  rewrite (skipn_all2 (n := List.length matrix)) by lia.
  rewrite Hlen, firstn_all, app_nil_r. reflexivity.
Qed.

(** X28. [stft] never returns for [n_fft >= 131072]: no column of the
    result then fits in a block of [MAX_MEM_BLOCK] bytes, the block size
    is 0, and [range] refuses the step 0.  When the steps before the
    loop succeed, this is the error raised. *)
Theorem stft_large_fft_fails :
  forall (y : list R) (n_fft : Z) (hop_length : option Z)
         (window : Signal.window_spec Spec) (center : bool)
         (preemphasis : option R) (energy : Signal.energy_arg),
    131072 <= n_fft ->
    is_ok (stft y n_fft hop_length window center preemphasis energy) = false
    /\ forall w y' frames,
         Signal.get_window scipy_get_window window n_fft true = Ok w ->
         stft_signal np_pad_reflect y n_fft center preemphasis = Ok y' ->
         Signal.segment_axis y' n_fft (stft_hop n_fft hop_length) Signal.Cut
           0%R Signal.Post = Ok frames ->
         stft y n_fft hop_length window center preemphasis energy
         = Raise (ValueError "range() arg 3 must not be zero").
Proof.
  intros y n_fft hop_length window center preemphasis energy Hbig.
  assert (Hnc : Signal.MAX_MEM_BLOCK
                / (Z.of_nat (Z.to_nat (1 + n_fft / 2)) * 8) = 0).
  { change Signal.MAX_MEM_BLOCK with 524288.
    assert (Hhalf : 65536 <= n_fft / 2)
      by (apply Z.div_le_lower_bound; lia).
    set (h := n_fft / 2) in *.
    apply Z.div_small. lia. }
  assert (Hlate : forall w y' frames,
    Signal.get_window scipy_get_window window n_fft true = Ok w ->
    stft_signal np_pad_reflect y n_fft center preemphasis = Ok y' ->
    Signal.segment_axis y' n_fft (stft_hop n_fft hop_length) Signal.Cut
      0%R Signal.Post = Ok frames ->
    stft y n_fft hop_length window center preemphasis energy
    = Raise (ValueError "range() arg 3 must not be zero")).
  { intros w y' frames Hwin Hsig Hseg.
    unfold Signal.stft. rewrite Hwin. cbn [bind].
    unfold stft_signal in Hsig. apply bind_ok_inv in Hsig.
    destruct Hsig as [y1 [Hpre Hpad]].
    rewrite Hpre. cbn [bind]. rewrite Hpad. cbn [bind].
    unfold stft_hop in Hseg. rewrite Hseg. cbn [bind].
    rewrite Hnc. reflexivity. }
  split; [| exact Hlate].
  destruct (Signal.get_window scipy_get_window window n_fft true)
    as [w | e] eqn:Hwin.
  2:{ unfold Signal.stft. rewrite Hwin. reflexivity. }
  destruct (stft_signal np_pad_reflect y n_fft center preemphasis)
    as [y' | e] eqn:Hsig.
  2:{ unfold Signal.stft. rewrite Hwin. cbn [bind].
      unfold stft_signal in Hsig.
      destruct (match preemphasis with
                | Some coeff =>
                    if Rlt_dec 0 coeff
                    then if Rlt_dec coeff 1
                         then Signal.pre_emphasis_vector y coeff
                         else Ok y
                    else Ok y
                | None => Ok y
                end) as [y1 | e1]; cbn [bind] in *; [| reflexivity].
      rewrite Hsig. reflexivity. }
  destruct (Signal.segment_axis y' n_fft (stft_hop n_fft hop_length)
              Signal.Cut 0%R Signal.Post) as [frames | e] eqn:Hseg.
  - rewrite (Hlate w y' frames eq_refl eq_refl Hseg). reflexivity.
  - unfold Signal.stft. rewrite Hwin. cbn [bind].
    unfold stft_signal in Hsig. apply bind_ok_inv in Hsig.
    destruct Hsig as [y1 [Hpre Hpad]].
    rewrite Hpre. cbn [bind]. rewrite Hpad. cbn [bind].
    unfold stft_hop in Hseg. rewrite Hseg. reflexivity.
Qed.

End StftFrames.

Lemma stft_frame_spectra_witness :
  Signal.stft (fun (_ : unit) _ _ => Ok []) (fun v => v) (fun c => c)
    (fun y _ => Ok y) (fun _ _ => 0%R)
    [1; 2; 3; 4]%R 2 (Some 2%Z) (Signal.WinArray [1; 1]%R) false None
    Signal.EnergyOff
  = Ok (map (frame_spectrum (fun v => v) (fun c => c) [1; 1]%R 2)
          [[1; 2]; [3; 4]]%R,
        None).
Proof.
  apply (@stft_frame_spectra unit (fun _ _ _ => Ok []) R (fun v => v)
           (fun c => c) (fun y _ => Ok y) (fun _ _ => 0%R)
           [1; 2; 3; 4]%R 2%Z (Some 2%Z) (Signal.WinArray [1; 1]%R) false None
           Signal.EnergyOff [1; 1]%R [1; 2; 3; 4]%R [[1; 2]; [3; 4]]%R);
    [lia | reflexivity | reflexivity | reflexivity | reflexivity].
Defined.

Lemma stft_large_fft_fails_witness :
  Signal.stft (fun (_ : unit) _ _ => Ok []) (fun v => v) (fun c => c)
    (fun y _ => Ok y) (fun _ _ => 0%R)
    (repeat 0%R (Z.to_nat 131072)) 131072 None
    (Signal.WinCallable (fun n => repeat 1%R (Z.to_nat n))) false None
    Signal.EnergyOff
  = Raise (ValueError "range() arg 3 must not be zero").
Proof.
  assert (Hlen : len (repeat 0%R (Z.to_nat 131072)) = 131072%Z)
    by (unfold len; rewrite repeat_length; lia).
  apply (proj2 (@stft_large_fft_fails unit (fun _ _ _ => Ok []) R
                  (fun v => v) (fun c => c) (fun y _ => Ok y)
                  (fun _ _ => 0%R) (repeat 0%R (Z.to_nat 131072)) 131072%Z
                  None
                  (Signal.WinCallable (fun n => repeat 1%R (Z.to_nat n)))
                  false None Signal.EnergyOff ltac:(lia))
           (repeat 1%R (Z.to_nat 131072)) (repeat 0%R (Z.to_nat 131072))
           (Signal.strided_frames (repeat 0%R (Z.to_nat 131072))
              (1 + (len (repeat 0%R (Z.to_nat 131072)) - 131072) / 32768)
              131072 32768)).
  - reflexivity.
  - reflexivity.
  - change (stft_hop 131072 None) with 32768%Z.
    apply segment_axis_fitting; [lia | lia |].
    rewrite Hlen. reflexivity.
Defined.

(** ** The inverse transform *)

Lemma py_slice_inside {A : Type} (a : list A) (s n : Z) :
  0 <= s -> 0 <= n -> s + n <= len a ->
  py_slice a (Some s) (Some (s + n))
  = firstn (Z.to_nat n) (skipn (Z.to_nat s) a).
Proof.
  intros Hs Hn Hfit. unfold py_slice, slice_bound.
  destruct (Z.ltb_spec s 0) as [Hbad | _]; [lia |].
  destruct (Z.ltb_spec (s + n) 0) as [Hbad | _]; [lia |].
  rewrite !Z.min_r by lia. replace (s + n - s) with n by lia. reflexivity.
Qed.

Lemma np_assign_slice_inside {A : Type} (a : list A) (s n : Z)
    (src : list A) :
  0 <= s -> 0 <= n -> s + n <= len a -> len src = n ->
  Signal.np_assign_slice a (Some s) (Some (s + n)) src
  = Ok (firstn (Z.to_nat s) a ++ src ++ skipn (Z.to_nat (s + n)) a).
Proof.
  intros Hs Hn Hfit Hsrc. unfold Signal.np_assign_slice, slice_bound.
  destruct (Z.ltb_spec s 0) as [Hbad | _]; [lia |].
  destruct (Z.ltb_spec (s + n) 0) as [Hbad | _]; [lia |].
  rewrite !Z.min_r by lia. rewrite Z.max_r by lia.
  unfold np_broadcast_to.
  replace (Z.to_nat (s + n - s)) with (List.length src)
    by (unfold len in Hsrc; lia).
  rewrite Nat.eqb_refl. reflexivity.
Qed.

(** Writing [mid] over the cells from [s] on leaves the other cells as
    they are. *)
Lemma nth_overwritten {A : Type} (a mid : list A) (s n t : nat) (d : A) :
  List.length mid = n -> (s + n <= List.length a)%nat ->
  nth t (firstn s a ++ mid ++ skipn (s + n) a) d
  = if ((s <=? t) && (t <? s + n))%nat
    then nth (t - s) mid d else nth t a d.
Proof.
  intros Hmid Hfit.
  destruct (Nat.leb_spec s t) as [Hst | Hts]; cbn [andb].
  - rewrite app_nth2 by (rewrite length_firstn; lia).
    rewrite length_firstn, Nat.min_l by lia.
    destruct (Nat.ltb_spec t (s + n)) as [Hin | Hout].
    + rewrite app_nth1 by lia. reflexivity.
    + rewrite app_nth2 by lia. rewrite nth_skipn. f_equal. lia.
  - rewrite app_nth1 by (rewrite length_firstn; lia).
    rewrite nth_firstn.
    destruct (Nat.ltb_spec t s) as [_ | Hbad]; [reflexivity | lia].
Qed.

(** The overlap-add step on a buffer given by its entries. *)
Lemma overlap_add_entries (f : nat -> R) (E s n : nat) (mid : list R) :
  List.length mid = n -> (s + n <= E)%nat ->
  firstn s (map f (seq 0 E))
  ++ map2 Rplus (firstn n (skipn s (map f (seq 0 E)))) mid
  ++ skipn (s + n) (map f (seq 0 E))
  = map (fun t => (f t + (if ((s <=? t) && (t <? s + n))%nat
                          then nth (t - s) mid 0 else 0))%R)
      (seq 0 E).
Proof.
  intros Hmid Hfit.
  set (a := map f (seq 0 E)).
  assert (Ha : List.length a = E)
    by (unfold a; rewrite length_map, length_seq; reflexivity).
  assert (Hsum : List.length (map2 Rplus (firstn n (skipn s a)) mid) = n).
  { rewrite map2_length, length_firstn, length_skipn. lia. }
  apply nth_ext with (d := 0%R) (d' := 0%R).
  - rewrite !length_app, length_firstn, length_skipn, Hsum, length_map,
      length_seq. lia.
  - intros t Ht.
    rewrite !length_app, length_firstn, length_skipn, Hsum in Ht.
    assert (HtE : (t < E)%nat) by lia.
    rewrite nth_map_seq by exact HtE.
    rewrite (@nth_overwritten R a _ s n t 0%R Hsum) by lia.
    destruct ((s <=? t) && (t <? s + n))%nat eqn:Hcov.
    + apply andb_prop in Hcov. destruct Hcov as [H1 H2].
      apply Nat.leb_le in H1. apply Nat.ltb_lt in H2.
      rewrite (map2_nth Rplus _ _ 0%R 0%R)
        by (try rewrite length_firstn, length_skipn; lia).
      rewrite nth_firstn.
      destruct (Nat.ltb_spec (t - s) n) as [_ | Hbad]; [| lia].
      rewrite nth_skipn. replace (s + (t - s))%nat with t by lia.
      unfold a. rewrite nth_map_seq by exact HtE. reflexivity.
    + unfold a. rewrite nth_map_seq by exact HtE. lra.
Qed.

Lemma py_index_inside {A : Type} (a : list A) (i : nat) (d : A) :
  (i < List.length a)%nat -> py_index a (0 + Z.of_nat i) = Ok (nth i a d).
Proof.
  intros Hi. unfold py_index, len.
  replace (0 + Z.of_nat i) with (Z.of_nat i) by lia.
  destruct (Z.ltb_spec (Z.of_nat i) 0) as [Hneg | _]; [lia |].
  destruct (Z.ltb_spec (Z.of_nat i) 0) as [Hneg | _]; [lia |].
  destruct (Z.leb_spec (Z.of_nat (List.length a)) (Z.of_nat i))
    as [Hbad | _]; [lia |].
  cbn [orb]. rewrite Nat2Z.id.
  destruct (nth_error a i) as [x |] eqn:Hx.
  - rewrite (nth_error_nth _ _ d Hx). reflexivity.
  - apply nth_error_None in Hx. lia.
Qed.

(** Under ['cut'] the frames are those of the longest prefix that
    fits. *)
Lemma segment_axis_cut_frames {A : Type} (a : list A) (fl hop : Z)
    (endvalue : A) (endmode : Signal.end_mode) :
  0 < hop <= fl -> fl <= len a ->
  Signal.segment_axis a fl hop Signal.Cut endvalue endmode
  = Ok (Signal.strided_frames
          (firstn (Z.to_nat (fl + (len a - fl) / hop * hop)) a)
          (1 + (len a - fl) / hop) fl hop).
Proof.
  intros Hhop Hlen.
  unfold Signal.segment_axis.
  destruct (parameter_checks_pass Hhop) as [Hc1 Hc2].
  rewrite Hc1, Hc2.
  replace (fl - (fl - hop)) with hop by lia.
  set (L := len a) in *.
  assert (Hq : 0 <= (L - fl) / hop) by (apply Z.div_pos; lia).
  assert (Hdm : L - fl = hop * ((L - fl) / hop) + (L - fl) mod hop)
    by (apply Z.div_mod; lia).
  assert (Hm : 0 <= (L - fl) mod hop < hop) by (apply Z.mod_pos_bound; lia).
  destruct (Z.ltb_spec L fl) as [Hlt | _]; [lia |].
  destruct (Z.eqb_spec ((L - fl) mod hop) 0) as [Hz | Hnz]; cbn [negb orb].
  - cbn [bind]. fold L.
    destruct (Z.eqb_spec L 0) as [H0 | _]; [lia |].
    destruct (Z.geb_spec L fl) as [_ | Hbad]; [| lia].
    rewrite Hz. cbn [Z.eqb].
    rewrite firstn_all2 by (unfold L, len in *; nia). reflexivity.
  - unfold Signal.round_lengths.
    replace (fl - (fl - hop)) with hop by lia.
    destruct (Z.gtb_spec L fl) as [Hgt | Hle].
    2:{ assert (L = fl) by lia. subst L. rewrite H in Hnz.
        rewrite Z.sub_diag, Z.mod_0_l in Hnz by lia. contradiction. }
    set (q := (L - fl) / hop) in *.
    assert (Hrd : fl + q * hop < L) by nia.
    assert (Hru : L < fl + (1 + q) * hop) by nia.
    destruct (Z.ltb_spec (fl + q * hop) L) as [_ | Hbad]; [| lia].
    destruct (Z.ltb_spec L (fl + (1 + q) * hop)) as [_ | Hbad]; [| lia].
    cbn [andb].
    destruct (Z.eqb_spec (fl + (1 + q) * hop) (fl + q * hop + hop))
      as [_ | Hbad]; [| lia].
    cbn [orb bind].
    rewrite py_slice_prefix by (fold L; nia).
    rewrite len_firstn by (fold L; nia).
    destruct (Z.eqb_spec (fl + q * hop) 0) as [H0 | _]; [nia |].
    destruct (Z.geb_spec (fl + q * hop) fl) as [_ | Hbad]; [| nia].
    replace (fl + q * hop - fl) with (q * hop) by lia.
    rewrite Z.mod_mul by lia. cbn [Z.eqb].
    rewrite Z.div_mul by lia. reflexivity.
Qed.

(** Entry [k] of frame [i] is sample [i * hop + k] of the signal. *)
Lemma cut_frame_entry {A : Type} (a : list A) (fl hop : Z) (i k : nat)
    (d : A) :
  0 < hop <= fl -> fl <= len a ->
  Z.of_nat i < 1 + (len a - fl) / hop -> Z.of_nat k < fl ->
  nth k
    (nth i (Signal.strided_frames
              (firstn (Z.to_nat (fl + (len a - fl) / hop * hop)) a)
              (1 + (len a - fl) / hop) fl hop) [])
    d
  = nth (Z.to_nat (Z.of_nat i * hop) + k) a d.
Proof.
  intros Hhop Hlen Hi Hk.
  rewrite strided_frames_nth by exact Hi.
  set (q := (len a - fl) / hop) in *.
  rewrite nth_firstn.
  destruct (Nat.ltb_spec k (Z.to_nat fl)) as [_ | Hbad]; [| lia].
  rewrite nth_skipn, nth_firstn.
  destruct (Nat.ltb_spec (Z.to_nat (Z.of_nat i * hop) + k)
              (Z.to_nat (fl + q * hop))) as [_ | Hbad];
    [reflexivity | nia].
Qed.

Lemma zero_entries (f : nat -> R) (E : nat) :
  (forall t, f t = 0%R) -> repeat 0%R E = map f (seq 0 E).
Proof.
  intros Hf. rewrite repeat_as_map. apply map_ext. intros t.
  symmetry. apply Hf.
Qed.

Lemma window_energy_next (w : list R) (hop : Z) (j t : nat) :
  window_energy w hop (S j) t
  = (window_energy w hop j t + window_term w hop t j)%R.
Proof. unfold window_energy. apply np_sum_seq_S. Qed.

Lemma window_term_nonneg (w : list R) (hop : Z) (t i : nat) :
  (0 <= window_term w hop t i)%R.
Proof.
  unfold window_term.
  destruct ((0 <=? _) && _); [nra | lra].
Qed.

(** The energy is at least the share of any one frame. *)
Lemma window_energy_lower (w : list R) (hop : Z) (n t i : nat) :
  (i < n)%nat -> (window_term w hop t i <= window_energy w hop n t)%R.
Proof.
  induction n as [| n IH]; intros Hi; [lia |].
  rewrite window_energy_next.
  assert (Hall : (0 <= window_energy w hop n t)%R).
  { clear. induction n as [| n IH].
    - unfold window_energy. cbn. lra.
    - rewrite window_energy_next.
      pose proof (window_term_nonneg w hop t n). lra. }
  pose proof (window_term_nonneg w hop t n) as Hn.
  destruct (Nat.eq_dec i n) as [-> | Hne]; [lra |].
  specialize (IH ltac:(lia)). lra.
Qed.

Lemma np_broadcast2_same (f : R -> R -> R) (u v : list R) :
  List.length u = List.length v ->
  Signal.np_broadcast2 f u v = Ok (map2 f u v).
Proof.
  intros H. unfold Signal.np_broadcast2. rewrite H, Nat.eqb_refl.
  reflexivity.
Qed.

(** [buffer[s:s + n] = buffer[s:s + n] + mid] and
    [buffer[s:s + n] += mid] on a buffer given by its entries. *)
Lemma slice_sum (f : nat -> R) (E : nat) (s n : Z) (mid : list R) :
  0 <= s -> len mid = n -> s + n <= Z.of_nat E ->
  Signal.np_broadcast2 Rplus
    (py_slice (map f (seq 0 E)) (Some s) (Some (s + n))) mid
  = Ok (map2 Rplus
          (firstn (Z.to_nat n) (skipn (Z.to_nat s) (map f (seq 0 E)))) mid).
Proof.
  intros Hs Hmid Hfit.
  assert (Hn : 0 <= n) by (unfold len in Hmid; lia).
  assert (Hbuf : len (map f (seq 0 E)) = Z.of_nat E).
  { unfold len. rewrite length_map, length_seq. reflexivity. }
  rewrite py_slice_inside by lia.
  apply np_broadcast2_same.
  rewrite length_firstn, length_skipn, length_map, length_seq.
  unfold len in Hmid. lia.
Qed.

Lemma overlap_add_slice (f : nat -> R) (E : nat) (s n : Z) (mid : list R) :
  0 <= s -> len mid = n -> s + n <= Z.of_nat E ->
  Signal.np_assign_slice (map f (seq 0 E)) (Some s) (Some (s + n))
    (map2 Rplus
       (firstn (Z.to_nat n) (skipn (Z.to_nat s) (map f (seq 0 E)))) mid)
  = Ok (map (fun t =>
               (f t + (if ((Z.to_nat s <=? t)
                           && (t <? Z.to_nat s + Z.to_nat n))%nat
                       then nth (t - Z.to_nat s) mid 0 else 0))%R)
          (seq 0 E)).
Proof.
  intros Hs Hmid Hfit.
  assert (Hn : 0 <= n) by (unfold len in Hmid; lia).
  assert (Hbuf : len (map f (seq 0 E)) = Z.of_nat E).
  { unfold len. rewrite length_map, length_seq. reflexivity. }
  assert (Hcut : List.length
                   (firstn (Z.to_nat n) (skipn (Z.to_nat s) (map f (seq 0 E))))
                 = List.length mid).
  { rewrite length_firstn, length_skipn, length_map, length_seq.
    unfold len in Hmid. lia. }
  rewrite np_assign_slice_inside; try lia.
  2:{ unfold len in *. rewrite map2_length, Hcut. lia. }
  replace (Z.to_nat (s + n)) with (Z.to_nat s + Z.to_nat n)%nat by lia.
  rewrite overlap_add_entries by (unfold len in Hmid; lia).
  reflexivity.
Qed.

Lemma iadd_slice_entries (f : nat -> R) (E : nat) (s n : Z) (mid : list R) :
  0 <= s -> len mid = n -> s + n <= Z.of_nat E ->
  Signal.np_iadd_slice (map f (seq 0 E)) (Some s) (Some (s + n)) mid
  = Ok (map (fun t =>
               (f t + (if ((Z.to_nat s <=? t)
                           && (t <? Z.to_nat s + Z.to_nat n))%nat
                       then nth (t - Z.to_nat s) mid 0 else 0))%R)
          (seq 0 E)).
Proof.
  intros Hs Hmid Hfit.
  assert (Hn : 0 <= n) by (unfold len in Hmid; lia).
  assert (Hbuf : len (map f (seq 0 E)) = Z.of_nat E).
  { unfold len. rewrite length_map, length_seq. reflexivity. }
  unfold Signal.np_iadd_slice.
  rewrite py_slice_inside by lia.
  assert (Hcut : List.length
                   (firstn (Z.to_nat n) (skipn (Z.to_nat s) (map f (seq 0 E))))
                 = List.length mid).
  { rewrite length_firstn, length_skipn, length_map, length_seq.
    unfold len in Hmid. lia. }
  unfold np_broadcast_to. rewrite Hcut, Nat.eqb_refl. cbn [bind].
  rewrite np_assign_slice_inside; try lia.
  2:{ unfold len in *. rewrite map2_length, Hcut. lia. }
  replace (Z.to_nat (s + n)) with (Z.to_nat s + Z.to_nat n)%nat by lia.
  rewrite overlap_add_entries by (unfold len in Hmid; lia).
  reflexivity.
Qed.

Lemma pad_center_same (w : list R) (n : Z) :
  len w = n -> Signal.pad_center w n = Ok w.
Proof.
  intros Hw. unfold Signal.pad_center. rewrite Hw, Z.sub_diag.
  cbn [Z.div Z.div_eucl Z.ltb Z.compare fst Z.sub Z.opp Z.add Z.to_nat
       repeat app].
  rewrite app_nil_r. reflexivity.
Qed.

Lemma float32_tiny_bounds :
  (0 < Signal.float32_tiny < 1 / 4)%R.
Proof.
  unfold Signal.float32_tiny. split.
  - apply Rinv_0_lt_compat, pow_lt. lra.
  - replace (1 / 4)%R with (/ 2 ^ 2)%R by (cbn [pow]; lra).
    apply Rinv_lt_contravar.
    + apply Rmult_lt_0_compat; apply pow_lt; lra.
    + apply Rlt_pow; [lra | lia].
Qed.

Lemma hann_length (n : nat) : List.length (hann n) = n.
Proof. unfold hann. rewrite length_map, length_seq. reflexivity. Qed.

(** From a quarter to a half of its length, the Hann window is at least
    1/2. *)
Lemma hann_weight_lower (n k : nat) :
  (0 < n)%nat -> (n <= 4 * k)%nat -> (2 * k <= n)%nat ->
  (1 / 2 <= nth k (hann n) 0)%R.
Proof.
  intros Hn Hlo Hhi. unfold hann. rewrite nth_map_seq by lia.
  assert (Hm : (0 < INR n)%R) by (apply lt_0_INR; exact Hn).
  assert (H1 : (INR n <= 4 * INR k)%R).
  { apply le_INR in Hlo. rewrite mult_INR in Hlo.
    change (INR 4) with (IZR 4) in Hlo || idtac.
    replace (INR 4) with 4%R in Hlo by (cbn [INR]; lra). exact Hlo. }
  assert (H2 : (2 * INR k <= INR n)%R).
  { apply le_INR in Hhi. rewrite mult_INR in Hhi.
    replace (INR 2) with 2%R in Hhi by (cbn [INR]; lra). exact Hhi. }
  set (x := INR k) in *. set (m := INR n) in *.
  assert (Hr : (2 * PI * x / m = PI * (2 * x / m))%R) by (field; lra).
  assert (Hq : (1 / 2 <= 2 * x / m <= 1)%R).
  { split.
    - apply Rmult_le_reg_r with m; [exact Hm |].
      replace (2 * x / m * m)%R with (2 * x)%R by (field; lra). lra.
    - apply Rmult_le_reg_r with m; [exact Hm |].
      replace (2 * x / m * m)%R with (2 * x)%R by (field; lra). lra. }
  pose proof PI_RGT_0 as Hpi.
  assert (Hcos : (cos (2 * PI * x / m) <= 0)%R).
  { rewrite Hr. apply cos_le_0; nra. }
  lra.
Qed.

Section InverseTransform.

Local Open Scope Z_scope.

Variable Spec : Type.
Variable scipy_get_window : Spec -> Z -> bool -> result (list R).
Variable C : Type.
Variable fft : list R -> list C.
Variable ifft : list C -> list C.
Variable conj : C -> C.
Variable real : C -> R.
Variable np_pad_reflect : list R -> Z -> result (list R).
Variable uninitialised : nat -> nat -> C.

Local Abbreviation stft :=
  (Signal.stft scipy_get_window fft conj np_pad_reflect uninitialised).
Local Abbreviation istft := (Signal.istft scipy_get_window ifft conj real).

(** [stft] keeps the lower half of the spectrum of a frame, conjugated;
    [istft] rebuilds the spectrum from it when the upper half mirrors
    the lower one. *)
Lemma hermitian_extension_rebuilds (X : list C) (n : Z) :
  2 <= n -> n mod 2 = 0 -> len X = n ->
  (forall c, conj (conj c) = c) ->
  (forall d k, 1 <= k < n ->
     nth (Z.to_nat (n - k)) X d = conj (nth (Z.to_nat k) X d)) ->
  Signal.hermitian_extension conj
    (map conj (firstn (Z.to_nat (1 + n / 2)) X)) = X.
Proof.
  intros Hn Heven HX Hinv Hsym.
  assert (Hd : exists d : C, True).
  { destruct X; [unfold len in HX; cbn in HX; lia | eauto]. }
  destruct Hd as [d _].
  assert (Hh : n = 2 * (n / 2))
    by (pose proof (Z.div_mod n 2 ltac:(lia)); lia).
  set (h := n / 2) in *.
  unfold Signal.hermitian_extension.
  rewrite map_map, (map_ext _ (fun c => c)) by exact Hinv. rewrite map_id.
  unfold Signal.py_slice_rev, Signal.rev_slice_bound.
  set (s := map conj (firstn (Z.to_nat (1 + h)) X)).
  assert (Hs : List.length s = Z.to_nat (1 + h)).
  { unfold s, len in *. rewrite length_map, length_firstn. lia. }
  unfold len. rewrite Hs. cbn [Z.ltb Z.compare].
  rewrite Z.max_r, Z.min_r by lia.
  replace (Z.to_nat (Z.of_nat (Z.to_nat (1 + h)) + -2 - 0))
    with (Z.to_nat h - 1)%nat by lia.
  change (Z.to_nat (0 + 1)) with 1%nat.
  set (l := firstn (Z.to_nat h - 1) (skipn 1 s)).
  assert (Hl : List.length l = (Z.to_nat h - 1)%nat).
  { unfold l. rewrite length_firstn, length_skipn, Hs. lia. }
  unfold len in HX.
  apply nth_ext with (d := d) (d' := d).
  - rewrite length_app, length_firstn, length_rev, Hl. lia.
  - intros t Ht.
    rewrite length_app, length_firstn, length_rev, Hl in Ht.
    destruct (Nat.ltb_spec t (Z.to_nat (1 + h))) as [Hlow | Hhigh].
    + rewrite app_nth1 by (rewrite length_firstn; lia).
      rewrite nth_firstn.
      destruct (Nat.ltb_spec t (Z.to_nat (1 + h))); [reflexivity | lia].
    + rewrite app_nth2 by (rewrite length_firstn; lia).
      rewrite length_firstn, Nat.min_l by lia.
      rewrite rev_nth by lia. rewrite Hl.
      unfold l. rewrite nth_firstn.
      destruct (Nat.ltb_spec (Z.to_nat h - 1 - S (t - Z.to_nat (1 + h)))
                  (Z.to_nat h - 1)) as [_ | Hbad]; [| lia].
      rewrite nth_skipn. unfold s.
      rewrite (nth_map_in conj _ d d) by (rewrite length_firstn; lia).
      rewrite nth_firstn.
      destruct (Nat.ltb_spec
                  (1 + (Z.to_nat h - 1 - S (t - Z.to_nat (1 + h))))
                  (Z.to_nat (1 + h))) as [_ | Hbad]; [| lia].
      replace (1 + (Z.to_nat h - 1 - S (t - Z.to_nat (1 + h))))%nat
        with (Z.to_nat (n - Z.of_nat t)) by lia.
      rewrite (Hsym d (Z.of_nat t)) by lia.
      rewrite Hinv, Nat2Z.id. reflexivity.
Qed.

Lemma stft_plain_rows (y : list R) (n_fft : Z) (hop_length : option Z)
    (window : Signal.window_spec Spec) (w : list R)
    (frames : list (list R)) :
  n_fft < 131072 ->
  Signal.get_window scipy_get_window window n_fft true = Ok w ->
  len w = n_fft ->
  Signal.segment_axis y n_fft (stft_hop n_fft hop_length) Signal.Cut 0%R
    Signal.Post = Ok frames ->
  stft y n_fft hop_length window false None Signal.EnergyOff
  = Ok (map (frame_spectrum fft conj w n_fft) frames, None).
Proof.
  intros Hsmall Hwin Hw Hseg.
  destruct (segment_axis_frame_lengths _ _ _ _ _ _ Hseg)
    as [Hpos [Hsome Hframes]].
  unfold Signal.stft. rewrite Hwin. cbn [bind].
  unfold stft_hop in Hseg. rewrite Hseg. cbn [bind].
  pose proof (@stft_block_size n_fft ltac:(lia)) as Hnc.
  set (n_rows := Z.to_nat (1 + n_fft / 2)) in *.
  set (nc := Signal.MAX_MEM_BLOCK / (Z.of_nat n_rows * 8)) in *.
  set (matrix := map _ (seq 0 (List.length frames))).
  assert (Hlen : List.length matrix = List.length frames).
  { unfold matrix. rewrite length_map, length_seq. reflexivity. }
  unfold Signal.py_range_step.
  destruct (Z.eqb_spec nc 0) as [Hbad | _]; [lia |]. cbn [bind].
  unfold Signal.np_arange_step.
  assert (Hall : Forall (fun f => List.length f = List.length w) frames).
  { apply Forall_forall. intros f Hin.
    pose proof (proj1 (Forall_forall _ frames) Hframes f Hin) as Hf.
    unfold len in *. lia. }
  rewrite (@stft_loop_prefix C fft conj uninitialised w frames n_rows nc
             matrix (Z.to_nat ((len matrix - 0 + nc - 1) / nc)) Hnc Hlen
             Hall ltac:(lia)).
  cbn [bind].
  pose proof (@block_count (len matrix) nc Hnc (len_nonneg matrix)) as Hcnt.
  assert (Hq : 0 <= (len matrix - 0 + nc - 1) / nc).
  { apply Z.div_pos; [pose proof (len_nonneg matrix) |]; lia. }
  rewrite Z2Nat.id by exact Hq.
  rewrite Z.min_r by exact Hcnt.
  unfold len. rewrite Nat2Z.id.
  rewrite (skipn_all2 (n := List.length matrix)) by lia.
  rewrite Hlen, firstn_all, app_nil_r. reflexivity.
Qed.

(** After the first [j] frames, the buffer of the signal holds each
    sample times the energy the window has put on it, and the buffer of
    the window holds that energy. *)
Lemma istft_loop_prefix (w y : list R) (frames : list (list R))
    (n_fft hop : Z) (ncols j : nat) :
  2 <= n_fft -> n_fft mod 2 = 0 -> 0 < hop ->
  len w = n_fft ->
  (forall c, conj (conj c) = c) ->
  (forall v, len v = n_fft ->
     len (fft v) = n_fft
     /\ map real (ifft (fft v)) = v
     /\ forall d k, 1 <= k < n_fft ->
          nth (Z.to_nat (n_fft - k)) (fft v) d
          = conj (nth (Z.to_nat k) (fft v) d)) ->
  (forall i, (i < List.length frames)%nat ->
     len (nth i frames []) = n_fft
     /\ forall k, Z.of_nat k < n_fft ->
          nth k (nth i frames []) 0%R
          = nth (Z.to_nat (Z.of_nat i * hop) + k) y 0%R) ->
  (j <= List.length frames)%nat ->
  fold_left
    (fun buffers i =>
       bind buffers (fun b =>
         Signal.istft_frame ifft conj real w (map2 Rmult w w) n_fft hop
           (Mat (map (frame_spectrum fft conj w n_fft) frames) ncols) b i))
    (map (fun k => 0 + Z.of_nat k) (seq 0 j))
    (Ok (repeat 0%R (Z.to_nat (n_fft + hop * (len frames - 1))),
         repeat 0%R (Z.to_nat (n_fft + hop * (len frames - 1)))))
  = Ok (map (fun t => (nth t y 0 * window_energy w hop j t)%R)
          (seq 0 (Z.to_nat (n_fft + hop * (len frames - 1)))),
        map (window_energy w hop j)
          (seq 0 (Z.to_nat (n_fft + hop * (len frames - 1))))).
Proof.
  intros Hn Heven Hhop Hw Hinv Hfft Hframes.
  set (E := Z.to_nat (n_fft + hop * (len frames - 1))).
  induction j as [| j IH]; intros Hj.
  - cbn [seq map fold_left]. f_equal. f_equal.
    + apply zero_entries. intros t. unfold window_energy. cbn [seq map].
      change (np_sum (@nil R)) with 0%R. lra.
    + apply zero_entries. intros t. reflexivity.
  - rewrite seq_S, map_app, fold_left_app, IH by lia.
    cbn [Nat.add map fold_left bind].
    unfold Signal.istft_frame. cbn [mat_rows].
    rewrite (py_index_inside _ []) by (rewrite length_map; lia).
    cbn [bind].
    rewrite (nth_map_in (frame_spectrum fft conj w n_fft) frames [] [])
      by lia.
    destruct (Hframes j ltac:(lia)) as [Hsize Hentry].
    set (frame := nth j frames []) in *.
    unfold frame_spectrum.
    set (v := map2 Rmult w frame).
    assert (Hv : len v = n_fft).
    { unfold v, len in *. rewrite map2_length. lia. }
    destruct (Hfft v Hv) as [HX [Hre Hsym]].
    rewrite (@hermitian_extension_rebuilds (fft v) n_fft Hn Heven HX Hinv Hsym), Hre.
    rewrite np_broadcast2_same by (unfold len in *; lia).
    cbn [bind].
    assert (Hfit : (0 + Z.of_nat j) * hop + n_fft <= Z.of_nat E).
    { unfold E, len in *. nia. }
    rewrite slice_sum with (n := n_fft); try lia.
    2:{ unfold len in *. rewrite map2_length. lia. }
    cbn [bind].
    rewrite overlap_add_slice; try lia.
    2:{ unfold len in *. rewrite map2_length. lia. }
    cbn [bind].
    rewrite iadd_slice_entries; try lia.
    2:{ unfold len in *. rewrite map2_length. lia. }
    cbn [bind].
    set (s := Z.to_nat ((0 + Z.of_nat j) * hop)).
    assert (Hterm : forall t,
      window_term w hop t j
      = if ((s <=? t) && (t <? s + Z.to_nat n_fft))%nat
        then (nth (t - s) w 0 * nth (t - s) w 0)%R else 0%R).
    { intros t. unfold window_term. rewrite Hw.
      destruct (Z.leb_spec 0 (Z.of_nat t - Z.of_nat j * hop)) as [H1 | H1];
        destruct (Z.ltb_spec (Z.of_nat t - Z.of_nat j * hop) n_fft)
          as [H2 | H2];
        destruct (Nat.leb_spec s t) as [H3 | H3];
        destruct (Nat.ltb_spec t (s + Z.to_nat n_fft)) as [H4 | H4];
        cbn [andb]; unfold s in *; try lia; try reflexivity.
      replace (Z.to_nat (Z.of_nat t - Z.of_nat j * hop))
        with (t - Z.to_nat ((0 + Z.of_nat j) * hop))%nat by lia.
      reflexivity. }
    f_equal. f_equal.
    + apply map_ext. intros t.
      rewrite window_energy_next, Hterm.
      destruct ((s <=? t) && (t <? s + Z.to_nat n_fft))%nat eqn:Hcov;
        [| lra].
      apply andb_prop in Hcov. destruct Hcov as [H1 H2].
      apply Nat.leb_le in H1. apply Nat.ltb_lt in H2.
      unfold v.
      rewrite (map2_nth Rmult _ _ 0%R 0%R)
        by (unfold len in *; try rewrite map2_length; lia).
      rewrite (map2_nth Rmult _ _ 0%R 0%R) by (unfold len in *; lia).
      rewrite Hentry by lia.
      replace (Z.to_nat (Z.of_nat j * hop) + (t - s))%nat with t
        by (unfold s; lia).
      ring.
    + apply map_ext. intros t.
      rewrite window_energy_next, Hterm.
      destruct ((s <=? t) && (t <? s + Z.to_nat n_fft))%nat eqn:Hcov;
        [| reflexivity].
      apply andb_prop in Hcov. destruct Hcov as [H1 H2].
      apply Nat.leb_le in H1. apply Nat.ltb_lt in H2.
      rewrite (map2_nth Rmult _ _ 0%R 0%R) by (unfold len in *; lia).
      reflexivity.
Qed.


End InverseTransform.


(** ** Spectra *)

Section SpectraResult.

Local Open Scope Z_scope.

Variable Spec : Type.
Variable scipy_get_window : Spec -> Z -> bool -> result (list R).
Variable C : Type.
Variable fft : list R -> list C.
Variable conj : C -> C.
Variable np_pad_reflect : list R -> Z -> result (list R).
Variable uninitialised : nat -> nat -> C.
Variable np_abs : C -> R.

Local Abbreviation spectra :=
  (Signal.spectra scipy_get_window fft conj np_pad_reflect uninitialised
     np_abs).

(** X29. [spectra] never returns for a spectrogram [S] whose entries
    are real: after the check of [fmin] against [fmax], which raises
    [ValueError] when it fails, the local [spec] is read without having
    been bound. *)
Theorem spectra_real_spectrogram_fails :
  forall (sr : option Z) (y : option (list R)) (m : matrix R) (n_fft : Z)
         (hop_length : option Z) (window : Signal.window_spec Spec)
         (nb_melfilters nb_ceps : option Z) (fmin : Z) (fmax : option Z)
         (top_db : option R) (power : Z) (log : bool),
    spectra sr y (Some (Signal.SReal m)) n_fft hop_length window
      nb_melfilters nb_ceps fmin fmax top_db power log
    = Raise
        (if fmin >=? spectra_fmax sr fmax
         then ValueError "fmin must < fmax."
         else Exception "UnboundLocalError: local variable 'spec' referenced before assignment").
Proof.
  intros. unfold Signal.spectra. cbn [bind].
  fold (spectra_fmax sr fmax).
  destruct (fmin >=? spectra_fmax sr fmax); reflexivity.
Qed.

(** X30. Whenever [spectra] returns, the dictionary has the key
    ['spec'], then ['mspec'] if and only if [nb_melfilters] was given,
    then ['mfcc'] if and only if [nb_ceps] was given.  It returns only
    for [fmin < fmax], for a complex spectrogram, and, when mel bands or
    cepstra are asked for, for a sampling rate that is not [None]. *)
Theorem spectra_result_keys :
  forall (sr : option Z) (y : option (list R))
         (S_ : option (Signal.spectrogram C)) (n_fft : Z)
         (hop_length : option Z) (window : Signal.window_spec Spec)
         (nb_melfilters nb_ceps : option Z) (fmin : Z) (fmax : option Z)
         (top_db : option R) (power : Z) (log : bool)
         (results : list (string * matrix R)),
    spectra sr y S_ n_fft hop_length window nb_melfilters nb_ceps fmin fmax
      top_db power log = Ok results ->
    map fst results = spectra_keys nb_melfilters nb_ceps
    /\ fmin < spectra_fmax sr fmax
    /\ (forall s, S_ = Some s -> exists m, s = Signal.SComplex m)
    /\ (nb_melfilters <> None \/ nb_ceps <> None -> sr <> None).
Proof.
  intros sr y S_ n_fft hop_length window nb_melfilters nb_ceps fmin fmax
    top_db power log results Hrun.
  unfold Signal.spectra in Hrun.
  apply bind_ok_inv in Hrun. destruct Hrun as [s [Hs Hrun]].
  fold (spectra_fmax sr fmax) in Hrun.
  destruct (Z.geb_spec fmin (spectra_fmax sr fmax)) as [_ | Hf];
    [discriminate |].
  apply bind_ok_inv in Hrun. destruct Hrun as [spec [Hspec Hrun]].
  apply bind_ok_inv in Hrun. destruct Hrun as [mel_spec [Hmel Hrun]].
  apply bind_ok_inv in Hrun. destruct Hrun as [mfcc [Hmfcc Hrun]].
  apply bind_ok_inv in Hrun. destruct Hrun as [spec_entry [_ Hrun]].
  apply bind_ok_inv in Hrun. destruct Hrun as [mspec_entry [Hms Hrun]].
  apply bind_ok_inv in Hrun. destruct Hrun as [mfcc_entry [Hmf Hrun]].
  apply ok_injective in Hrun. subst results.
  split; [| split; [exact Hf | split]].
  - unfold spectra_keys. cbn [app map fst]. f_equal. rewrite map_app.
    f_equal.
    + destruct nb_melfilters as [n |]; [| apply ok_injective in Hms;
                                          subst mspec_entry; reflexivity].
      destruct mel_spec as [ms |]; [| discriminate].
      apply ok_injective in Hms. subst mspec_entry. reflexivity.
    + destruct nb_ceps as [c |]; [| apply ok_injective in Hmf;
                                    subst mfcc_entry; reflexivity].
      destruct mfcc as [mf |]; [| discriminate].
      apply ok_injective in Hmf. subst mfcc_entry. reflexivity.
  - intros s0 ->. apply ok_injective in Hs. subst s0.
    destruct s as [m | m]; [exists m; reflexivity | discriminate].
  - intros Hasked ->.
    destruct nb_melfilters as [n |], nb_ceps as [c |];
      cbn [bind] in Hmel;
      try (destruct Hasked as [Hbad | Hbad]; exfalso; apply Hbad;
           reflexivity);
      match type of Hmel with
      | context [if ?b then _ else _] => destruct b; discriminate
      end.
Qed.

End SpectraResult.

Lemma spectra_result_keys_witness :
  exists results,
    Signal.spectra (fun (_ : unit) _ _ => Ok []) (fun v => v) (fun c => c)
      (fun y _ => Ok y) (fun _ _ => 0%R) Rabs
      (Some 8000%Z) None (Some (Signal.SComplex (Mat [[1; -2]; [3; 4]]%R 2)))
      256 None (Signal.WinOther "hann") None None 64 None (Some 80%R) 1 false
    = Ok results
    /\ map fst results = ["spec"]%string
    /\ (64 < spectra_fmax (Some 8000) None)%Z.
Proof.
  eexists. split; [reflexivity |].
  match goal with
  | |- map fst ?d = _ /\ _ =>
      destruct (@spectra_result_keys unit (fun _ _ _ => Ok []) R (fun v => v)
                  (fun c => c) (fun y _ => Ok y) (fun _ _ => 0%R) Rabs
                  (Some 8000%Z) None
                  (Some (Signal.SComplex (Mat [[1; -2]; [3; 4]]%R 2)))
                  256%Z None (Signal.WinOther "hann") None None 64%Z None
                  (Some 80%R) 1%Z false d eq_refl) as [Hkeys [Hf _]]
  end.
  split; [exact Hkeys | exact Hf].
Defined.
